(** * PuTTY session launcher: the session record mapper and its call sites

    A shallow embedding of [src/add-connection.tsx] and
    [src/search-connections.tsx].  The extension keeps no state of its own:
    every operation is a short sequence of calls to the outside (the [reg]
    command line tool, the file system, the PuTTY executable, the Raycast
    user interface), glued together by string formatting and parsing.

    The embedding has three layers.

    - ECMAScript strings and the built-in functions the sources call
      ([encodeURIComponent], [decodeURIComponent], [String.prototype.trim],
      [parseInt], regular expression matching), written after ECMA-262.
    - The operations of the two source files, as programs over the calls
      they make to the outside ([prog]); a program is run against any
      handler of those calls.
    - One concrete handler, [Win.handle]: a model of the registry behind
      [reg.exe], of the file system and of the user interface, used where a
      property speaks about what a later registry query returns. *)

From Stdlib Require Import Ascii String.
From Stdlib Require Import List NArith ZArith QArith Bool Lia.
From Stdlib Require Import Sorting.Sorted Sorting.Permutation.
Import ListNotations.

Set Implicit Arguments.

(** ** ECMAScript strings

    A string value is a finite sequence of 16-bit code units. *)

Definition jsstring := list N.

Definition codeUnit (c : N) : Prop := (c < 65536)%N.

Definition wfString (s : jsstring) : Prop := Forall codeUnit s.

(** A literal of the source text, as its code units. *)
Definition js (s : string) : jsstring := map N_of_ascii (list_ascii_of_string s).

Definition jsstring_eqb (a b : jsstring) : bool :=
  if list_eq_dec N.eq_dec a b then true else false.

Module URI.

Local Open Scope N_scope.

(** *** encodeURIComponent (ECMA-262, Encode with the uriUnescaped set) *)

Definition isAlpha (c : N) : bool :=
  ((65 <=? c) && (c <=? 90)) || ((97 <=? c) && (c <=? 122)).

Definition isDigit (c : N) : bool := (48 <=? c) && (c <=? 57).

(** uriMark: - _ . ! ~ * ' ( ) *)
Definition isMark (c : N) : bool :=
  existsb (N.eqb c) [45; 95; 46; 33; 126; 42; 39; 40; 41].

Definition uriUnescaped (c : N) : bool := isAlpha c || isDigit c || isMark c.

Definition isLeadingSurrogate (c : N) : bool := (0xD800 <=? c) && (c <=? 0xDBFF).

Definition isTrailingSurrogate (c : N) : bool := (0xDC00 <=? c) && (c <=? 0xDFFF).

(** UTF16SurrogatePairToCodePoint *)
Definition pairToCodePoint (lead trail : N) : N :=
  (lead - 0xD800) * 0x400 + (trail - 0xDC00) + 0x10000.

(** The UTF-8 octets of a code point. *)
Definition utf8 (cp : N) : list N :=
  if cp <? 0x80 then [cp]
  else if cp <? 0x800 then [0xC0 + cp / 64; 0x80 + cp mod 64]
  else if cp <? 0x10000 then
    [0xE0 + cp / 4096; 0x80 + (cp / 64) mod 64; 0x80 + cp mod 64]
  else
    [0xF0 + cp / 262144; 0x80 + (cp / 4096) mod 64;
     0x80 + (cp / 64) mod 64; 0x80 + cp mod 64].

(** A Unicode scalar value: a code point that is not a surrogate. *)
Definition scalar (cp : N) : Prop :=
  cp < 0x110000 /\ ~ (0xD800 <= cp <= 0xDFFF).

Definition hexDigit (d : N) : N := if d <? 10 then 48 + d else 55 + d.

(** One octet as "%XX", upper-case hexadecimal, two digits. *)
Definition percent (b : N) : jsstring := [37; hexDigit (b / 16); hexDigit (b mod 16)].

Definition escape (cp : N) : jsstring := flat_map percent (utf8 cp).

(** [None] is the URIError thrown at an unpaired surrogate. *)
Fixpoint Encode (s : jsstring) : option jsstring :=
  match s with
  | [] => Some []
  | c :: rest =>
    if uriUnescaped c then option_map (cons c) (Encode rest)
    else if isLeadingSurrogate c then
      match rest with
      | d :: rest' =>
        if isTrailingSurrogate d
        then option_map (app (escape (pairToCodePoint c d))) (Encode rest')
        else None
      | [] => None
      end
    else if isTrailingSurrogate c then None
    else option_map (app (escape c)) (Encode rest)
  end.

Definition encodeURIComponent (s : jsstring) : option jsstring := Encode s.

(** The characters an encoded string is made of: unescaped ones and "%". *)
Definition keyChar (c : N) : Prop := uriUnescaped c = true \/ c = 37.

(** A printable ASCII character other than the space. *)
Definition printable (c : N) : Prop := 33 <= c <= 126.

(** String.prototype.isWellFormed: no surrogate stands alone. *)
Fixpoint isWellFormed (s : jsstring) : bool :=
  match s with
  | [] => true
  | c :: rest =>
    if isLeadingSurrogate c then
      match rest with
      | d :: rest' => isTrailingSurrogate d && isWellFormed rest'
      | [] => false
      end
    else negb (isTrailingSurrogate c) && isWellFormed rest
  end.

(** *** decodeURIComponent (ECMA-262, Decode with an empty preserved set) *)

Definition hexValue (c : N) : option N :=
  if isDigit c then Some (c - 48)
  else if (65 <=? c) && (c <=? 70) then Some (c - 55)
  else if (97 <=? c) && (c <=? 102) then Some (c - 87)
  else None.

(** ParseHexOctet: the two code units after a "%". *)
Definition parseHexOctet (s : jsstring) : option (N * jsstring) :=
  match s with
  | h :: l :: rest =>
    match hexValue h, hexValue l with
    | Some a, Some b => Some (16 * a + b, rest)
    | _, _ => None
    end
  | _ => None
  end.

(** The number of leading 1 bits of an octet. *)
Definition leadingOnes (b : N) : nat :=
  if b <? 0x80 then 0
  else if b <? 0xC0 then 1
  else if b <? 0xE0 then 2
  else if b <? 0xF0 then 3
  else if b <? 0xF8 then 4
  else 5.

(** The [n] continuation octets "%XX" that follow the first one. *)
Fixpoint continuation (n : nat) (s : jsstring) : option (list N * jsstring) :=
  match n with
  | O => Some ([], s)
  | S n' =>
    match s with
    | 37 :: s1 =>
      match parseHexOctet s1 with
      | Some (b, s2) =>
        match continuation n' s2 with
        | Some (bs, s3) => Some (b :: bs, s3)
        | None => None
        end
      | None => None
      end
    | _ => None
    end
  end.

Definition isContinuation (b : N) : bool := (0x80 <=? b) && (b <=? 0xBF).

(** The code point of a well-formed UTF-8 sequence: continuation octets in
    80..BF, no overlong form, no surrogate, nothing above U+10FFFF. *)
Definition utf8Decode (octets : list N) : option N :=
  match octets with
  | [b0; b1] =>
    let v := (b0 mod 32) * 64 + b1 mod 64 in
    if isContinuation b1 && (0x80 <=? v) then Some v else None
  | [b0; b1; b2] =>
    let v := (b0 mod 16) * 4096 + (b1 mod 64) * 64 + b2 mod 64 in
    if isContinuation b1 && isContinuation b2 && (0x800 <=? v)
       && negb ((0xD800 <=? v) && (v <=? 0xDFFF))
    then Some v else None
  | [b0; b1; b2; b3] =>
    let v := (b0 mod 8) * 262144 + (b1 mod 64) * 4096 + (b2 mod 64) * 64 + b3 mod 64 in
    if isContinuation b1 && isContinuation b2 && isContinuation b3
       && (0x10000 <=? v) && (v <=? 0x10FFFF)
    then Some v else None
  | _ => None
  end.

(** UTF16EncodeCodePoint *)
Definition utf16 (cp : N) : jsstring :=
  if cp <=? 0xFFFF then [cp]
  else [(cp - 0x10000) / 0x400 + 0xD800; (cp - 0x10000) mod 0x400 + 0xDC00].

(** Every round of the loop consumes at least one code unit, so the length
    of the input bounds the number of rounds. [None] is a URIError. *)
Fixpoint Decode (fuel : nat) (s : jsstring) : option jsstring :=
  match fuel with
  | O => None
  | S fuel' =>
    match s with
    | [] => Some []
    | c :: rest =>
      if c =? 37 then
        match parseHexOctet rest with
        | None => None
        | Some (b, rest1) =>
          match leadingOnes b with
          | O => option_map (cons b) (Decode fuel' rest1)
          | S n =>
            if (Nat.eqb n 0) || (Nat.ltb 3 n) then None
            else
              match continuation n rest1 with
              | None => None
              | Some (bs, rest2) =>
                match utf8Decode (b :: bs) with
                | None => None
                | Some v => option_map (app (utf16 v)) (Decode fuel' rest2)
                end
              end
          end
        end
      else option_map (cons c) (Decode fuel' rest)
    end
  end.

Definition decodeURIComponent (s : jsstring) : option jsstring :=
  Decode (S (length s)) s.

End URI.

(** ** Session key names (both source files) *)

(** [encodeSessionKey]: [None] when [encodeURIComponent] throws. *)
Definition encodeSessionKey (raw : jsstring) : option jsstring :=
  URI.encodeURIComponent raw.

(** [decodeSessionKey]: the try/catch returns the argument itself when
    [decodeURIComponent] throws. *)
Definition decodeSessionKey (encoded : jsstring) : jsstring :=
  match URI.decodeURIComponent encoded with
  | Some s => s
  | None => encoded
  end.

(** ** More of the ECMAScript library *)

Module JS.

Local Open Scope N_scope.

(** WhiteSpace and LineTerminator code points: what [trim] strips and what
    the class escape [\s] matches. *)
Definition isWhiteSpace (c : N) : bool :=
  existsb (N.eqb c)
    [9; 10; 11; 12; 13; 32; 160; 0x1680; 0x2028; 0x2029; 0x202F; 0x205F; 0x3000; 0xFEFF]
  || ((0x2000 <=? c) && (c <=? 0x200A)).

Definition isLineTerminator (c : N) : bool :=
  existsb (N.eqb c) [10; 13; 0x2028; 0x2029].

Fixpoint trimStart (s : jsstring) : jsstring :=
  match s with
  | c :: rest => if isWhiteSpace c then trimStart rest else s
  | [] => []
  end.

Definition trimEnd (s : jsstring) : jsstring := rev (trimStart (rev s)).

(** String.prototype.trim *)
Definition trim (s : jsstring) : jsstring := trimEnd (trimStart s).

(** The first code unit, if any, is no white space. *)
Definition headFree (s : jsstring) : Prop :=
  match s with
  | c :: _ => isWhiteSpace c = false
  | [] => True
  end.

(** No white space at either end. *)
Definition trimmed (s : jsstring) : Prop := headFree s /\ headFree (rev s).

(** String.prototype.startsWith *)
Fixpoint startsWith (s prefix : jsstring) : bool :=
  match prefix, s with
  | [], _ => true
  | p :: prefix', c :: s' => (c =? p) && startsWith s' prefix'
  | _ :: _, [] => false
  end.

(** [s.split(/\r?\n/)]: the separator is matched at the leftmost position
    where it fits, a carriage return belongs to it only directly before the
    line feed. [cur] is the current piece, reversed. *)
Fixpoint splitLines (cur s : jsstring) : list jsstring :=
  match s with
  | [] => [rev cur]
  | c :: rest =>
    if c =? 10 then rev cur :: splitLines [] rest
    else
      match rest with
      | d :: rest' =>
        if (c =? 13) && (d =? 10) then rev cur :: splitLines [] rest'
        else splitLines (c :: cur) rest
      | [] => splitLines (c :: cur) rest
      end
  end.

(** *** Regular expressions

    The patterns of the sources are sequences of single characters and of
    character classes under [*] or [+], some of them captured, with [^] and
    [$].  As in ECMA-262 a pattern is run as a backtracking matcher in
    continuation-passing style: a greedy quantifier takes as many
    characters as it can and gives them back one by one while the rest of
    the pattern fails. *)

Inductive quantifier := One | Star | Plus.

Inductive atom :=
| Cls (q : quantifier) (capture : bool) (cls : N -> bool)
| EndOfInput.

Record regexp := { anchored : bool; atoms : list atom }.

(** [taken] holds the characters taken so far, last one first. *)
Fixpoint greedy (R : Type) (cls : N -> bool) (k : jsstring -> jsstring -> option R)
    (taken s : jsstring) : option R :=
  match s with
  | c :: rest =>
    if cls c then
      match greedy cls k (c :: taken) rest with
      | Some r => Some r
      | None => k (rev taken) s
      end
    else k (rev taken) s
  | [] => k (rev taken) []
  end.

Definition pushCapture (capture : bool) (text : jsstring) (caps : list jsstring) :=
  if capture then text :: caps else caps.

(** The captures of a match that starts at the head of [s], first group
    first. *)
Fixpoint matchAtoms (p : list atom) (s : jsstring) (caps : list jsstring)
    : option (list jsstring) :=
  match p with
  | [] => Some (rev caps)
  | EndOfInput :: p' =>
    match s with
    | [] => matchAtoms p' s caps
    | _ :: _ => None
    end
  | Cls One capture cls :: p' =>
    match s with
    | c :: rest =>
      if cls c then matchAtoms p' rest (pushCapture capture [c] caps) else None
    | [] => None
    end
  | Cls Star capture cls :: p' =>
    greedy cls (fun taken rest => matchAtoms p' rest (pushCapture capture taken caps)) [] s
  | Cls Plus capture cls :: p' =>
    match s with
    | c :: rest =>
      if cls c
      then greedy cls (fun taken rest' => matchAtoms p' rest' (pushCapture capture taken caps))
             [c] rest
      else None
    | [] => None
    end
  end.

(** An unanchored pattern is tried at every position, from the left. *)
Fixpoint search (p : list atom) (s : jsstring) : option (list jsstring) :=
  match matchAtoms p s [] with
  | Some caps => Some caps
  | None =>
    match s with
    | [] => None
    | _ :: rest => search p rest
    end
  end.

(** [s.match(re)] for a pattern without the [g] flag: the captured groups,
    or [None] for [null]. *)
Definition regexMatch (re : regexp) (s : jsstring) : option (list jsstring) :=
  if anchored re then matchAtoms (atoms re) s [] else search (atoms re) s.

(** [re.test(s)] *)
Definition regexTest (re : regexp) (s : jsstring) : bool :=
  match regexMatch re s with Some _ => true | None => false end.

Definition chr (c : N) : atom := Cls One false (N.eqb c).

Definition lit (s : string) : list atom := map chr (js s).

Definition isWord (c : N) : bool := URI.isAlpha c || URI.isDigit c || (c =? 95).

Definition isUpperWord (c : N) : bool :=
  ((65 <=? c) && (c <=? 90)) || URI.isDigit c || (c =? 95).

(** Where a quantified class stops: at the end, or before a character
    outside the class. *)
Definition stops (cls : N -> bool) (rest : jsstring) : Prop :=
  match rest with
  | [] => True
  | c :: _ => cls c = false
  end.

(** A pattern that cannot start with a character of the class. *)
Definition rejects (p : list atom) (cls : N -> bool) : Prop :=
  forall c s caps, cls c = true -> matchAtoms p (c :: s) caps = None.

(** [.] matches everything but a line terminator. *)
Definition isDot (c : N) : bool := negb (isLineTerminator c).

(** *** Numbers

    A Number is NaN, an infinity, or a finite double, kept here as the
    rational it denotes; the sign of zero is not tracked (the sources only
    compare, test for integrality and print). *)

Inductive number :=
| NaN
| Infinity (negative : bool)
| Finite (q : Q).

Definition ofZ (z : Z) : number := Finite (inject_Z z).

(** Number.isInteger *)
Definition isInteger (x : number) : bool :=
  match x with
  | Finite q => (Qnum q mod Z.pos (Qden q) =? 0)%Z
  | _ => false
  end.

(** [a <= b] *)
Definition lessEq (a b : number) : bool :=
  match a, b with
  | NaN, _ | _, NaN => false
  | Infinity true, _ => true
  | _, Infinity false => true
  | Infinity false, _ => false
  | _, Infinity true => false
  | Finite p, Finite q => Qle_bool p q
  end.

(** [a > b] *)
Definition greater (a b : number) : bool :=
  match a, b with
  | NaN, _ | _, NaN => false
  | Infinity false, Infinity false => false
  | Infinity false, _ => true
  | Infinity true, _ => false
  | Finite _, Infinity negative => negative
  | Finite p, Finite q => negb (Qle_bool p q)
  end.

(** The Number value for a mathematical integer: the nearest double, ties
    to the even significand, infinite from 2^1024 on. *)
Definition roundInteger (z : Z) : number :=
  let a := Z.abs z in
  if (a <? 2 ^ 53)%Z then ofZ z
  else
    let e := (Z.log2 a - 52)%Z in
    let m := Z.shiftr a e in
    let r := (a - Z.shiftl m e)%Z in
    let half := (2 ^ (e - 1))%Z in
    let m' := if (half <? r)%Z || ((r =? half)%Z && Z.odd m) then (m + 1)%Z else m in
    let v := Z.shiftl m' e in
    if (2 ^ 1024 <=? v)%Z then Infinity (z <? 0)%Z else ofZ (Z.sgn z * v).

(** The value of a digit in radices up to 36. *)
Definition digitValue (c : N) : option N :=
  if URI.isDigit c then Some (c - 48)
  else if (97 <=? c) && (c <=? 122) then Some (c - 87)
  else if (65 <=? c) && (c <=? 90) then Some (c - 55)
  else None.

(** The value of the longest prefix of [s] made of digits of radix [R];
    [acc] is [None] until a digit has been read. *)
Fixpoint radixDigits (R : N) (s : jsstring) (acc : option N) : option N :=
  match s with
  | c :: rest =>
    match digitValue c with
    | Some d =>
      if d <? R
      then radixDigits R rest (Some (match acc with Some a => a * R + d | None => d end))
      else acc
    | None => acc
    end
  | [] => acc
  end.

(** The number read so far, 0 before the first digit. *)
Definition stateValue (a : option N) : N := match a with Some x => x | None => 0 end.

(** [parseInt(string, radix)] for an explicit radix between 2 and 36, the
    way the sources call it: leading white space and a sign are skipped, a
    "0x" prefix too when the radix is 16, and what follows the last digit
    is ignored. *)
Definition parseInt (string : jsstring) (radix : N) : number :=
  let S := trimStart string in
  let '(negative, S1) :=
    match S with
    | c :: rest => if c =? 45 then (true, rest) else if c =? 43 then (false, rest) else (false, S)
    | [] => (false, S)
    end in
  let S2 :=
    if radix =? 16 then
      match S1 with
      | z :: x :: rest => if (z =? 48) && ((x =? 120) || (x =? 88)) then rest else S1
      | _ => S1
      end
    else S1 in
  match radixDigits radix S2 None with
  | None => NaN
  | Some n => roundInteger (if negative then - Z.of_N n else Z.of_N n)
  end.

(** The digits of [n] in radix [R], most significant first; digits above 9
    are lower-case letters. *)
Definition digitChar (d : N) : N := if d <? 10 then 48 + d else 87 + d.

Fixpoint digitsFrom (fuel : nat) (R n : N) (acc : jsstring) : jsstring :=
  match fuel with
  | O => acc
  | S fuel' =>
    let acc' := digitChar (n mod R) :: acc in
    if n <? R then acc' else digitsFrom fuel' R (n / R) acc'
  end.

Definition digits (R n : N) : jsstring := digitsFrom (S (N.to_nat (N.log2 n))) R n [].

Definition decimal (z : Z) : jsstring :=
  if (z <? 0)%Z then 45 :: digits 10 (Z.abs_N z) else digits 10 (Z.abs_N z).

(** What the engine is left to decide: [Number(string)] (StringToNumber
    with its rounding to a double), the digits Number::toString gives a
    Number that is no integer below 10^21, and the collation behind
    [localeCompare], of which the sign matters. *)
Record Engine := {
  Number : jsstring -> number;
  fractionToString : Q -> jsstring;
  localeCompare : jsstring -> jsstring -> Z
}.

(** Number::toString, radix 10. *)
Definition numberToString (E : Engine) (x : number) : jsstring :=
  match x with
  | NaN => js "NaN"
  | Infinity negative => if negative then js "-Infinity" else js "Infinity"
  | Finite q =>
    let z := (Qnum q / Z.pos (Qden q))%Z in
    if isInteger x && (Z.abs z <? 10 ^ 21)%Z then decimal z else fractionToString E q
  end.

(** *** Number(string)

    StringToNumber of ECMA-262: the text without the white space at its
    ends is read as a StringNumericLiteral, and the Number is the double
    nearest to its mathematical value, ties to the even significand.  For
    a literal of more than 20 significant digits ECMA-262 lets an engine
    round the value cut after the 20th digit instead; the exact value is
    rounded here, as V8 does. *)

Definition isEmptyText (s : jsstring) : bool :=
  match s with [] => true | _ :: _ => false end.

(** The longest prefix of decimal digits, and what follows it. *)
Fixpoint takeDigits (s : jsstring) : jsstring * jsstring :=
  match s with
  | c :: rest =>
    if URI.isDigit c then let (ds, r) := takeDigits rest in (c :: ds, r) else ([], s)
  | [] => ([], [])
  end.

(** The number a run of digits of radix [R] denotes. *)
Definition digitsValue (R : N) (ds : jsstring) : N := stateValue (radixDigits R ds None).

(** ExponentPart, or nothing: [e] or [E], a sign or none, digits; [None]
    when the text is neither. *)
Definition exponentPart (s : jsstring) : option Z :=
  match s with
  | [] => Some 0%Z
  | c :: rest =>
    if (c =? 101) || (c =? 69) then
      let '(negative, rest1) :=
        match rest with
        | d :: r => if d =? 45 then (true, r) else if d =? 43 then (false, r) else (false, rest)
        | [] => (false, rest)
        end in
      let (ds, tail) := takeDigits rest1 in
      match ds, tail with
      | _ :: _, [] =>
        Some (if negative then (- Z.of_N (digitsValue 10 ds))%Z else Z.of_N (digitsValue 10 ds))
      | _, _ => None
      end
    else None
  end.

(** StrUnsignedDecimalLiteral other than [Infinity]: digits with a point
    among them or none, at least one digit, and an exponent or none.  The
    value is the first component times ten to the second. *)
Definition unsignedDecimal (s : jsstring) : option (N * Z) :=
  let (int, r1) := takeDigits s in
  let '(frac, r2) :=
    match r1 with
    | c :: r => if c =? 46 then takeDigits r else ([], r1)
    | [] => ([], r1)
    end in
  match int ++ frac with
  | [] => None
  | _ :: _ =>
    match exponentPart r2 with
    | Some e => Some (digitsValue 10 (int ++ frac), (e - Z.of_nat (length frac))%Z)
    | None => None
    end
  end.

(** The Number value for the positive rational [n / d], with the sign
    given apart: the significand has 53 bits, fewer below 2^-1022, and the
    rest of the quotient decides the rounding. *)
Definition roundRatio (negative : bool) (n d : Z) : number :=
  if (n =? 0)%Z then ofZ 0
  else
    let L := (Z.log2 n - Z.log2 d)%Z in
    let above :=
      if (0 <=? L)%Z then (d * 2 ^ L <=? n)%Z else (d <=? n * 2 ^ (- L))%Z in
    let k := if above then L else (L - 1)%Z in
    let e := Z.max (k - 52) (-1074) in
    let num := if (e <? 0)%Z then (n * 2 ^ (- e))%Z else n in
    let den := if (e <? 0)%Z then d else (d * 2 ^ e)%Z in
    let m := (num / den)%Z in
    let r := (num mod den)%Z in
    let m' := if (den <? 2 * r)%Z || ((2 * r =? den)%Z && Z.odd m) then (m + 1)%Z else m in
    if (e <? 0)%Z
    then Finite ((if negative then - m' else m')%Z # Z.to_pos (2 ^ (- e)))
    else
      let v := (m' * 2 ^ e)%Z in
      if (2 ^ 1024 <=? v)%Z then Infinity negative
      else ofZ (if negative then - v else v).

(** The Number for [M] times ten to the [scale]. *)
Definition decimalValue (negative : bool) (M : N) (scale : Z) : number :=
  if (0 <=? scale)%Z
  then roundInteger ((if negative then - Z.of_N M else Z.of_N M) * 10 ^ scale)
  else roundRatio negative (Z.of_N M) (10 ^ (- scale)).

(** NonDecimalIntegerLiteral: [0x], [0o] or [0b] in either case, then
    digits of that radix and nothing else.  The outer [None] is a text that
    does not start so, the inner one a text that starts so and is
    malformed. *)
Definition nonDecimal (s : jsstring) : option (option N) :=
  match s with
  | z :: p :: rest =>
    if z =? 48 then
      let radix :=
        if (p =? 120) || (p =? 88) then Some 16
        else if (p =? 111) || (p =? 79) then Some 8
        else if (p =? 98) || (p =? 66) then Some 2
        else None in
      match radix with
      | Some R =>
        Some (if negb (isEmptyText rest)
                 && forallb (fun c => match digitValue c with
                                      | Some d => d <? R
                                      | None => false
                                      end) rest
              then Some (digitsValue R rest) else None)
      | None => None
      end
    else None
  | _ => None
  end.

Definition StringToNumber (s : jsstring) : number :=
  let t := trim s in
  match t with
  | [] => ofZ 0
  | c :: rest =>
    match nonDecimal t with
    | Some (Some n) => roundInteger (Z.of_N n)
    | Some None => NaN
    | None =>
      let '(negative, u) :=
        if c =? 45 then (true, rest) else if c =? 43 then (false, rest) else (false, t) in
      if jsstring_eqb u (js "Infinity") then Infinity negative
      else
        match unsignedDecimal u with
        | Some (M, scale) => decimalValue negative M scale
        | None => NaN
        end
    end
  end.

(** A text whose first character after the leading white space cannot
    start a numeric literal: no digit, sign or point, and not the I of
    Infinity. *)
Definition notNumeric (s : jsstring) : Prop :=
  match trimStart s with
  | c :: _ => URI.isDigit c = false /\ c <> 43 /\ c <> 45 /\ c <> 46 /\ c <> 73
  | [] => False
  end.

(** Array.prototype.sort with a comparator: a stable sort.  For a
    consistent comparator the sorted order is unique, and this insertion
    sort computes it. *)
Fixpoint insertSorted (A : Type) (cmp : A -> A -> Z) (x : A) (l : list A) : list A :=
  match l with
  | [] => [x]
  | y :: l' => if (cmp x y <=? 0)%Z then x :: l else y :: insertSorted cmp x l'
  end.

Definition sort (A : Type) (cmp : A -> A -> Z) (l : list A) : list A :=
  fold_right (insertSorted cmp) [] l.

End JS.

(** ** Programs over the calls to the outside *)

Inductive accessMode := X_OK | R_OK.

Inductive toastStyle := Success | Failure.

Record toast := { style : toastStyle; title : jsstring; message : option jsstring }.

(** What the callback of [child_process.exec] receives. *)
Record execResult := { error : option jsstring; stdout : jsstring }.

Record PuttySession := { id : jsstring; name : jsstring }.

(** A call and the type of its answer.  [Access] answers whether the
    promise of [fs.promises.access] is fulfilled.  [ExecFile] starts the
    process and returns at once; its completion callback (a failure toast)
    runs later and is outside the sequence modelled here.  [PopToRoot] and
    [CloseMainWindow] answer whether they threw; the sources ignore it. *)
Inductive call : Type -> Type :=
| Exec (command : jsstring) : call execResult
| Access (path : jsstring) (mode : accessMode) : call bool
| ExecFile (file : jsstring) (args : list jsstring) : call unit
| ShowToast (t : toast) : call unit
| PopToRoot : call bool
| CloseMainWindow : call bool
| SetSessions (update : list PuttySession -> list PuttySession) : call unit.

Inductive prog (A : Type) : Type :=
| Ret (a : A)
| Do (X : Type) (c : call X) (k : X -> prog A).

Arguments Ret {A} a.
Arguments Do {A X} c k.

Fixpoint bind (A B : Type) (p : prog A) (f : A -> prog B) : prog B :=
  match p with
  | Ret a => f a
  | Do c k => Do c (fun x => bind (k x) f)
  end.

Notation "x <- p ;; q" := (bind p (fun x => q))
  (at level 61, p at next level, right associativity).
Notation "p ;; q" := (bind p (fun _ => q))
  (at level 61, right associativity).

Definition perform (X : Type) (c : call X) : prog X := Do c (fun x => Ret x).

Inductive event :=
| Event (X : Type) (c : call X) (answer : X).

(** A settled promise. *)
Inductive outcome (A : Type) :=
| Fulfilled (a : A)
| Rejected (e : jsstring).

Arguments Fulfilled {A} a.
Arguments Rejected {A} e.

Record run_result (A World : Type) := {
  value : A;
  final : World;
  events : list event
}.

(** Running a program against a handler of the calls: the value, the last
    state of the outside, and the calls made with their answers, in
    order. *)
Fixpoint run (World A : Type) (handle : forall X, call X -> World -> X * World)
    (p : prog A) (w : World) : run_result A World :=
  match p with
  | Ret a => {| value := a; final := w; events := [] |}
  | Do c k =>
    let (x, w1) := handle _ c w in
    let r := run handle (k x) w1 in
    {| value := value r; final := final r; events := Event c x :: events r |}
  end.

Definition isExec (e : event) : bool :=
  match e with
  | Event c _ => match c with Exec _ => true | _ => false end
  end.

Definition isExecFile (e : event) : bool :=
  match e with
  | Event c _ => match c with ExecFile _ _ => true | _ => false end
  end.

Definition isAccess (e : event) : bool :=
  match e with
  | Event c _ => match c with Access _ _ => true | _ => false end
  end.

(** The processes started, in order: executable and arguments. *)
Fixpoint launches (tr : list event) : list (jsstring * list jsstring) :=
  match tr with
  | [] => []
  | Event c _ :: rest =>
    match c with
    | ExecFile file args => (file, args) :: launches rest
    | _ => launches rest
    end
  end.

(** An answer of [exec] that stands for none. *)
Definition noAnswer : execResult := {| error := None; stdout := [] |}.

(** A program that never calls [exec]. *)
Inductive shellFree (A : Type) : prog A -> Prop :=
| shellFree_Ret (a : A) : shellFree (Ret a)
| shellFree_Do (X : Type) (c : call X) (k : X -> prog A) :
    match c with Exec _ => False | _ => True end ->
    (forall x, shellFree (k x)) -> shellFree (Do c k).

(** ** The two source files *)

Import JS.

Record SessionValues := {
  HostName : jsstring;
  PortNumber : number;
  Protocol : jsstring;
  CloseOnExit : jsstring
}.

(** The members of the types [Protocol] and [CloseOnExit]; at run time
    both are plain strings. *)
Definition protocols : list jsstring :=
  [js "raw"; js "telnet"; js "rlogin"; js "ssh"; js "serial"].

Definition closeOnExits : list jsstring := [js "always"; js "never"; js "onexit"].

Definition quote : jsstring := [34%N].

Definition backslash : jsstring := [92%N].

Definition sessionsRoot : jsstring := js "HKCU\Software\SimonTatham\PuTTY\Sessions".

(** The message of the URIError of [encodeURIComponent]. *)
Definition uriError : jsstring := js "URI malformed".

Definition sessionKeyPath (key : jsstring) : jsstring := sessionsRoot ++ backslash ++ key.

(** The commands of [writeRegistryValues]. *)
Definition createKeyCommand (baseKey : jsstring) : jsstring :=
  js "reg add " ++ quote ++ baseKey ++ quote ++ js " /f".

Definition valueCommands (E : Engine) (baseKey : jsstring) (values : SessionValues)
    : list jsstring :=
  [ js "reg add " ++ quote ++ baseKey ++ quote ++ js " /v HostName /t REG_SZ /d "
      ++ quote ++ HostName values ++ quote ++ js " /f";
    js "reg add " ++ quote ++ baseKey ++ quote ++ js " /v PortNumber /t REG_DWORD /d "
      ++ numberToString E (PortNumber values) ++ js " /f";
    js "reg add " ++ quote ++ baseKey ++ quote ++ js " /v Protocol /t REG_SZ /d "
      ++ Protocol values ++ js " /f";
    js "reg add " ++ quote ++ baseKey ++ quote ++ js " /v CloseOnExit /t REG_SZ /d "
      ++ CloseOnExit values ++ js " /f" ].

(** [runNext]: the commands from [index] on, one after the other, until one
    fails. *)
Fixpoint runNext (commands : list jsstring) : prog (outcome unit) :=
  match commands with
  | [] => Ret (Fulfilled tt)
  | cmd :: rest =>
    Do (Exec cmd) (fun r =>
      match error r with
      | Some err2 => Ret (Rejected err2)
      | None => runNext rest
      end)
  end.

(** [writeRegistryValues] (the same text in both files).  An exception in
    the executor of the promise rejects it. *)
Definition writeRegistryValues (E : Engine) (sessionName : jsstring) (values : SessionValues)
    : prog (outcome unit) :=
  match encodeSessionKey sessionName with
  | None => Ret (Rejected uriError)
  | Some key =>
    let baseKey := sessionKeyPath key in
    Do (Exec (createKeyCommand baseKey)) (fun r =>
      match error r with
      | Some err => Ret (Rejected err)
      | None => runNext (valueCommands E baseKey values)
      end)
  end.

(** [fileExists] (both files) *)
Definition fileExists (path : jsstring) : prog bool :=
  Do (Access path X_OK) (fun ok =>
    if ok then Ret true
    else Do (Access path R_OK) (fun ok' => Ret ok')).

Definition showToast (s : toastStyle) (t : jsstring) (m : option jsstring) : prog unit :=
  perform (ShowToast {| style := s; title := t; message := m |}).

(** [!Number.isInteger(portNum) || portNum <= 0 || portNum > 65535] *)
Definition invalidPort (portNum : number) : bool :=
  negb (isInteger portNum) || lessEq portNum (ofZ 0) || greater portNum (ofZ 65535).

(** [!values.host] *)
Definition isEmpty (s : jsstring) : bool :=
  match s with [] => true | _ :: _ => false end.

Definition pathNotFound (puttyPath : jsstring) : prog unit :=
  showToast Failure (js "PuTTY path not found") (Some puttyPath).

(** The form is dismissed; both calls sit in a try with an empty catch. *)
Definition dismiss : prog unit :=
  perform PopToRoot ;; perform CloseMainWindow ;; Ret tt.

Definition checked (path : jsstring) (mode : accessMode) (ok : bool) : event :=
  Event (Access path mode) ok.

Definition started (path : jsstring) (args : list jsstring) : event :=
  Event (ExecFile path args) tt.

Definition pathNotFoundShown (path : jsstring) : event :=
  Event (ShowToast {| style := Failure; title := js "PuTTY path not found";
                      message := Some path |}) tt.

(** Neither a check of a path nor the start of a process. *)
Definition quiet (tr : list event) : Prop :=
  existsb isAccess tr = false /\ existsb isExecFile tr = false.

(** What a run does about the executable: nothing at all; or the check
    succeeds (at once, or on readability) and the process is started right
    after it; or both checks fail and the toast follows.  Before and after,
    no path is checked and no process is started. *)
Definition guardedLaunch (puttyPath : jsstring) (tr : list event) : Prop :=
  exists pre post,
    quiet pre /\ quiet post /\
    (tr = pre
     \/ (exists args,
           tr = pre ++ [checked puttyPath X_OK true; started puttyPath args] ++ post)
     \/ (exists args,
           tr = pre ++ [checked puttyPath X_OK false; checked puttyPath R_OK true;
                        started puttyPath args] ++ post)
     \/ tr = pre ++ [checked puttyPath X_OK false; checked puttyPath R_OK false;
                     pathNotFoundShown puttyPath] ++ post).

(** A host that survives the command line and the query output: not
    empty, no white space at its ends, no double quote, no line
    terminator. *)
Definition plainHost (host : jsstring) : Prop :=
  host <> [] /\ trimmed host
  /\ Forall (fun c => c <> 34%N /\ isLineTerminator c = false) host.

(** A host that reaches [reg.exe] as it is written, and comes back from
    [reg query] as it was stored: printable ASCII, spaces allowed inside,
    not empty, no white space at its ends, no double quote, no percent
    sign, no backslash at its end. *)
Definition literalHost (host : jsstring) : Prop :=
  host <> [] /\ trimmed host
  /\ Forall (fun c => (32 <= c <= 126)%N /\ c <> 34%N /\ c <> 37%N) host
  /\ last host 0%N <> 92%N.

Module AddConnection.

Record FormValues := {
  host : jsstring;
  port : jsstring;
  protocol : jsstring;
  closeOnExit : jsstring;
  save : bool;
  savedName : option jsstring
}.

(** [(values.save ? (values.savedName?.trim() || values.host.trim()) : "").trim()] *)
Definition sessionNameOf (values : FormValues) : jsstring :=
  trim
    (if save values then
       match savedName values with
       | Some n => if isEmpty (trim n) then trim (host values) else trim n
       | None => trim (host values)
       end
     else []).

(** [handleSubmit] of add-connection.tsx *)
Definition handleSubmit (E : Engine) (puttyPath : jsstring) (values : FormValues)
    : prog unit :=
  let portNum := Number E (port values) in
  if isEmpty (host values) then showToast Failure (js "Host is required") None
  else if invalidPort portNum then showToast Failure (js "Invalid port") None
  else
    let sessionName := sessionNameOf values in
    if save values then
      r <- writeRegistryValues E sessionName
             {| HostName := host values; PortNumber := portNum;
                Protocol := protocol values; CloseOnExit := closeOnExit values |} ;;
      match r with
      | Rejected e => showToast Failure (js "Failed to save session") (Some e)
      | Fulfilled _ =>
        showToast Success (js "Session saved") (Some sessionName) ;;
        exists_ <- fileExists puttyPath ;;
        if negb exists_ then pathNotFound puttyPath
        else
          perform (ExecFile puttyPath [js "-load"; sessionName]) ;;
          dismiss
      end
    else Ret tt.

End AddConnection.

Module SearchConnections.

(** The pattern of a value line of [reg query]:
    [/^\s*([A-Za-z0-9_]+)\s+REG_[A-Z0-9_]+\s+(.+)$/] *)
Definition valueLine : regexp :=
  {| anchored := true;
     atoms :=
       [Cls Star false isWhiteSpace; Cls Plus true isWord; Cls Plus false isWhiteSpace]
       ++ lit "REG_"
       ++ [Cls Plus false isUpperWord; Cls Plus false isWhiteSpace; Cls Plus true isDot;
           EndOfInput] |}.

(** [/Sessions\\(.+)$/] *)
Definition sessionLine : regexp :=
  {| anchored := false;
     atoms := lit "Sessions" ++ [chr 92%N; Cls Plus true isDot; EndOfInput] |}.

(** [/^0x/i] *)
Definition hexPrefix : regexp :=
  {| anchored := true;
     atoms := [chr 48%N; Cls One false (fun c => (c =? 120)%N || (c =? 88)%N)] |}.

(** One round of the loop of [listPuttySessions]. *)
Definition sessionOfLine (line : jsstring) : list PuttySession :=
  if startsWith line (js "HKEY_") then
    match regexMatch sessionLine line with
    | Some (id_ :: _) =>
      if isEmpty id_ then [] else [{| id := id_; name := decodeSessionKey id_ |}]
    | _ => []
    end
  else [].

Definition parseSessions (out : jsstring) : list PuttySession :=
  flat_map sessionOfLine (map trim (splitLines [] out)).

Definition byName (E : Engine) (a b : PuttySession) : Z :=
  localeCompare E (name a) (name b).

(** The entry of a key below [Sessions]. *)
Definition entryOf (key : jsstring) : PuttySession :=
  {| id := key; name := decodeSessionKey key |}.

(** [listPuttySessions] (the same text in both files) *)
Definition listPuttySessions (E : Engine) : prog (list PuttySession) :=
  Do (Exec (js "reg query " ++ quote ++ sessionsRoot ++ quote)) (fun r =>
    match error r with
    | Some _ => Ret []
    | None => Ret (sort (byName E) (parseSessions (stdout r)))
    end).

Definition defaults : SessionValues :=
  {| HostName := []; PortNumber := ofZ 23; Protocol := js "raw"; CloseOnExit := js "onexit" |}.

(** The four assignments of the loop of [readSessionValues], for a line
    that gave the name [name_] and the value [value_]. *)
Definition assign (name_ value_ : jsstring) (acc : SessionValues) : SessionValues :=
  let acc1 :=
    if jsstring_eqb name_ (js "HostName")
    then {| HostName := value_; PortNumber := PortNumber acc;
            Protocol := Protocol acc; CloseOnExit := CloseOnExit acc |}
    else acc in
  let acc2 :=
    if jsstring_eqb name_ (js "PortNumber")
    then {| HostName := HostName acc1;
            PortNumber := if regexTest hexPrefix value_
                          then parseInt value_ 16 else parseInt value_ 10;
            Protocol := Protocol acc1; CloseOnExit := CloseOnExit acc1 |}
    else acc1 in
  let acc3 :=
    if jsstring_eqb name_ (js "Protocol")
    then {| HostName := HostName acc2; PortNumber := PortNumber acc2;
            Protocol := value_; CloseOnExit := CloseOnExit acc2 |}
    else acc2 in
  if jsstring_eqb name_ (js "CloseOnExit")
  then {| HostName := HostName acc3; PortNumber := PortNumber acc3;
          Protocol := Protocol acc3; CloseOnExit := value_ |}
  else acc3.

(** One round of the loop of [readSessionValues]. *)
Definition readLine (acc : SessionValues) (line : jsstring) : SessionValues :=
  match regexMatch valueLine line with
  | Some [name_; m2] => assign name_ (trim m2) acc
  | _ => acc
  end.

Definition parseValues (out : jsstring) : SessionValues :=
  fold_left readLine (splitLines [] out) defaults.

(** [readSessionValues] *)
Definition readSessionValues (sessionName : jsstring) : prog (outcome SessionValues) :=
  match encodeSessionKey sessionName with
  | None => Ret (Rejected uriError)
  | Some key =>
    Do (Exec (js "reg query " ++ quote ++ sessionKeyPath key ++ quote)) (fun r =>
      match error r with
      | Some _ => Ret (Fulfilled defaults)
      | None => Ret (Fulfilled (parseValues (stdout r)))
      end)
  end.

Record FormValues := {
  host : jsstring;
  port : jsstring;
  protocol : jsstring;
  closeOnExit : jsstring
}.

Module EditConnectionForm.

(** [handleSubmit] of the edit form; [onUpdated] is a no-op at its only
    use. *)
Definition handleSubmit (E : Engine) (sessionName puttyPath : jsstring) (values : FormValues)
    : prog unit :=
  let portNum := Number E (port values) in
  if isEmpty (host values) then showToast Failure (js "Host is required") None
  else if invalidPort portNum then showToast Failure (js "Invalid port") None
  else
    r <- writeRegistryValues E sessionName
           {| HostName := host values; PortNumber := portNum;
              Protocol := protocol values; CloseOnExit := closeOnExit values |} ;;
    match r with
    | Rejected e => showToast Failure (js "Failed to update session") (Some e)
    | Fulfilled _ =>
      showToast Success (js "Session updated") (Some sessionName) ;;
      exists_ <- fileExists puttyPath ;;
      (if negb exists_ then pathNotFound puttyPath
       else perform (ExecFile puttyPath [js "-load"; sessionName])) ;;
      dismiss
    end.

End EditConnectionForm.

Module TempEditForm.

Definition protocolToFlag (p : jsstring) : jsstring :=
  if jsstring_eqb p (js "ssh") then js "-ssh"
  else if jsstring_eqb p (js "telnet") then js "-telnet"
  else if jsstring_eqb p (js "rlogin") then js "-rlogin"
  else if jsstring_eqb p (js "serial") then js "-serial"
  else js "-raw".

(** [handleSubmit] of the temporary form *)
Definition handleSubmit (E : Engine) (puttyPath : jsstring) (values : FormValues)
    : prog unit :=
  let portNum := Number E (port values) in
  if isEmpty (host values) then showToast Failure (js "Host is required") None
  else if invalidPort portNum then showToast Failure (js "Invalid port") None
  else
    exists_ <- fileExists puttyPath ;;
    if negb exists_ then pathNotFound puttyPath
    else
      let args := [protocolToFlag (protocol values); js "-P";
                   numberToString E portNum; host values] in
      perform (ExecFile puttyPath args) ;;
      dismiss.

End TempEditForm.

(** [launchSession] (the same text in both files) *)
Definition launchSession (puttyPath sessionName : jsstring) : prog unit :=
  exists_ <- fileExists puttyPath ;;
  if negb exists_ then pathNotFound puttyPath
  else perform (ExecFile puttyPath [js "-load"; sessionName]).

(** [deleteSession]; the promise is fulfilled on both branches. *)
Definition deleteSession (sessionName : jsstring) : prog (outcome unit) :=
  match encodeSessionKey sessionName with
  | None => Ret (Rejected uriError)
  | Some key =>
    Do (Exec (js "reg delete " ++ quote ++ sessionKeyPath key ++ quote ++ js " /f")) (fun r =>
      match error r with
      | Some _ =>
        showToast Failure (js "Failed to delete session") (Some sessionName) ;;
        Ret (Fulfilled tt)
      | None =>
        showToast Success (js "Deleted") (Some sessionName) ;;
        perform (SetSessions
          (filter (fun s => negb (jsstring_eqb (name s) sessionName)))) ;;
        Ret (Fulfilled tt)
      end)
  end.

(** The effect [Command] runs when it is shown (the same text in both
    files).  [mounted] is the value of the variable of that name when the
    list has arrived: [false] once the clean-up of the effect has run.
    The result is [isLoading] as the effect leaves it. *)
Definition loadSessions (E : Engine) (puttyPath : jsstring) (mounted : bool) : prog bool :=
  exists_ <- fileExists puttyPath ;;
  (if negb exists_ then pathNotFound puttyPath else Ret tt) ;;
  list <- listPuttySessions E ;;
  if mounted then perform (SetSessions (fun _ => list)) ;; Ret false
  else Ret true.

End SearchConnections.

(** ** A model of the outside

    The registry below the PuTTY [Sessions] key as [reg.exe] shows it, the
    two permission bits [fs.access] asks for, and what the user interface
    has been told.  None of this is code of the repository: it is the
    environment the properties about written and listed sessions are
    stated against.  Key and value names are compared as they are written;
    a key holds [REG_SZ] and [REG_DWORD] values, as PuTTY's do.  A quoted
    argument of a command is the text between its quotes: what is proved of
    the values written is stated for texts that [cmd.exe] and [reg.exe]
    take so too ([literalHost]). *)

Module Win.

Import JS.
Local Open Scope N_scope.

Inductive regData :=
| REG_SZ (s : jsstring)
| REG_DWORD (n : N).

(** The values of a key, in the order of enumeration. *)
Definition regValues := list (jsstring * regData).

(** The keys below [Sessions], by the last component of their path. *)
Definition registry := list (jsstring * regValues).

Record World := {
  hive : registry;
  executable : jsstring -> bool;
  readable : jsstring -> bool;
  toasts : list toast;
  launched : list (jsstring * list jsstring);
  sessions : list PuttySession
}.

(** The command line as [reg.exe] receives it: arguments are separated by
    spaces, a double quote opens or closes a span in which spaces do not
    separate, and the quotes are dropped.  [cur] is the argument being
    read, reversed; [started] tells an empty quoted argument from none. *)
Fixpoint tokenize (inQuote : bool) (cur : jsstring) (started : bool) (s : jsstring)
    : list jsstring :=
  match s with
  | [] => if started then [rev cur] else []
  | c :: rest =>
    if c =? 34 then tokenize (negb inQuote) cur true rest
    else if (c =? 32) && negb inQuote
    then (if started then [rev cur] else []) ++ tokenize false [] false rest
    else tokenize inQuote (c :: cur) true rest
  end.

Definition argv (command : jsstring) : list jsstring := tokenize false [] false command.

(** Text that may stand between double quotes. *)
Definition noQuote (s : jsstring) : Prop := Forall (fun c => c <> 34) s.

(** Text that is one argument without quotes around it. *)
Definition bare (s : jsstring) : Prop :=
  s <> [] /\ Forall (fun c => c <> 34 /\ c <> 32) s.

Fixpoint stripPrefix (prefix s : jsstring) : option jsstring :=
  match prefix, s with
  | [], _ => Some s
  | p :: prefix', c :: s' => if c =? p then stripPrefix prefix' s' else None
  | _ :: _, [] => None
  end.

(** The name of a key directly below [Sessions]: not empty, no
    backslash. *)
Definition keyOf (path : jsstring) : option jsstring :=
  match stripPrefix (sessionsRoot ++ backslash) path with
  | Some key => if isEmpty key || existsb (N.eqb 92) key then None else Some key
  | None => None
  end.

(** The data of [/d] for a [REG_DWORD]: decimal digits and nothing else,
    for a number below 2^32. *)
Definition parseDword (d : jsstring) : option N :=
  if forallb URI.isDigit d then
    match radixDigits 10 d None with
    | Some n => if n <? 2 ^ 32 then Some n else None
    | None => None
    end
  else None.

Definition dataOf (type data : jsstring) : option regData :=
  if jsstring_eqb type (js "REG_SZ") then Some (REG_SZ data)
  else if jsstring_eqb type (js "REG_DWORD") then option_map REG_DWORD (parseDword data)
  else None.

Inductive regCommand :=
| AddKey (key : jsstring)
| SetValue (key name : jsstring) (data : regData)
| QueryRoot
| QueryKey (key : jsstring)
| DeleteKey (key : jsstring).

(** The four command lines the sources build, and no other. *)
Definition parseCommand (args : list jsstring) : option regCommand :=
  match args with
  | [a0; a1; path] =>
    if jsstring_eqb a0 (js "reg") && jsstring_eqb a1 (js "query") then
      if jsstring_eqb path sessionsRoot then Some QueryRoot
      else option_map QueryKey (keyOf path)
    else None
  | [a0; a1; path; a3] =>
    if jsstring_eqb a0 (js "reg") && jsstring_eqb a3 (js "/f") then
      if jsstring_eqb a1 (js "add") then option_map AddKey (keyOf path)
      else if jsstring_eqb a1 (js "delete") then option_map DeleteKey (keyOf path)
      else None
    else None
  | [a0; a1; path; a3; name_; a5; type; a7; data; a9] =>
    if jsstring_eqb a0 (js "reg") && jsstring_eqb a1 (js "add")
       && jsstring_eqb a3 (js "/v") && jsstring_eqb a5 (js "/t")
       && jsstring_eqb a7 (js "/d") && jsstring_eqb a9 (js "/f")
    then
      match keyOf path, dataOf type data with
      | Some key, Some d => Some (SetValue key name_ d)
      | _, _ => None
      end
    else None
  | _ => None
  end.

Fixpoint lookup (A : Type) (k : jsstring) (l : list (jsstring * A)) : option A :=
  match l with
  | [] => None
  | (k', a) :: rest => if jsstring_eqb k k' then Some a else lookup k rest
  end.

(** A present entry is replaced where it stands, a new one goes last. *)
Fixpoint upsert (A : Type) (k : jsstring) (a : A) (l : list (jsstring * A))
    : list (jsstring * A) :=
  match l with
  | [] => [(k, a)]
  | (k', a') :: rest =>
    if jsstring_eqb k k' then (k', a) :: rest else (k', a') :: upsert k a rest
  end.

Definition remove (A : Type) (k : jsstring) (l : list (jsstring * A))
    : list (jsstring * A) :=
  filter (fun e => negb (jsstring_eqb k (fst e))) l.

Definition crlf : jsstring := [13; 10].

Definition indent : jsstring := js "    ".

Definition hkcuSessions : jsstring :=
  js "HKEY_CURRENT_USER\Software\SimonTatham\PuTTY\Sessions".

(** The data of a value as [reg query] prints it: a string as it is, a
    number in hexadecimal. *)
Definition dataText (d : regData) : jsstring :=
  match d with
  | REG_SZ s => s
  | REG_DWORD n => js "0x" ++ digits 16 n
  end.

Definition typeName (d : regData) : jsstring :=
  match d with
  | REG_SZ _ => js "REG_SZ"
  | REG_DWORD _ => js "REG_DWORD"
  end.

Definition printData (d : regData) : jsstring := typeName d ++ indent ++ dataText d.

Definition printValue (v : jsstring * regData) : jsstring :=
  indent ++ fst v ++ indent ++ printData (snd v) ++ crlf.

(** The output of [reg query] for a session key: a blank line, the full
    path of the key, one line per value, a blank line. *)
Definition printKey (key : jsstring) (values : regValues) : jsstring :=
  crlf ++ hkcuSessions ++ backslash ++ key ++ crlf ++ flat_map printValue values ++ crlf.

(** The output for [Sessions] itself, which holds no value: a blank line,
    then the full path of each key below it. *)
Definition printRoot (r : registry) : jsstring :=
  crlf ++ flat_map (fun e => hkcuSessions ++ backslash ++ fst e ++ crlf) r.

(** One value line, without its line break. *)
Definition valueLineOf (v : jsstring * regData) : jsstring :=
  indent ++ fst v ++ indent ++ printData (snd v).

(** A value name made of letters, digits and underscores, as PuTTY's
    are. *)
Definition plainName (n : jsstring) : Prop :=
  n <> [] /\ Forall (fun c => isWord c = true) n.

Definition noLineFeed (d : regData) : Prop :=
  match d with
  | REG_SZ s => Forall (fun c => c <> 10) s
  | REG_DWORD _ => True
  end.

(** The values of a key as PuTTY leaves them: distinct plain names, no
    line feed inside a string. *)
Definition tameValues (values : regValues) : Prop :=
  NoDup (map fst values)
  /\ Forall (fun v => plainName (fst v) /\ noLineFeed (snd v)) values.

(** A key name of printable ASCII characters without space or backslash,
    as PuTTY and [encodeURIComponent] write them. *)
Definition tameKey (key : jsstring) : Prop :=
  key <> [] /\ Forall (fun c => URI.printable c /\ c <> 92) key.

(** A key name that [reg query] shows on a line of its own and the list
    takes whole: printable ASCII, spaces allowed inside, not empty, no
    backslash, no space at its ends. *)
Definition listableKey (key : jsstring) : Prop :=
  key <> [] /\ Forall (fun c => 32 <= c <= 126 /\ c <> 92) key
  /\ headFree key /\ headFree (rev key).

(** The registry takes the names of keys without regard to letter case;
    the model compares them as they are written.  The two agree on a key
    when no key of the registry differs from it in letter case only. *)
Definition lowerCase (c : N) : N := if (65 <=? c) && (c <=? 90) then c + 32 else c.

Definition caseFree (key : jsstring) (r : registry) : Prop :=
  forall e, In e r -> map lowerCase (fst e) = map lowerCase key -> fst e = key.

Definition succeeded (out : jsstring) : execResult := {| error := None; stdout := out |}.

Definition failed : execResult := {| error := Some (js "Command failed"); stdout := [] |}.

Definition applyCommand (c : regCommand) (r : registry) : execResult * registry :=
  match c with
  | AddKey key =>
    (succeeded [], match lookup key r with Some _ => r | None => r ++ [(key, [])] end)
  | SetValue key name_ data =>
    (succeeded [],
     match lookup key r with
     | Some values => upsert key (upsert name_ data values) r
     | None => r ++ [(key, [(name_, data)])]
     end)
  | QueryRoot => (succeeded (printRoot r), r)
  | QueryKey key =>
    match lookup key r with
    | Some values => (succeeded (printKey key values), r)
    | None => (failed, r)
    end
  | DeleteKey key =>
    match lookup key r with
    | Some _ => (succeeded [], remove key r)
    | None => (failed, r)
    end
  end.

(** The registry after the commands [cs], in order. *)
Definition after (cs : list regCommand) (r : registry) : registry :=
  fold_left (fun r' c => snd (applyCommand c r')) cs r.

(** The values of a key after the four values of a session were set. *)
Definition storedValues (host : jsstring) (p : Z) (protocol closeOnExit : jsstring)
    (old : regValues) : regValues :=
  upsert (js "CloseOnExit") (REG_SZ closeOnExit)
    (upsert (js "Protocol") (REG_SZ protocol)
       (upsert (js "PortNumber") (REG_DWORD (Z.to_N p))
          (upsert (js "HostName") (REG_SZ host) old))).

(** The commands of a write, as [reg.exe] takes them. *)
Definition writeCommands (key host : jsstring) (p : Z) (protocol closeOnExit : jsstring)
    : list regCommand :=
  [AddKey key;
   SetValue key (js "HostName") (REG_SZ host);
   SetValue key (js "PortNumber") (REG_DWORD (Z.to_N p));
   SetValue key (js "Protocol") (REG_SZ protocol);
   SetValue key (js "CloseOnExit") (REG_SZ closeOnExit)].

(** The names of the four values of a session. *)
Definition sessionValueNames : list jsstring :=
  [js "HostName"; js "PortNumber"; js "Protocol"; js "CloseOnExit"].

(** [child_process.exec]: a command line [reg.exe] does not accept fails
    and changes nothing. *)
Definition exec (command : jsstring) (r : registry) : execResult * registry :=
  match parseCommand (argv command) with
  | Some c => applyCommand c r
  | None => (failed, r)
  end.

Definition setHive (w : World) (r : registry) : World :=
  {| hive := r; executable := executable w; readable := readable w;
     toasts := toasts w; launched := launched w; sessions := sessions w |}.

Definition handle (X : Type) (c : call X) (w : World) : X * World :=
  match c in call X return X * World with
  | Exec command => let (res, r) := exec command (hive w) in (res, setHive w r)
  | Access path X_OK => (executable w path, w)
  | Access path R_OK => (readable w path, w)
  | ExecFile file args =>
    (tt, {| hive := hive w; executable := executable w; readable := readable w;
            toasts := toasts w; launched := launched w ++ [(file, args)];
            sessions := sessions w |})
  | ShowToast t =>
    (tt, {| hive := hive w; executable := executable w; readable := readable w;
            toasts := toasts w ++ [t]; launched := launched w;
            sessions := sessions w |})
  | PopToRoot => (false, w)
  | CloseMainWindow => (false, w)
  | SetSessions update =>
    (tt, {| hive := hive w; executable := executable w; readable := readable w;
            toasts := toasts w; launched := launched w;
            sessions := update (sessions w) |})
  end.

Definition start (r : registry) : World :=
  {| hive := r; executable := fun _ => true; readable := fun _ => true;
     toasts := []; launched := []; sessions := [] |}.

End Win.

(** ** A stand-in engine for closed examples

    Its [Number] reads a plain run of decimal digits and nothing else, its
    collation is the order of the code units.  The statements below hold
    for every engine; this one only instantiates them. *)

Fixpoint compareUnits (a b : jsstring) : Z :=
  match a, b with
  | [], [] => 0
  | [], _ :: _ => -1
  | _ :: _, [] => 1
  | x :: a', y :: b' =>
    match N.compare x y with
    | Lt => -1
    | Gt => 1
    | Eq => compareUnits a' b'
    end
  end.

Definition plainEngine : JS.Engine :=
  {| JS.Number := fun s =>
       match Win.parseDword s with
       | Some n => JS.ofZ (Z.of_N n)
       | None => JS.NaN
       end;
     JS.fractionToString := fun _ => js "0.5";
     JS.localeCompare := compareUnits |}.

(** The same stand-in with [Number] as ECMA-262 defines it. *)
Definition numberEngine : JS.Engine :=
  {| JS.Number := JS.StringToNumber;
     JS.fractionToString := fun _ => js "0.5";
     JS.localeCompare := compareUnits |}.

(** * Properties *)

Ltac Zify.zify_post_hook ::= Z.to_euclidean_division_equations.

(** Decide the boolean comparisons of a goal by linear arithmetic. *)
Ltac ncase :=
  repeat match goal with
  | |- context [N.ltb ?a ?b] => destruct (N.ltb_spec a b); try lia
  | |- context [N.leb ?a ?b] => destruct (N.leb_spec a b); try lia
  | |- context [N.eqb ?a ?b] => destruct (N.eqb_spec a b); try lia
  end.

(** ** The models at work *)

Example encode_space_and_slash :
  encodeSessionKey (js "my box/1") = Some (js "my%20box%2F1").
Proof. reflexivity. Qed.

Example encode_euro_sign : encodeSessionKey [0x20AC%N] = Some (js "%E2%82%AC").
Proof. reflexivity. Qed.

Example decode_lower_case_escape : decodeSessionKey (js "a%2fb") = js "a/b".
Proof. reflexivity. Qed.

(** A malformed escape makes [decodeURIComponent] throw; the segment is
    returned as it is. *)
Example decode_malformed_is_raw : decodeSessionKey (js "100%") = js "100%".
Proof. reflexivity. Qed.

(** An overlong encoding is no valid UTF-8. *)
Example decode_overlong_is_raw : decodeSessionKey (js "%C0%AF") = js "%C0%AF".
Proof. reflexivity. Qed.

Example parseInt_hex_prefix : JS.parseInt (js "0x16") 16 = JS.ofZ 22.
Proof. reflexivity. Qed.

Example parseInt_stops_at_letter : JS.parseInt (js "22abc") 10 = JS.ofZ 22.
Proof. reflexivity. Qed.

Example parseInt_no_digit : JS.parseInt (js "abc") 10 = JS.NaN.
Proof. reflexivity. Qed.

(** 2^53 + 1 is no double: the nearest one is 2^53. *)
Example parseInt_rounds : JS.parseInt (js "9007199254740993") 10 = JS.ofZ 9007199254740992.
Proof. reflexivity. Qed.

Example value_line_captures :
  JS.regexMatch SearchConnections.valueLine (js "    HostName    REG_SZ    example.com")
  = Some [js "HostName"; js "example.com"].
Proof. reflexivity. Qed.

(** The greedy [\s+] gives a space back when nothing else is left for
    [(.+)]. *)
Example value_line_backtracks :
  JS.regexMatch SearchConnections.valueLine (js "  A REG_SZ  ") = Some [js "A"; js " "].
Proof. reflexivity. Qed.

Example key_line_is_no_value_line :
  JS.regexMatch SearchConnections.valueLine
    (js "HKEY_CURRENT_USER\Software\SimonTatham\PuTTY\Sessions\box") = None.
Proof. reflexivity. Qed.

Example command_line_arguments :
  Win.argv (js "reg add " ++ quote ++ js "HKCU\A B" ++ quote ++ js " /v HostName /f")
  = [js "reg"; js "add"; js "HKCU\A B"; js "/v"; js "HostName"; js "/f"].
Proof. reflexivity. Qed.

Example split_lines_example :
  JS.splitLines [] [97; 13; 10; 98; 10; 13; 99]%N = [[97]; [98]; [13; 99]]%N.
Proof. reflexivity. Qed.

Module URIFacts.

Import URI.
Local Open Scope N_scope.

Lemma hexValue_hexDigit d : d < 16 -> hexValue (hexDigit d) = Some d.
Proof.
  intros Hd. unfold hexValue, hexDigit, isDigit.
  destruct (N.ltb_spec d 10).
  - ncase; cbn [andb]. f_equal. lia.
  - ncase; cbn [andb orb]. f_equal. lia.
Qed.

Lemma parseHexOctet_percent b rest :
  b < 256 ->
  parseHexOctet (hexDigit (b / 16) :: hexDigit (b mod 16) :: rest) = Some (b, rest).
Proof.
  intros Hb. unfold parseHexOctet.
  rewrite !hexValue_hexDigit by lia.
  f_equal. f_equal. lia.
Qed.

Lemma Decode_percent f rest :
  Decode (S f) (37 :: rest) =
  match parseHexOctet rest with
  | None => None
  | Some (b, rest1) =>
    match leadingOnes b with
    | O => option_map (cons b) (Decode f rest1)
    | S n =>
      if (Nat.eqb n 0) || (Nat.ltb 3 n) then None
      else
        match continuation n rest1 with
        | None => None
        | Some (bs, rest2) =>
          match utf8Decode (b :: bs) with
          | None => None
          | Some v => option_map (app (utf16 v)) (Decode f rest2)
          end
        end
    end
  end.
Proof. reflexivity. Qed.

Lemma Decode_plain f c rest :
  c <> 37 -> Decode (S f) (c :: rest) = option_map (cons c) (Decode f rest).
Proof.
  intros Hc. cbn [Decode]. destruct (N.eqb_spec c 37); [contradiction | reflexivity].
Qed.

Lemma continuation_percent n b rest :
  b < 256 ->
  continuation (S n) (percent b ++ rest) =
  match continuation n rest with
  | Some (bs, s3) => Some (b :: bs, s3)
  | None => None
  end.
Proof.
  intros Hb. unfold percent. cbn [app continuation].
  rewrite parseHexOctet_percent by assumption. reflexivity.
Qed.

Lemma leadingOnes_0 b : b < 0x80 -> leadingOnes b = 0%nat.
Proof. intros; unfold leadingOnes; ncase; reflexivity. Qed.

Lemma leadingOnes_2 b : 0xC0 <= b < 0xE0 -> leadingOnes b = 2%nat.
Proof. intros; unfold leadingOnes; ncase; reflexivity. Qed.

Lemma leadingOnes_3 b : 0xE0 <= b < 0xF0 -> leadingOnes b = 3%nat.
Proof. intros; unfold leadingOnes; ncase; reflexivity. Qed.

Lemma leadingOnes_4 b : 0xF0 <= b < 0xF8 -> leadingOnes b = 4%nat.
Proof. intros; unfold leadingOnes; ncase; reflexivity. Qed.

Lemma utf8Decode_utf8 cp : scalar cp -> 0x80 <= cp -> utf8Decode (utf8 cp) = Some cp.
Proof.
  intros [Hmax Hsur] Hlo. unfold utf8.
  destruct (N.ltb_spec cp 0x80); [lia|].
  destruct (N.ltb_spec cp 0x800); [|destruct (N.ltb_spec cp 0x10000)].
  - unfold utf8Decode, isContinuation.
    assert (E : (0xC0 + cp / 64) mod 32 * 64 + (0x80 + cp mod 64) mod 64 = cp) by lia.
    rewrite E. ncase. reflexivity.
  - unfold utf8Decode, isContinuation.
    assert (E : (0xE0 + cp / 4096) mod 16 * 4096 + (0x80 + (cp / 64) mod 64) mod 64 * 64
                + (0x80 + cp mod 64) mod 64 = cp) by lia.
    rewrite E. ncase; reflexivity.
  - unfold utf8Decode, isContinuation.
    assert (E : (0xF0 + cp / 262144) mod 8 * 262144 + (0x80 + (cp / 4096) mod 64) mod 64 * 4096
                + (0x80 + (cp / 64) mod 64) mod 64 * 64 + (0x80 + cp mod 64) mod 64 = cp) by lia.
    rewrite E. ncase; reflexivity.
Qed.

Lemma Decode_escape f cp rest :
  scalar cp ->
  Decode (S f) (escape cp ++ rest) = option_map (app (utf16 cp)) (Decode f rest).
Proof.
  intros Hs. destruct (N.ltb_spec cp 0x80) as [Hlt|Hge].
  - unfold escape, utf8. destruct (N.ltb_spec cp 0x80); [|lia].
    cbn [flat_map percent app]. rewrite Decode_percent, parseHexOctet_percent by lia.
    rewrite leadingOnes_0 by assumption.
    unfold utf16. destruct (N.leb_spec cp 0xFFFF); [reflexivity|lia].
  - pose proof (utf8Decode_utf8 Hs Hge) as Hdec.
    destruct Hs as [Hmax Hsur].
    unfold escape, utf8 in *.
    destruct (N.ltb_spec cp 0x80); [lia|].
    destruct (N.ltb_spec cp 0x800); [|destruct (N.ltb_spec cp 0x10000)].
    + cbn [flat_map]. unfold percent at 1. cbn [app].
      rewrite Decode_percent, parseHexOctet_percent by lia.
      rewrite leadingOnes_2 by lia. cbn [Nat.eqb Nat.ltb Nat.leb orb].
      rewrite <- !app_assoc, continuation_percent by lia.
      cbn [continuation app]. rewrite Hdec. reflexivity.
    + cbn [flat_map]. unfold percent at 1. cbn [app].
      rewrite Decode_percent, parseHexOctet_percent by lia.
      rewrite leadingOnes_3 by lia. cbn [Nat.eqb Nat.ltb Nat.leb orb].
      rewrite <- !app_assoc, !continuation_percent by lia.
      cbn [continuation app]. rewrite Hdec. reflexivity.
    + cbn [flat_map]. unfold percent at 1. cbn [app].
      rewrite Decode_percent, parseHexOctet_percent by lia.
      rewrite leadingOnes_4 by lia. cbn [Nat.eqb Nat.ltb Nat.leb orb].
      rewrite <- !app_assoc, !continuation_percent by lia.
      cbn [continuation app]. rewrite Hdec. reflexivity.
Qed.

Lemma escape_length cp : (1 <= length (escape cp))%nat.
Proof.
  unfold escape, utf8.
  destruct (cp <? 0x80); [|destruct (cp <? 0x800); [|destruct (cp <? 0x10000)]];
    cbn; lia.
Qed.

Lemma utf16_pair c d :
  isLeadingSurrogate c = true -> isTrailingSurrogate d = true ->
  utf16 (pairToCodePoint c d) = [c; d].
Proof.
  unfold isLeadingSurrogate, isTrailingSurrogate, utf16, pairToCodePoint.
  intros Hc Hd.
  apply andb_true_iff in Hc as [Hc1 Hc2]. apply andb_true_iff in Hd as [Hd1 Hd2].
  apply N.leb_le in Hc1, Hc2, Hd1, Hd2.
  destruct (N.leb_spec ((c - 0xD800) * 0x400 + (d - 0xDC00) + 0x10000) 0xFFFF); [lia|].
  f_equal; [|f_equal]; lia.
Qed.

Lemma scalar_pair c d :
  isLeadingSurrogate c = true -> isTrailingSurrogate d = true ->
  scalar (pairToCodePoint c d).
Proof.
  unfold isLeadingSurrogate, isTrailingSurrogate, scalar, pairToCodePoint.
  intros Hc Hd.
  apply andb_true_iff in Hc as [Hc1 Hc2]. apply andb_true_iff in Hd as [Hd1 Hd2].
  apply N.leb_le in Hc1, Hc2, Hd1, Hd2. lia.
Qed.

Lemma scalar_unit c :
  codeUnit c -> isLeadingSurrogate c = false -> isTrailingSurrogate c = false ->
  scalar c /\ utf16 c = [c].
Proof.
  unfold codeUnit, isLeadingSurrogate, isTrailingSurrogate, scalar, utf16.
  intros Hc Hl Ht.
  apply andb_false_iff in Hl, Ht.
  rewrite !N.leb_gt in Hl, Ht.
  destruct (N.leb_spec c 0xFFFF); [|lia]. split; [lia | reflexivity].
Qed.

Lemma uriUnescaped_not_percent c : uriUnescaped c = true -> c <> 37.
Proof. intros H ->. discriminate H. Qed.

(** Decoding undoes encoding, whatever fuel beyond the length is given. *)
Lemma Decode_Encode n :
  forall s, (length s <= n)%nat -> wfString s ->
  forall e, Encode s = Some e ->
  forall f, (length e < f)%nat -> Decode f e = Some s.
Proof.
  induction n as [|n IH]; intros s Hlen Hwf e He f Hf.
  - destruct s; [|cbn in Hlen; lia]. cbn in He. injection He as <-.
    destruct f; [cbn in Hf; lia | reflexivity].
  - destruct s as [|c rest]; cbn [Encode] in He.
    { injection He as <-. destruct f; [cbn in Hf; lia | reflexivity]. }
    cbn [length] in Hlen. inversion Hwf as [|? ? Hc Hrest]; subst.
    destruct (uriUnescaped c) eqn:Hu.
    { destruct (Encode rest) as [e'|] eqn:He'; [|discriminate].
      cbn in He. injection He as <-.
      destruct f as [|f]; [cbn in Hf; lia|]. cbn [length] in Hf.
      rewrite Decode_plain by (apply uriUnescaped_not_percent; assumption).
      rewrite (IH rest) with (e := e') by (auto; lia). reflexivity. }
    destruct (isLeadingSurrogate c) eqn:Hl.
    { destruct rest as [|d rest']; [discriminate|].
      destruct (isTrailingSurrogate d) eqn:Ht; [|discriminate].
      destruct (Encode rest') as [e'|] eqn:He'; [|discriminate].
      cbn in He. injection He as <-.
      inversion Hrest as [|? ? Hd Hrest']; subst.
      destruct f as [|f]; [cbn in Hf; lia|].
      rewrite length_app in Hf. pose proof (escape_length (pairToCodePoint c d)).
      rewrite Decode_escape by (apply scalar_pair; assumption).
      rewrite (IH rest') with (e := e') by (auto; cbn [length] in Hlen; lia).
      cbn [option_map]. rewrite utf16_pair by assumption. reflexivity. }
    destruct (isTrailingSurrogate c) eqn:Ht; [discriminate|].
    destruct (Encode rest) as [e'|] eqn:He'; [|discriminate].
    cbn in He. injection He as <-.
    destruct (scalar_unit Hc Hl Ht) as [Hs Hut].
    destruct f as [|f]; [cbn in Hf; lia|].
    rewrite length_app in Hf. pose proof (escape_length c).
    rewrite Decode_escape by assumption.
    rewrite (IH rest) with (e := e') by (auto; lia).
    cbn [option_map]. rewrite Hut. reflexivity.
Qed.

Lemma parseHexOctet_length s b rest :
  parseHexOctet s = Some (b, rest) -> length s = S (S (length rest)).
Proof.
  unfold parseHexOctet. destruct s as [|h [|l t]]; try discriminate.
  destruct (hexValue h), (hexValue l); try discriminate.
  intros H. injection H as _ <-. reflexivity.
Qed.

Lemma continuation_length n : forall s bs rest,
  continuation n s = Some (bs, rest) -> (length rest <= length s)%nat.
Proof.
  induction n as [|n IH]; intros s bs rest H; cbn [continuation] in H.
  - injection H as _ <-. lia.
  - destruct s as [|c s1]; [discriminate|].
    destruct (N.eqb_spec c 37) as [->|Hc].
    + destruct (parseHexOctet s1) as [[b s2]|] eqn:Hp; [|discriminate].
      destruct (continuation n s2) as [[bs' s3]|] eqn:Hc; [|discriminate].
      injection H as _ <-. apply parseHexOctet_length in Hp. apply IH in Hc.
      cbn [length]. lia.
    + exfalso. destruct c as [|p]; [discriminate|].
      do 6 (destruct p as [p|p|]; try discriminate); contradiction Hc; reflexivity.
Qed.

(** The decoder does not depend on its fuel once the fuel exceeds the
    length of the input: the length bounds the rounds of its loop. *)
Lemma Decode_fuel n : forall s f1 f2,
  (length s <= n)%nat -> (length s < f1)%nat -> (length s < f2)%nat ->
  Decode f1 s = Decode f2 s.
Proof.
  induction n as [|n IH]; intros s f1 f2 Hn H1 H2.
  - destruct s; [|cbn in Hn; lia]. destruct f1, f2; try (cbn in *; lia). reflexivity.
  - destruct s as [|c rest]; [destruct f1, f2; try (cbn in *; lia); reflexivity|].
    destruct f1 as [|f1]; [cbn in H1; lia|]. destruct f2 as [|f2]; [cbn in H2; lia|].
    cbn [length] in *. cbn [Decode].
    destruct (c =? 37).
    + destruct (parseHexOctet rest) as [[b rest1]|] eqn:Hp; [|reflexivity].
      apply parseHexOctet_length in Hp.
      destruct (leadingOnes b) as [|k].
      * rewrite (IH rest1 f1 f2) by lia. reflexivity.
      * destruct ((Nat.eqb k 0) || (Nat.ltb 3 k)); [reflexivity|].
        destruct (continuation k rest1) as [[bs rest2]|] eqn:Hc; [|reflexivity].
        apply continuation_length in Hc.
        destruct (utf8Decode (b :: bs)); [|reflexivity].
        rewrite (IH rest2 f1 f2) by lia. reflexivity.
    + rewrite (IH rest f1 f2) by lia. reflexivity.
Qed.

Lemma uriUnescaped_ascii c : uriUnescaped c = true -> 33 <= c <= 126.
Proof.
  unfold uriUnescaped, isAlpha, isDigit, isMark. cbn [existsb].
  intros H. repeat (apply orb_true_iff in H; destruct H as [H|H]);
    try (apply andb_true_iff in H as [H1 H2]; apply N.leb_le in H1, H2; lia);
    try (apply N.eqb_eq in H; lia); discriminate.
Qed.

Lemma uriUnescaped_not_surrogate c :
  uriUnescaped c = true -> isLeadingSurrogate c = false /\ isTrailingSurrogate c = false.
Proof.
  intros H. apply uriUnescaped_ascii in H.
  unfold isLeadingSurrogate, isTrailingSurrogate. split; ncase; reflexivity.
Qed.

(** The encoder throws on, and only on, a string that is not well formed. *)
Lemma Encode_defined n :
  forall s, (length s <= n)%nat -> isWellFormed s = true -> exists e, Encode s = Some e.
Proof.
  induction n as [|n IH]; intros s Hlen Hwf.
  - destruct s; [exists []; reflexivity | cbn in Hlen; lia].
  - destruct s as [|c rest]; [exists []; reflexivity|].
    cbn [length] in Hlen. cbn [Encode isWellFormed] in *.
    destruct (uriUnescaped c) eqn:Hu.
    { destruct (uriUnescaped_not_surrogate _ Hu) as [Hl Ht]. rewrite Hl, Ht in Hwf.
      destruct (IH rest) as [e He]; [lia | exact Hwf |].
      rewrite He. eexists; reflexivity. }
    destruct (isLeadingSurrogate c).
    { destruct rest as [|d rest']; [discriminate|].
      apply andb_true_iff in Hwf as [Hd Hwf]. rewrite Hd.
      destruct (IH rest') as [e He]; [cbn [length] in Hlen; lia | exact Hwf |].
      rewrite He. eexists; reflexivity. }
    apply andb_true_iff in Hwf as [Ht Hwf]. apply negb_true_iff in Ht. rewrite Ht.
    destruct (IH rest) as [e He]; [lia | exact Hwf |].
    rewrite He. eexists; reflexivity.
Qed.

End URIFacts.

(** ** Session names and registry key segments *)

(** C1, as amended: for every name that is a well-formed string (16-bit code
    units, no surrogate standing alone), reserved path characters included,
    the encoder returns a key segment and decoding it gives the name back. *)
Theorem decode_encode_session_key (name : jsstring) :
  wfString name -> URI.isWellFormed name = true ->
  option_map decodeSessionKey (encodeSessionKey name) = Some name.
Proof.
  intros Hwf Hok.
  destruct (@URIFacts.Encode_defined (length name) name (le_n _) Hok) as [e He].
  unfold encodeSessionKey, URI.encodeURIComponent. rewrite He. cbn [option_map].
  unfold decodeSessionKey, URI.decodeURIComponent.
  rewrite (@URIFacts.Decode_Encode (length name) name (le_n _) Hwf e He (S (length e))) by lia.
  reflexivity.
Qed.

(** A name with a backslash, a slash, a space, a percent sign and a
    character outside the Basic Multilingual Plane. *)
Lemma decode_encode_session_key_witness :
  option_map decodeSessionKey
    (encodeSessionKey (js "srv\prod/web 1%" ++ [0xD83D; 0xDE00]%N))
  = Some (js "srv\prod/web 1%" ++ [0xD83D; 0xDE00]%N).
Proof.
  apply decode_encode_session_key.
  - repeat constructor.
  - reflexivity.
Defined.

(** C1, as stated: a name that is a lone surrogate is a string, and the
    encoder throws on it, so no decoded key segment comes back. *)
Lemma lone_surrogate_is_not_encoded :
  wfString [0xD800%N] /\
  encodeSessionKey [0xD800%N] = None /\
  option_map decodeSessionKey (encodeSessionKey [0xD800%N]) <> Some [0xD800%N].
Proof.
  split; [repeat constructor|]. split; [reflexivity | discriminate].
Qed.

(** ** Running programs *)

Section Running.

Variable World : Type.
Variable handle : forall X, call X -> World -> X * World.

Lemma run_bind (A B : Type) (p : prog A) (f : A -> prog B) (w : World) :
  run handle (bind p f) w =
  let r1 := run handle p w in
  let r2 := run handle (f (value r1)) (final r1) in
  {| value := value r2; final := final r2; events := events r1 ++ events r2 |}.
Proof.
  revert w. induction p as [a | X c k IH]; intros w.
  - cbn. destruct (run handle (f a) w); reflexivity.
  - cbn [bind run]. destruct (handle c w) as [x w1]. rewrite IH. reflexivity.
Qed.

Lemma events_bind (A B : Type) (p : prog A) (f : A -> prog B) (w : World) :
  events (run handle (bind p f) w) =
  events (run handle p w) ++ events (run handle (f (value (run handle p w))) (final (run handle p w))).
Proof. rewrite run_bind. reflexivity. Qed.

Lemma events_showToast s t m w :
  events (run handle (showToast s t m) w) =
  [Event (ShowToast {| style := s; title := t; message := m |}) tt].
Proof.
  unfold showToast, perform. cbn [run].
  destruct (handle (ShowToast _) w) as [[] w1]. reflexivity.
Qed.

End Running.

(** ** String.prototype.trim *)

Module TrimFacts.

Import JS.

Lemma trimStart_headFree s : headFree (trimStart s).
Proof.
  induction s as [|c s IH]; cbn; [exact I|].
  destruct (isWhiteSpace c) eqn:E; [exact IH | exact E].
Qed.

Lemma trimStart_fixed s : headFree s -> trimStart s = s.
Proof. destruct s as [|c s]; cbn; [reflexivity|]. intros ->. reflexivity. Qed.

Lemma trimStart_suffix s :
  exists p, s = p ++ trimStart s /\ forallb isWhiteSpace p = true.
Proof.
  induction s as [|c s [p [Hp Hw]]]; cbn.
  - exists []. split; reflexivity.
  - destruct (isWhiteSpace c) eqn:E.
    + exists (c :: p). cbn. rewrite E, Hw. split; [f_equal; exact Hp | reflexivity].
    + exists []. split; reflexivity.
Qed.

Lemma trimStart_all s : forallb isWhiteSpace s = true -> trimStart s = [].
Proof.
  induction s as [|c s IH]; cbn; [reflexivity|].
  intros H. apply andb_true_iff in H as [Hc Hs]. rewrite Hc. exact (IH Hs).
Qed.

Lemma trimStart_all_inv s : trimStart s = [] -> forallb isWhiteSpace s = true.
Proof.
  induction s as [|c s IH]; cbn; [reflexivity|].
  destruct (isWhiteSpace c); cbn; [exact IH | discriminate].
Qed.


Lemma forallb_rev (f : N -> bool) s : forallb f (rev s) = forallb f s.
Proof.
  induction s as [|c s IH]; cbn; [reflexivity|].
  rewrite forallb_app, IH. cbn. rewrite andb_true_r. apply andb_comm.
Qed.




Lemma trim_fixed s : headFree s -> headFree (rev s) -> trim s = s.
Proof.
  intros Hh Hl. unfold trim, trimEnd.
  rewrite (trimStart_fixed s Hh), (trimStart_fixed (rev s) Hl). apply rev_involutive.
Qed.


Lemma trim_all s : forallb isWhiteSpace s = true -> trim s = [].
Proof. intros H. unfold trim. rewrite (trimStart_all s H). reflexivity. Qed.


End TrimFacts.

(** ** The create form: the name a session is saved under *)



(** ** Validation of the forms *)

Lemma isInteger_ofZ z : JS.isInteger (JS.ofZ z) = true.
Proof. unfold JS.isInteger, JS.ofZ, inject_Z. cbn. rewrite Z.mod_1_r. reflexivity. Qed.

Lemma lessEq_ofZ a b : JS.lessEq (JS.ofZ a) (JS.ofZ b) = (a <=? b)%Z.
Proof. unfold JS.lessEq, JS.ofZ, inject_Z, Qle_bool. cbn. rewrite !Z.mul_1_r. reflexivity. Qed.

Lemma greater_ofZ a b : JS.greater (JS.ofZ a) (JS.ofZ b) = (b <? a)%Z.
Proof.
  unfold JS.greater, JS.ofZ, inject_Z, Qle_bool. cbn. rewrite !Z.mul_1_r.
  rewrite Z.ltb_antisym. reflexivity.
Qed.

(** The test of the forms accepts exactly the integers from 1 to 65535. *)
Lemma invalidPort_ofZ z :
  invalidPort (JS.ofZ z) = negb ((1 <=? z)%Z && (z <=? 65535)%Z).
Proof.
  unfold invalidPort. rewrite isInteger_ofZ, lessEq_ofZ, greater_ofZ. cbn [negb orb].
  destruct (Z.leb_spec z 0), (Z.ltb_spec 65535 z), (Z.leb_spec 1 z), (Z.leb_spec z 65535);
    cbn; try reflexivity; lia.
Qed.

Lemma invalidPort_not_integer x : JS.isInteger x = false -> invalidPort x = true.
Proof. intros H. unfold invalidPort. rewrite H. reflexivity. Qed.

Lemma invalidPort_out_of_range q : (q <= 0 \/ 65535 < q)%Q -> invalidPort (JS.Finite q) = true.
Proof.
  intros H. unfold invalidPort, JS.lessEq, JS.greater, JS.ofZ.
  destruct H as [H | H].
  - apply Qle_bool_iff in H. change (inject_Z 0) with 0%Q. rewrite H.
    apply orb_true_iff. left. apply orb_true_r.
  - apply orb_true_iff. right. apply negb_true_iff.
    destruct (Qle_bool q (inject_Z 65535)) eqn:E; [|reflexivity].
    apply Qle_bool_iff in E. exfalso. exact (Qlt_not_le _ _ H E).
Qed.

(** When the host is empty, or the port is read as a Number that is no
    integer, or as one that is 0 or less or above 65535, both forms that
    write make one call only, the failure toast. *)
Lemma blocked_submission
    (E : JS.Engine) (World : Type) (handle : forall X, call X -> World -> X * World)
    (w : World) (puttyPath sessionName host port protocol closeOnExit : jsstring)
    (save : bool) (savedName : option jsstring) :
  let portNum := JS.Number E port in
  (host = [] \/ JS.isInteger portNum = false
   \/ exists q, portNum = JS.Finite q /\ (q <= 0 \/ 65535 < q)%Q) ->
  let shown :=
    Event (ShowToast {| style := Failure;
                        title := if isEmpty host then js "Host is required"
                                 else js "Invalid port";
                        message := None |}) tt in
  let created :=
    run handle (AddConnection.handleSubmit E puttyPath
      {| AddConnection.host := host; AddConnection.port := port;
         AddConnection.protocol := protocol; AddConnection.closeOnExit := closeOnExit;
         AddConnection.save := save; AddConnection.savedName := savedName |}) w in
  let edited :=
    run handle (SearchConnections.EditConnectionForm.handleSubmit E sessionName puttyPath
      {| SearchConnections.host := host; SearchConnections.port := port;
         SearchConnections.protocol := protocol;
         SearchConnections.closeOnExit := closeOnExit |}) w in
  events created = [shown] /\ events edited = [shown]
  /\ existsb isExec (events created) = false /\ existsb isExec (events edited) = false.
Proof.
  intros portNum Hbad shown created edited.
  assert (Hcase : isEmpty host = true \/ (isEmpty host = false /\ invalidPort portNum = true)).
  { destruct host as [|c host']; [left; reflexivity|]. right. split; [reflexivity|].
    destruct Hbad as [Hh | [Hi | [q [Hq Hr]]]].
    - discriminate Hh.
    - apply invalidPort_not_integer. exact Hi.
    - rewrite Hq. apply invalidPort_out_of_range. exact Hr. }
  assert (Hc : events created = [shown]).
  { subst created shown. unfold AddConnection.handleSubmit. cbn [AddConnection.host AddConnection.port].
    fold portNum. destruct Hcase as [He | [He Hp]]; rewrite He; [|rewrite Hp];
      apply events_showToast. }
  assert (He : events edited = [shown]).
  { subst edited shown. unfold SearchConnections.EditConnectionForm.handleSubmit.
    cbn [SearchConnections.host SearchConnections.port].
    fold portNum. destruct Hcase as [He | [He Hp]]; rewrite He; [|rewrite Hp];
      apply events_showToast. }
  rewrite Hc, He. repeat split; reflexivity.
Qed.

(** ** The steps of a write *)

Section Steps.

Variable World : Type.
Variable handle : forall X, call X -> World -> X * World.

(** [runNext] gives the commands one by one and stops after the first
    failure. *)
Lemma runNext_steps (commands : list jsstring) (w : World) :
  exists answers : list execResult,
    (length answers <= length commands)%nat
    /\ (commands <> [] -> 1 <= length answers)%nat
    /\ events (run handle (runNext commands) w) =
       map (fun ca => Event (Exec (fst ca)) (snd ca)) (combine commands answers)
    /\ (forall a, In a (removelast answers) -> error a = None)
    /\ value (run handle (runNext commands) w) =
         match error (last answers noAnswer) with
         | Some e => Rejected e
         | None => Fulfilled tt
         end
    /\ (error (last answers noAnswer) = None -> length answers = length commands)
    /\ final (run handle (runNext commands) w) =
         fold_left (fun w' c => snd (handle (Exec c) w'))
                   (firstn (length answers) commands) w.
Proof.
  revert w. induction commands as [|c cs IH]; intros w.
  - exists []. cbn. repeat split; auto; try contradiction.
  - cbn [runNext run]. destruct (handle (Exec c) w) as [a w1] eqn:Hh.
    destruct (error a) as [e|] eqn:He.
    + exists [a]. cbn. rewrite Hh, He, combine_nil. cbn.
      repeat split; auto; try lia; try contradiction; try discriminate.
    + destruct (IH w1) as [answers [Hl [_ [Hev [Hpre [Hval [Hall Hfin]]]]]]].
      exists (a :: answers). cbn [length combine map events value final firstn fold_left].
      rewrite Hh. cbn [snd fst]. split; [lia|]. split; [lia|].
      split; [f_equal; exact Hev|].
      split; [|split; [|split]].
      * intros x Hx. destruct answers as [|b bs]; [destruct Hx|].
        cbn [removelast] in Hx. destruct Hx as [<- | Hx]; [exact He|].
        apply Hpre. exact Hx.
      * destruct answers as [|b bs]; [cbn in *; rewrite He; exact Hval | exact Hval].
      * destruct answers as [|b bs].
        { cbn. intros _. f_equal. apply Hall. reflexivity. }
        { intros Hb. cbn [length]. f_equal. apply Hall. exact Hb. }
      * exact Hfin.
Qed.

End Steps.

(** C6: for a session name the encoder accepts, [writeRegistryValues] gives
    the registry tool the command that creates the key and then the
    commands that set HostName, PortNumber, Protocol and CloseOnExit, in
    that order, each after the one before has succeeded.  The calls made
    are the first [n] of the five with their answers, for some [n] from 1
    to 5; every answer but the last is a success; when the last answer is
    a failure the promise is rejected with its error, otherwise all five
    were given and the promise is fulfilled; and the outside is left as
    those [n] commands, and nothing else, have made it. *)
Theorem write_stops_at_first_failure
    (E : JS.Engine) (World : Type) (handle : forall X, call X -> World -> X * World)
    (w : World) (sessionName key : jsstring) (values : SessionValues) :
  encodeSessionKey sessionName = Some key ->
  let baseKey := sessionsRoot ++ backslash ++ key in
  let set name_ type data :=
    js "reg add " ++ quote ++ baseKey ++ quote ++ js " /v " ++ name_
    ++ js " /t " ++ type ++ js " /d " ++ data ++ js " /f" in
  let commands :=
    [ js "reg add " ++ quote ++ baseKey ++ quote ++ js " /f";
      set (js "HostName") (js "REG_SZ") (quote ++ HostName values ++ quote);
      set (js "PortNumber") (js "REG_DWORD") (JS.numberToString E (PortNumber values));
      set (js "Protocol") (js "REG_SZ") (Protocol values);
      set (js "CloseOnExit") (js "REG_SZ") (CloseOnExit values) ] in
  let r := run handle (writeRegistryValues E sessionName values) w in
  exists answers : list execResult,
    (1 <= length answers <= 5)%nat
    /\ events r = map (fun ca => Event (Exec (fst ca)) (snd ca)) (combine commands answers)
    /\ (forall a, In a (removelast answers) -> error a = None)
    /\ value r =
         match error (last answers noAnswer) with
         | Some e => Rejected e
         | None => Fulfilled tt
         end
    /\ (error (last answers noAnswer) = None -> length answers = 5%nat)
    /\ final r =
         fold_left (fun w' c => snd (handle _ (Exec c) w'))
                   (firstn (length answers) commands) w.
Proof.
  intros Hkey baseKey set commands r.
  assert (Hv : valueCommands E (sessionKeyPath key) values = tl commands).
  { subst commands set baseKey. unfold valueCommands. cbn [tl].
    rewrite <- !app_assoc. reflexivity. }
  assert (Hw : writeRegistryValues E sessionName values = runNext commands).
  { unfold writeRegistryValues. rewrite Hkey, Hv. reflexivity. }
  subst r. rewrite Hw.
  destruct (runNext_steps handle commands w)
    as [answers [Hl [H1 [Hev [Hpre [Hval [Hall Hfin]]]]]]].
  exists answers. repeat split; auto.
  apply H1. discriminate.
Qed.

(** The session "testbox" of the specification, written into an empty
    registry. *)
Lemma write_stops_at_first_failure_witness :
  exists answers : list execResult,
    (1 <= length answers <= 5)%nat
    /\ events (run Win.handle
         (writeRegistryValues plainEngine (js "testbox")
            {| HostName := js "10.0.0.5"; PortNumber := JS.ofZ 22;
               Protocol := js "ssh"; CloseOnExit := js "never" |}) (Win.start [])) =
       map (fun ca => Event (Exec (fst ca)) (snd ca))
         (combine
            [ js "reg add " ++ quote ++ sessionKeyPath (js "testbox") ++ quote ++ js " /f";
              js "reg add " ++ quote ++ sessionKeyPath (js "testbox") ++ quote
                ++ js " /v HostName /t REG_SZ /d " ++ quote ++ js "10.0.0.5" ++ quote ++ js " /f";
              js "reg add " ++ quote ++ sessionKeyPath (js "testbox") ++ quote
                ++ js " /v PortNumber /t REG_DWORD /d 22 /f";
              js "reg add " ++ quote ++ sessionKeyPath (js "testbox") ++ quote
                ++ js " /v Protocol /t REG_SZ /d ssh /f";
              js "reg add " ++ quote ++ sessionKeyPath (js "testbox") ++ quote
                ++ js " /v CloseOnExit /t REG_SZ /d never /f" ]
            answers).
Proof.
  destruct (@write_stops_at_first_failure plainEngine Win.World Win.handle (Win.start [])
    (js "testbox") (js "testbox")
    {| HostName := js "10.0.0.5"; PortNumber := JS.ofZ 22;
       Protocol := js "ssh"; CloseOnExit := js "never" |} eq_refl)
    as [answers [Hn [Hev _]]].
  exists answers. split; [exact Hn | exact Hev].
Defined.

(** ** Starting PuTTY *)

Section Launching.

Variable World : Type.
Variable handle : forall X, call X -> World -> X * World.

(** The three ways [fileExists] can go. *)
Lemma fileExists_cases (path : jsstring) (w : World) :
  let r := run handle (fileExists path) w in
  (events r = [checked path X_OK true] /\ value r = true)
  \/ (events r = [checked path X_OK false; checked path R_OK true] /\ value r = true)
  \/ (events r = [checked path X_OK false; checked path R_OK false] /\ value r = false).
Proof.
  unfold fileExists. cbn [run].
  destruct (handle (Access path X_OK) w) as [[|] w1]; cbn [run events value].
  - left. split; reflexivity.
  - destruct (handle (Access path R_OK) w1) as [[|] w2]; cbn [events value].
    + right. left. split; reflexivity.
    + right. right. split; reflexivity.
Qed.

Lemma events_perform_ExecFile file args w :
  events (run handle (perform (ExecFile file args)) w) = [started file args].
Proof.
  unfold perform. cbn [run]. destruct (handle (ExecFile file args) w) as [[] w1]. reflexivity.
Qed.

Lemma events_dismiss w :
  exists a b, events (run handle dismiss w) = [Event PopToRoot a; Event CloseMainWindow b].
Proof.
  unfold dismiss, perform. cbn [bind run].
  destruct (handle PopToRoot w) as [a w1]. cbn [run].
  destruct (handle CloseMainWindow w1) as [b w2]. exists a, b. reflexivity.
Qed.

Lemma events_pathNotFound path w :
  events (run handle (pathNotFound path) w) = [pathNotFoundShown path].
Proof. apply events_showToast. Qed.

Lemma quiet_runNext commands w : quiet (events (run handle (runNext commands) w)).
Proof.
  revert w. induction commands as [|c cs IH]; intros w; [split; reflexivity|].
  cbn [runNext run]. destruct (handle (Exec c) w) as [a w1].
  destruct (error a); cbn [run events]; [split; reflexivity|].
  destruct (IH w1) as [H1 H2]. split; cbn; assumption.
Qed.

Lemma quiet_write E name values w :
  quiet (events (run handle (writeRegistryValues E name values) w)).
Proof.
  unfold writeRegistryValues. destruct (encodeSessionKey name) as [key|];
    [|split; reflexivity].
  apply (quiet_runNext (createKeyCommand (sessionKeyPath key)
                          :: valueCommands E (sessionKeyPath key) values)).
Qed.

Lemma quiet_app a b : quiet a -> quiet b -> quiet (a ++ b).
Proof.
  intros [A1 A2] [B1 B2]. split; rewrite existsb_app; [rewrite A1, B1 | rewrite A2, B2];
    reflexivity.
Qed.

Lemma launches_app a b : launches (a ++ b) = launches a ++ launches b.
Proof.
  induction a as [|[X c x] a IH]; cbn [app launches]; [reflexivity|].
  destruct c; cbn [app]; rewrite IH; reflexivity.
Qed.

Lemma launches_dismiss w : launches (events (run handle dismiss w)) = [].
Proof. destruct (events_dismiss w) as [a [b ->]]. reflexivity. Qed.

Lemma quiet_guarded path tr : quiet tr -> guardedLaunch path tr.
Proof.
  intros H. exists tr, []. split; [exact H|]. split; [split; reflexivity|].
  left. reflexivity.
Qed.

(** A check followed by the start of the process when it succeeds and by
    the toast when it fails, after a quiet beginning. *)
Lemma guarded_tail path (f : bool -> prog unit) pre w :
  quiet pre ->
  (forall w', exists args post,
      quiet post /\ events (run handle (f true) w') = started path args :: post) ->
  (forall w', exists post,
      quiet post /\ events (run handle (f false) w') = pathNotFoundShown path :: post) ->
  guardedLaunch path (pre ++ events (run handle (bind (fileExists path) f) w)).
Proof.
  intros Hpre Hyes Hno. rewrite events_bind.
  destruct (fileExists_cases path w) as [[Hev Hv] | [[Hev Hv] | [Hev Hv]]];
    rewrite Hev, Hv.
  - destruct (Hyes (final (run handle (fileExists path) w))) as [args [post [Hq He]]].
    rewrite He. exists pre, post. split; [exact Hpre|]. split; [exact Hq|].
    right. left. exists args. reflexivity.
  - destruct (Hyes (final (run handle (fileExists path) w))) as [args [post [Hq He]]].
    rewrite He. exists pre, post. split; [exact Hpre|]. split; [exact Hq|].
    right. right. left. exists args. reflexivity.
  - destruct (Hno (final (run handle (fileExists path) w))) as [post [Hq He]].
    rewrite He. exists pre, post. split; [exact Hpre|]. split; [exact Hq|].
    right. right. right. reflexivity.
Qed.

Lemma quiet_dismiss w : quiet (events (run handle dismiss w)).
Proof. destruct (events_dismiss w) as [a [b ->]]. split; reflexivity. Qed.

Lemma quiet_showToast s t m w : quiet (events (run handle (showToast s t m) w)).
Proof. rewrite events_showToast. split; reflexivity. Qed.

Lemma guarded_launchSession path name w :
  guardedLaunch path (events (run handle (SearchConnections.launchSession path name) w)).
Proof.
  unfold SearchConnections.launchSession.
  apply (@guarded_tail path
    (fun e => if negb e then pathNotFound path
              else perform (ExecFile path [js "-load"; name])) [] w).
  - split; reflexivity.
  - intros w'. exists [js "-load"; name], []. split; [split; reflexivity|].
    apply events_perform_ExecFile.
  - intros w'. exists []. split; [split; reflexivity|]. apply events_pathNotFound.
Qed.

Lemma guarded_temp E path values w :
  guardedLaunch path
    (events (run handle (SearchConnections.TempEditForm.handleSubmit E path values) w)).
Proof.
  unfold SearchConnections.TempEditForm.handleSubmit.
  destruct (isEmpty _); [apply quiet_guarded, quiet_showToast|].
  destruct (invalidPort _); [apply quiet_guarded, quiet_showToast|].
  apply (@guarded_tail path
    (fun e => if negb e then pathNotFound path
              else perform (ExecFile path _) ;; dismiss) [] w).
  - split; reflexivity.
  - intros w'. cbn [negb]. rewrite events_bind, events_perform_ExecFile.
    eexists. eexists. split; [|reflexivity]. apply quiet_dismiss.
  - intros w'. exists []. split; [split; reflexivity|]. apply events_pathNotFound.
Qed.

Lemma guarded_add E path values w :
  guardedLaunch path
    (events (run handle (AddConnection.handleSubmit E path values) w)).
Proof.
  unfold AddConnection.handleSubmit.
  destruct (isEmpty _); [apply quiet_guarded, quiet_showToast|].
  destruct (invalidPort _); [apply quiet_guarded, quiet_showToast|].
  destruct (AddConnection.save values); [|apply quiet_guarded; split; reflexivity].
  rewrite events_bind.
  match goal with |- context [events (run handle (writeRegistryValues ?e ?n ?v) w)] =>
    pose proof (quiet_write e n v w) as Hq;
    set (wr := run handle (writeRegistryValues e n v) w) in *
  end.
  destruct (value wr) as [[]|e].
  - rewrite events_bind, events_showToast, app_assoc.
    apply (@guarded_tail path
      (fun e => if negb e then pathNotFound path
                else perform (ExecFile path _) ;; dismiss)).
    + apply quiet_app; [exact Hq | split; reflexivity].
    + intros w'. cbn [negb]. rewrite events_bind, events_perform_ExecFile.
      eexists. eexists. split; [|reflexivity]. apply quiet_dismiss.
    + intros w'. exists []. split; [split; reflexivity|]. apply events_pathNotFound.
  - apply quiet_guarded, quiet_app; [exact Hq | apply quiet_showToast].
Qed.

Lemma guarded_edit E name path values w :
  guardedLaunch path
    (events (run handle
       (SearchConnections.EditConnectionForm.handleSubmit E name path values) w)).
Proof.
  unfold SearchConnections.EditConnectionForm.handleSubmit.
  destruct (isEmpty _); [apply quiet_guarded, quiet_showToast|].
  destruct (invalidPort _); [apply quiet_guarded, quiet_showToast|].
  rewrite events_bind.
  match goal with |- context [events (run handle (writeRegistryValues ?e ?n ?v) w)] =>
    pose proof (quiet_write e n v w) as Hq;
    set (wr := run handle (writeRegistryValues e n v) w) in *
  end.
  destruct (value wr) as [[]|e].
  - rewrite events_bind, events_showToast, app_assoc.
    apply (@guarded_tail path
      (fun e => (if negb e then pathNotFound path
                 else perform (ExecFile path _)) ;; dismiss)).
    + apply quiet_app; [exact Hq | split; reflexivity].
    + intros w'. cbn [negb]. rewrite events_bind, events_perform_ExecFile.
      eexists. eexists. split; [|reflexivity]. apply quiet_dismiss.
    + intros w'. cbn [negb]. rewrite events_bind, events_pathNotFound.
      eexists. split; [|reflexivity]. apply quiet_dismiss.
  - apply quiet_guarded, quiet_app; [exact Hq | apply quiet_showToast].
Qed.

End Launching.

(** C9: on each of the four paths that can start the executable (the
    create form, the edit form, the temporary form, the list action) the
    process is started only directly after a check of the configured path
    has succeeded; when both checks fail, the "PuTTY path not found" toast
    is what follows and no process is started anywhere in the run.  The
    title of that toast is the title of no other failure toast. *)
Theorem launch_is_guarded
    (E : JS.Engine) (World : Type) (handle : forall X, call X -> World -> X * World)
    (w : World) (puttyPath sessionName : jsstring)
    (created : AddConnection.FormValues) (edited : SearchConnections.FormValues) :
  guardedLaunch puttyPath
    (events (run handle (AddConnection.handleSubmit E puttyPath created) w))
  /\ guardedLaunch puttyPath
       (events (run handle
          (SearchConnections.EditConnectionForm.handleSubmit E sessionName puttyPath edited) w))
  /\ guardedLaunch puttyPath
       (events (run handle
          (SearchConnections.TempEditForm.handleSubmit E puttyPath edited) w))
  /\ guardedLaunch puttyPath
       (events (run handle (SearchConnections.launchSession puttyPath sessionName) w))
  /\ ~ In (js "PuTTY path not found")
         [js "Failed to launch PuTTY"; js "Host is required"; js "Invalid port";
          js "Failed to save session"; js "Failed to update session";
          js "Failed to delete session"].
Proof.
  split; [apply guarded_add|]. split; [apply guarded_edit|].
  split; [apply guarded_temp|]. split; [apply guarded_launchSession|].
  cbn. intros H. repeat (destruct H as [H|H]; [discriminate H|]). exact H.
Qed.

Lemma numberToString_ofZ (E : JS.Engine) (z : Z) :
  (Z.abs z < 10 ^ 21)%Z -> JS.numberToString E (JS.ofZ z) = JS.decimal z.
Proof.
  intros Hz. unfold JS.numberToString. rewrite isInteger_ofZ.
  unfold JS.ofZ, inject_Z. cbn [Qnum Qden]. rewrite Z.div_1_r.
  destruct (Z.ltb_spec (Z.abs z) (10 ^ 21)); [reflexivity | lia].
Qed.

(** C8: the list action starts the executable with ["-load"; sessionName];
    the temporary form, for a form that passes validation with the port
    read as the integer [p], starts it with the flag of the protocol, "-P",
    [p] in decimal digits and the host, in that order.  Either does so once,
    when the check of the path succeeds, and not at all otherwise.  The flag
    is "-ssh", "-telnet", "-rlogin", "-serial" or "-raw" for the protocol of
    that name. *)
Theorem launch_arguments
    (E : JS.Engine) (World : Type) (handle : forall X, call X -> World -> X * World)
    (w : World) (puttyPath sessionName host port protocol closeOnExit : jsstring) (p : Z) :
  host <> [] -> JS.Number E port = JS.ofZ p -> (1 <= p <= 65535)%Z ->
  let present := value (run handle (fileExists puttyPath) w) in
  launches (events (run handle (SearchConnections.launchSession puttyPath sessionName) w))
    = (if present then [(puttyPath, [js "-load"; sessionName])] else [])
  /\ launches (events (run handle
        (SearchConnections.TempEditForm.handleSubmit E puttyPath
           {| SearchConnections.host := host; SearchConnections.port := port;
              SearchConnections.protocol := protocol;
              SearchConnections.closeOnExit := closeOnExit |}) w))
    = (if present
       then [(puttyPath,
              [SearchConnections.TempEditForm.protocolToFlag protocol; js "-P";
               JS.decimal p; host])]
       else [])
  /\ map SearchConnections.TempEditForm.protocolToFlag
       [js "ssh"; js "telnet"; js "rlogin"; js "serial"; js "raw"]
     = [js "-ssh"; js "-telnet"; js "-rlogin"; js "-serial"; js "-raw"].
Proof.
  intros Hhost Hport Hp present.
  assert (Hchk : forall f : bool -> prog unit,
    launches (events (run handle (bind (fileExists puttyPath) f) w)) =
    launches (events (run handle (f present) (final (run handle (fileExists puttyPath) w))))).
  { intros f. rewrite events_bind, launches_app. subst present.
    destruct (fileExists_cases handle puttyPath w) as [[Hev Hv] | [[Hev Hv] | [Hev Hv]]];
      rewrite Hev; reflexivity. }
  split; [|split; [|reflexivity]].
  - unfold SearchConnections.launchSession. rewrite Hchk.
    destruct present; cbn [negb].
    + rewrite events_perform_ExecFile. reflexivity.
    + rewrite events_pathNotFound. reflexivity.
  - unfold SearchConnections.TempEditForm.handleSubmit.
    cbn [SearchConnections.host SearchConnections.port SearchConnections.protocol].
    rewrite Hport, invalidPort_ofZ.
    destruct host as [|c host']; [contradiction Hhost; reflexivity|]. cbn [isEmpty].
    destruct (Z.leb_spec 1 p); [|lia]. destruct (Z.leb_spec p 65535); [|lia].
    cbn [andb negb]. rewrite Hchk.
    destruct present; cbn [negb].
    + rewrite events_bind, events_perform_ExecFile, launches_app.
      cbv beta. rewrite launches_dismiss, numberToString_ofZ by lia. reflexivity.
    + rewrite events_pathNotFound. reflexivity.
Qed.

(** The temporary form with host "example.com", port "2222", protocol
    "ssh", and an executable that is there: the arguments are
    -ssh -P 2222 example.com. *)
Lemma launch_arguments_witness :
  launches (events (run Win.handle
     (SearchConnections.TempEditForm.handleSubmit plainEngine (js "C:\putty.exe")
        {| SearchConnections.host := js "example.com"; SearchConnections.port := js "2222";
           SearchConnections.protocol := js "ssh";
           SearchConnections.closeOnExit := js "never" |}) (Win.start [])))
  = [(js "C:\putty.exe", [js "-ssh"; js "-P"; js "2222"; js "example.com"])].
Proof.
  refine (proj1 (proj2 (@launch_arguments plainEngine Win.World Win.handle (Win.start [])
    (js "C:\putty.exe") (js "box") (js "example.com") (js "2222") (js "ssh") (js "never")
    2222%Z _ _ _))).
  - discriminate.
  - reflexivity.
  - lia.
Defined.

(** ** Strings and character classes *)

Lemma jsstring_eqb_refl a : jsstring_eqb a a = true.
Proof. unfold jsstring_eqb. destruct (list_eq_dec N.eq_dec a a); congruence. Qed.

Lemma jsstring_eqb_eq a b : jsstring_eqb a b = true <-> a = b.
Proof.
  unfold jsstring_eqb. destruct (list_eq_dec N.eq_dec a b); split; congruence.
Qed.

Lemma jsstring_eqb_neq a b : jsstring_eqb a b = false <-> a <> b.
Proof.
  unfold jsstring_eqb. destruct (list_eq_dec N.eq_dec a b); split; congruence.
Qed.

Module ClassFacts.

Import JS URI.
Local Open Scope N_scope.

Lemma printable_not_space c : printable c -> isWhiteSpace c = false.
Proof.
  unfold printable, isWhiteSpace. cbn [existsb]. intros H. ncase; reflexivity.
Qed.

Lemma printable_isDot c : printable c -> isDot c = true.
Proof.
  unfold printable, isDot, isLineTerminator. cbn [existsb]. intros H. ncase; reflexivity.
Qed.

Lemma isWord_printable c : isWord c = true -> printable c.
Proof.
  unfold isWord, URI.isAlpha, URI.isDigit, printable. intros H.
  repeat (apply orb_true_iff in H; destruct H as [H|H]);
    try (apply andb_true_iff in H as [H1 H2]; apply N.leb_le in H1, H2; lia);
    apply N.eqb_eq in H; lia.
Qed.

Lemma isUpperWord_printable c : isUpperWord c = true -> printable c.
Proof.
  unfold isUpperWord, URI.isDigit, printable. intros H.
  repeat (apply orb_true_iff in H; destruct H as [H|H]);
    try (apply andb_true_iff in H as [H1 H2]; apply N.leb_le in H1, H2; lia);
    apply N.eqb_eq in H; lia.
Qed.

Lemma isWhiteSpace_not_word c : isWhiteSpace c = true -> isWord c = false.
Proof.
  intros H. destruct (isWord c) eqn:E; [|reflexivity].
  apply isWord_printable, printable_not_space in E. congruence.
Qed.

Lemma isWhiteSpace_not_upper c : isWhiteSpace c = true -> isUpperWord c = false.
Proof.
  intros H. destruct (isUpperWord c) eqn:E; [|reflexivity].
  apply isUpperWord_printable, printable_not_space in E. congruence.
Qed.

Lemma isWhiteSpace_not c d : printable d -> isWhiteSpace c = true -> (d =? c) = false.
Proof.
  intros Hd Hc. destruct (N.eqb_spec d c) as [->|]; [|reflexivity].
  apply printable_not_space in Hd. congruence.
Qed.

Lemma keyChar_printable c : keyChar c -> printable c.
Proof.
  intros [H | ->]; [apply URIFacts.uriUnescaped_ascii; exact H | unfold printable; lia].
Qed.

Lemma keyChar_plain c : keyChar c -> c <> 34 /\ c <> 92 /\ c <> 32 /\ c <> 10.
Proof.
  intros [H | ->]; [|lia].
  repeat split; intros ->; discriminate H.
Qed.

Lemma hexDigit_unescaped d : d < 16 -> URI.uriUnescaped (URI.hexDigit d) = true.
Proof.
  intros Hd. unfold URI.uriUnescaped, URI.hexDigit, URI.isAlpha, URI.isDigit.
  destruct (N.ltb_spec d 10).
  - replace ((48 <=? 48 + d) && (48 + d <=? 57)) with true; [apply orb_true_r || (rewrite orb_true_r; reflexivity)|].
    symmetry. apply andb_true_iff. split; apply N.leb_le; lia.
  - replace ((65 <=? 55 + d) && (55 + d <=? 90)) with true; [reflexivity|].
    symmetry. apply andb_true_iff. split; apply N.leb_le; lia.
Qed.

Lemma percent_keyChars b : b < 256 -> Forall keyChar (URI.percent b).
Proof.
  intros Hb. unfold URI.percent.
  apply Forall_cons; [right; reflexivity|].
  apply Forall_cons; [left; apply hexDigit_unescaped; lia|].
  apply Forall_cons; [left; apply hexDigit_unescaped; lia|].
  apply Forall_nil.
Qed.

Lemma escape_keyChars cp : cp < 0x110000 -> Forall keyChar (URI.escape cp).
Proof.
  intros Hcp. unfold URI.escape, URI.utf8.
  destruct (N.ltb_spec cp 0x80); [|destruct (N.ltb_spec cp 0x800);
    [|destruct (N.ltb_spec cp 0x10000)]]; cbn [flat_map];
    repeat (apply Forall_app; split); try apply Forall_nil;
    apply percent_keyChars; lia.
Qed.

Lemma Encode_keyChars n :
  forall s, (length s <= n)%nat -> wfString s ->
  forall e, URI.Encode s = Some e -> Forall keyChar e.
Proof.
  induction n as [|n IH]; intros s Hlen Hwf e He.
  - destruct s; [|cbn in Hlen; lia]. cbn in He. injection He as <-. constructor.
  - destruct s as [|c rest]; cbn [URI.Encode] in He.
    { injection He as <-. constructor. }
    cbn [length] in Hlen. inversion Hwf as [|? ? Hc Hrest]; subst.
    destruct (URI.uriUnescaped c) eqn:Hu.
    { destruct (URI.Encode rest) as [e'|] eqn:He'; [|discriminate].
      cbn in He. injection He as <-. constructor; [left; exact Hu|].
      apply (IH rest); auto; lia. }
    destruct (URI.isLeadingSurrogate c) eqn:Hl.
    { destruct rest as [|d rest']; [discriminate|].
      destruct (URI.isTrailingSurrogate d) eqn:Ht; [|discriminate].
      destruct (URI.Encode rest') as [e'|] eqn:He'; [|discriminate].
      cbn in He. injection He as <-.
      inversion Hrest as [|? ? Hd Hrest']; subst.
      apply Forall_app. split.
      - apply escape_keyChars. apply (proj1 (@URIFacts.scalar_pair c d Hl Ht)).
      - apply (IH rest'); auto. cbn [length] in Hlen. lia. }
    destruct (URI.isTrailingSurrogate c) eqn:Ht; [discriminate|].
    destruct (URI.Encode rest) as [e'|] eqn:He'; [|discriminate].
    cbn in He. injection He as <-.
    apply Forall_app. split.
    + apply escape_keyChars. unfold codeUnit in Hc. lia.
    + apply (IH rest); auto; lia.
Qed.

End ClassFacts.

(** ** The command lines as [reg.exe] reads them *)

Module CommandFacts.

Import JS Win.
Local Open Scope N_scope.

Lemma tokenize_quoted x : forall cur st rest,
  noQuote x ->
  tokenize true cur st (x ++ 34 :: rest) = tokenize false (rev x ++ cur) true rest.
Proof.
  induction x as [|c x IH]; intros cur st rest Hx.
  - reflexivity.
  - inversion Hx as [|? ? Hc Hx']; subst. cbn [app tokenize].
    destruct (N.eqb_spec c 34); [contradiction|].
    rewrite andb_false_r. rewrite IH by assumption.
    cbn [rev]. rewrite <- app_assoc. reflexivity.
Qed.

Lemma tokenize_bare x : forall cur st rest,
  bare x ->
  tokenize false cur st (x ++ rest) = tokenize false (rev x ++ cur) true rest.
Proof.
  intros cur st rest [Hne Hx]. revert cur st Hne.
  induction Hx as [|c x [Hq Hs] Hx IH]; intros cur st Hne; [contradiction Hne; reflexivity|].
  cbn [app tokenize].
  destruct (N.eqb_spec c 34); [contradiction|].
  destruct (N.eqb_spec c 32); [contradiction|]. cbn [andb].
  destruct x as [|d x'].
  - reflexivity.
  - rewrite IH by discriminate. cbn [rev]. rewrite <- !app_assoc. reflexivity.
Qed.

Lemma argv_query path :
  noQuote path ->
  argv (js "reg query " ++ quote ++ path ++ quote) = [js "reg"; js "query"; path].
Proof.
  intros Hp. unfold argv, quote. cbn.
  rewrite <- (app_nil_r path) at 1.
  change ([34]) with (34 :: @nil N). rewrite <- app_assoc. cbn [app].
  rewrite tokenize_quoted by assumption. cbn.
  rewrite app_nil_r, rev_involutive. reflexivity.
Qed.

Ltac tokens :=
  unfold argv, quote; cbn;
  repeat (first [ rewrite tokenize_quoted by assumption
                | rewrite tokenize_bare by assumption ]; cbn);
  rewrite ?app_nil_r, ?rev_involutive; try reflexivity.

Lemma argv_add_key path :
  noQuote path ->
  argv (js "reg add " ++ quote ++ path ++ quote ++ js " /f")
  = [js "reg"; js "add"; path; js "/f"].
Proof. intros Hp. tokens. Qed.

Lemma argv_delete_key path :
  noQuote path ->
  argv (js "reg delete " ++ quote ++ path ++ quote ++ js " /f")
  = [js "reg"; js "delete"; path; js "/f"].
Proof. intros Hp. tokens. Qed.

Lemma argv_set_quoted path name_ type data :
  noQuote path -> bare name_ -> bare type -> noQuote data ->
  argv (js "reg add " ++ quote ++ path ++ quote ++ js " /v " ++ name_ ++ js " /t " ++ type
        ++ js " /d " ++ quote ++ data ++ quote ++ js " /f")
  = [js "reg"; js "add"; path; js "/v"; name_; js "/t"; type; js "/d"; data; js "/f"].
Proof. intros Hp Hn Ht Hd. tokens. Qed.

Lemma argv_set_bare path name_ type data :
  noQuote path -> bare name_ -> bare type -> bare data ->
  argv (js "reg add " ++ quote ++ path ++ quote ++ js " /v " ++ name_ ++ js " /t " ++ type
        ++ js " /d " ++ data ++ js " /f")
  = [js "reg"; js "add"; path; js "/v"; name_; js "/t"; type; js "/d"; data; js "/f"].
Proof. intros Hp Hn Ht Hd. tokens. Qed.

End CommandFacts.

(** ** Backtracking matchers *)

Module RegexFacts.

Import JS.
Local Open Scope N_scope.

Section Greedy.

Variable R : Type.
Variable cls : N -> bool.
Variable k : jsstring -> jsstring -> option R.

(** When what follows cannot start with a character of the class, the
    quantifier keeps all it took. *)
Lemma greedy_exact pre : forall taken rest,
  Forall (fun c => cls c = true) pre -> stops cls rest ->
  (forall t c s, cls c = true -> k t (c :: s) = None) ->
  greedy cls k taken (pre ++ rest) = k (rev taken ++ pre) rest.
Proof.
  induction pre as [|c pre IH]; intros taken rest Hpre Hstop Hrej.
  - rewrite app_nil_r. destruct rest as [|d rest]; cbn; [reflexivity|].
    cbn in Hstop. rewrite Hstop. reflexivity.
  - inversion Hpre as [|? ? Hc Hpre']; subst. cbn [app greedy]. rewrite Hc.
    rewrite IH by assumption. rewrite Hrej by assumption.
    cbn [rev]. rewrite <- app_assoc. cbn [app].
    destruct (k (rev taken ++ c :: pre) rest); reflexivity.
Qed.

(** The longest run is tried first. *)
Lemma greedy_first pre : forall taken rest r,
  Forall (fun c => cls c = true) pre -> stops cls rest ->
  k (rev taken ++ pre) rest = Some r ->
  greedy cls k taken (pre ++ rest) = Some r.
Proof.
  induction pre as [|c pre IH]; intros taken rest r Hpre Hstop Hk.
  - rewrite app_nil_r in Hk. destruct rest as [|d rest]; cbn; [exact Hk|].
    cbn in Hstop. rewrite Hstop. exact Hk.
  - inversion Hpre as [|? ? Hc Hpre']; subst. cbn [app greedy]. rewrite Hc.
    rewrite (IH (c :: taken) rest r); auto.
    cbn [rev]. rewrite <- app_assoc. exact Hk.
Qed.

(** Whatever the quantifier returns, the continuation returned it. *)
Lemma greedy_range (P : R -> Prop) :
  (forall t s x, k t s = Some x -> P x) ->
  forall s taken x, greedy cls k taken s = Some x -> P x.
Proof.
  intros Hk. induction s as [|c s IH]; intros taken x H; cbn in H.
  - exact (Hk _ _ _ H).
  - destruct (cls c); [|exact (Hk _ _ _ H)].
    destruct (greedy cls k (c :: taken) s) as [y|] eqn:E.
    + injection H as <-. exact (IH _ _ E).
    + exact (Hk _ _ _ H).
Qed.

End Greedy.

Lemma rejects_plus capture (cls cls2 : N -> bool) p :
  (forall c, cls c = true -> cls2 c = false) -> rejects (Cls Plus capture cls2 :: p) cls.
Proof. intros H c s caps Hc. cbn. rewrite (H c Hc). reflexivity. Qed.

Lemma rejects_one capture (cls cls2 : N -> bool) p :
  (forall c, cls c = true -> cls2 c = false) -> rejects (Cls One capture cls2 :: p) cls.
Proof. intros H c s caps Hc. cbn. rewrite (H c Hc). reflexivity. Qed.

Lemma matchAtoms_star_exact capture cls p pre rest caps :
  Forall (fun c => cls c = true) pre -> stops cls rest -> rejects p cls ->
  matchAtoms (Cls Star capture cls :: p) (pre ++ rest) caps
  = matchAtoms p rest (pushCapture capture pre caps).
Proof.
  intros Hpre Hstop Hrej. cbn [matchAtoms].
  rewrite greedy_exact; auto.
Qed.

Lemma matchAtoms_plus_exact capture cls p pre rest caps :
  pre <> [] -> Forall (fun c => cls c = true) pre -> stops cls rest -> rejects p cls ->
  matchAtoms (Cls Plus capture cls :: p) (pre ++ rest) caps
  = matchAtoms p rest (pushCapture capture pre caps).
Proof.
  intros Hne Hpre Hstop Hrej. destruct pre as [|c pre]; [contradiction|].
  inversion Hpre as [|? ? Hc Hpre']; subst. cbn [matchAtoms app]. rewrite Hc.
  rewrite greedy_exact; auto.
Qed.

Lemma matchAtoms_plus_first capture cls p pre rest caps r :
  pre <> [] -> Forall (fun c => cls c = true) pre -> stops cls rest ->
  matchAtoms p rest (pushCapture capture pre caps) = Some r ->
  matchAtoms (Cls Plus capture cls :: p) (pre ++ rest) caps = Some r.
Proof.
  intros Hne Hpre Hstop Hr. destruct pre as [|c pre]; [contradiction|].
  inversion Hpre as [|? ? Hc Hpre']; subst. cbn [matchAtoms app]. rewrite Hc.
  apply greedy_first; auto.
Qed.

(** A pattern ending in [\s+(.+)$] adds one capture, if it matches. *)
Lemma last_capture s caps x :
  matchAtoms [Cls Plus false isWhiteSpace; Cls Plus true isDot; EndOfInput] s caps = Some x ->
  exists m2, x = rev (m2 :: caps).
Proof.
  cbn [matchAtoms]. destruct s as [|c s]; [discriminate|].
  destruct (isWhiteSpace c); [|discriminate].
  intros H.
  refine (@greedy_range _ _ _ (fun x => exists m2, x = rev (m2 :: caps)) _ _ _ _ H).
  intros t s1 x1. cbn [pushCapture].
  destruct s1 as [|c1 s1]; [discriminate|].
  destruct (isDot c1); [|discriminate].
  intros H1.
  refine (@greedy_range _ _ _ (fun x => exists m2, x = rev (m2 :: caps)) _ _ _ _ H1).
  intros t2 s2 x2. cbn [pushCapture].
  destruct s2; [|discriminate]. intros H2. injection H2 as <-.
  exists t2. reflexivity.
Qed.

End RegexFacts.

(** ** Digits *)

Module DigitFacts.

Import JS.
Local Open Scope N_scope.

Lemma digitValue_digitChar d : d < 36 -> digitValue (digitChar d) = Some d.
Proof.
  intros Hd. unfold digitValue, digitChar, URI.isDigit.
  destruct (N.ltb_spec d 10).
  - ncase; cbn [andb]. f_equal. lia.
  - ncase; cbn [andb]. f_equal. lia.
Qed.

Lemma radixDigits_digit R d rest a :
  d < R -> R <= 36 ->
  radixDigits R (digitChar d :: rest) a = radixDigits R rest (Some (stateValue a * R + d)).
Proof.
  intros Hd HR. cbn [radixDigits]. rewrite digitValue_digitChar by lia.
  destruct (N.ltb_spec d R); [|lia]. destruct a; reflexivity.
Qed.

Lemma digitsFrom_S f R n acc :
  digitsFrom (S f) R n acc =
  if n <? R then digitChar (n mod R) :: acc
  else digitsFrom f R (n / R) (digitChar (n mod R) :: acc).
Proof. reflexivity. Qed.

Lemma radixDigits_digitsFrom R : 2 <= R <= 36 ->
  forall f n acc a, n < R ^ N.of_nat (S f) ->
  exists k, radixDigits R (digitsFrom (S f) R n acc) a
            = radixDigits R acc (Some (stateValue a * R ^ k + n)).
Proof.
  intros HR. induction f as [|f IH]; intros n acc a Hn.
  - exists 1. cbn [digitsFrom]. change (N.of_nat 1) with 1 in Hn. rewrite N.pow_1_r in *.
    assert (Hm : n mod R = n) by (apply N.mod_small; exact Hn).
    destruct (n <? R); rewrite radixDigits_digit by (try rewrite Hm; lia);
      rewrite Hm; reflexivity.
  - rewrite digitsFrom_S. destruct (N.ltb_spec n R) as [Hlt|Hge].
    + exists 1. rewrite N.pow_1_r.
      assert (Hm : n mod R = n) by (apply N.mod_small; exact Hlt).
      rewrite radixDigits_digit by (try rewrite Hm; lia). rewrite Hm. reflexivity.
    + assert (Hdiv : n / R < R ^ N.of_nat (S f)).
      { apply N.Div0.div_lt_upper_bound.
        replace (N.of_nat (S (S f))) with (N.succ (N.of_nat (S f))) in Hn by lia.
        rewrite N.pow_succ_r' in Hn. exact Hn. }
      destruct (IH (n / R) (digitChar (n mod R) :: acc) a Hdiv) as [k Hk].
      exists (k + 1). rewrite Hk.
      rewrite radixDigits_digit by (try apply N.mod_lt; lia).
      cbn [stateValue]. f_equal. f_equal.
      rewrite N.pow_add_r, N.pow_1_r.
      pose proof (N.div_mod n R ltac:(lia)) as Hdm. nia.
Qed.

Lemma fuel_enough R n : 2 <= R -> n < R ^ N.of_nat (S (N.to_nat (N.log2 n))).
Proof.
  intros HR.
  replace (N.of_nat (S (N.to_nat (N.log2 n)))) with (N.succ (N.log2 n)) by lia.
  apply N.lt_le_trans with (2 ^ N.succ (N.log2 n)).
  - destruct (N.eq_dec n 0) as [->|Hn]; [cbn; lia|].
    apply N.log2_spec. lia.
  - apply N.pow_le_mono_l. exact HR.
Qed.

(** Reading back the digits of a number gives the number. *)
Lemma radixDigits_digits R n :
  2 <= R <= 36 -> radixDigits R (digits R n) None = Some n.
Proof.
  intros HR. unfold digits.
  destruct (@radixDigits_digitsFrom R HR (N.to_nat (N.log2 n)) n [] None) as [k Hk].
  { apply fuel_enough. lia. }
  rewrite Hk. cbn. reflexivity.
Qed.

Lemma digitsFrom_Forall (P : N -> Prop) R :
  (forall d, d < R -> P (digitChar d)) -> 0 < R ->
  forall f n acc, Forall P acc -> Forall P (digitsFrom f R n acc).
Proof.
  intros HP HR. induction f as [|f IH]; intros n acc Hacc; cbn [digitsFrom]; [exact Hacc|].
  assert (Hd : P (digitChar (n mod R))) by (apply HP, N.mod_lt; lia).
  destruct (n <? R); [constructor; assumption|].
  apply IH. constructor; assumption.
Qed.

Lemma digits_Forall (P : N -> Prop) R n :
  (forall d, d < R -> P (digitChar d)) -> 0 < R -> Forall P (digits R n).
Proof. intros HP HR. apply digitsFrom_Forall; auto. Qed.

Lemma digitsFrom_not_nil R f : forall n acc, acc <> [] -> digitsFrom f R n acc <> [].
Proof.
  induction f as [|f IH]; intros n acc Hacc; cbn [digitsFrom]; [exact Hacc|].
  destruct (n <? R); [discriminate|]. apply IH. discriminate.
Qed.

Lemma digits_not_nil R n : digits R n <> [].
Proof.
  unfold digits. rewrite digitsFrom_S.
  destruct (n <? R); [discriminate|]. apply digitsFrom_not_nil. discriminate.
Qed.

Lemma digitChar_isDigit d : d < 10 -> URI.isDigit (digitChar d) = true.
Proof.
  intros Hd. unfold URI.isDigit, digitChar. destruct (N.ltb_spec d 10); [|lia].
  apply andb_true_iff. split; apply N.leb_le; lia.
Qed.

Lemma digitChar_printable d : d < 36 -> URI.printable (digitChar d).
Proof.
  intros Hd. unfold URI.printable, digitChar. destruct (N.ltb_spec d 10); lia.
Qed.

End DigitFacts.

(** ** The registry model *)

Module WinFacts.

Import JS Win CommandFacts.
Local Open Scope N_scope.

Lemma stripPrefix_app p s : stripPrefix p (p ++ s) = Some s.
Proof.
  induction p as [|c p IH]; cbn; [reflexivity|]. rewrite N.eqb_refl. exact IH.
Qed.

Lemma keyChars_tame key : key <> [] -> Forall URI.keyChar key -> tameKey key.
Proof.
  intros Hne Hk. split; [exact Hne|].
  eapply Forall_impl; [|exact Hk]. intros c Hc. split.
  - apply ClassFacts.keyChar_printable. exact Hc.
  - apply ClassFacts.keyChar_plain. exact Hc.
Qed.

Lemma keyOf_path key : tameKey key -> keyOf (sessionKeyPath key) = Some key.
Proof.
  intros [Hne Hk]. unfold keyOf, sessionKeyPath.
  rewrite app_assoc, stripPrefix_app.
  destruct key as [|c key']; [contradiction|]. cbn [isEmpty orb].
  replace (existsb (N.eqb 92) (c :: key')) with false; [reflexivity|].
  symmetry. apply not_true_is_false. intros H.
  apply existsb_exists in H as [x [Hin Hx]]. apply N.eqb_eq in Hx. subst x.
  rewrite Forall_forall in Hk. destruct (Hk _ Hin) as [_ Hb]. contradiction.
Qed.

Lemma keyOf_empty : keyOf (sessionKeyPath []) = None.
Proof. reflexivity. Qed.

Lemma noQuote_path key : Forall URI.keyChar key -> noQuote (sessionKeyPath key).
Proof.
  intros Hk. unfold noQuote, sessionKeyPath.
  apply Forall_app. split; [|apply Forall_app; split].
  - cbn. repeat (apply Forall_cons; [discriminate|]). apply Forall_nil.
  - cbn. repeat (apply Forall_cons; [discriminate|]). apply Forall_nil.
  - eapply Forall_impl; [|exact Hk]. intros c Hc. apply ClassFacts.keyChar_plain. exact Hc.
Qed.

Lemma path_not_root key : jsstring_eqb (sessionKeyPath key) sessionsRoot = false.
Proof.
  apply jsstring_eqb_neq. intros H. apply (f_equal (@length N)) in H.
  unfold sessionKeyPath in H. rewrite !length_app in H. cbn in H. lia.
Qed.

Lemma exec_create key r :
  key <> [] -> Forall URI.keyChar key ->
  exec (createKeyCommand (sessionKeyPath key)) r = applyCommand (AddKey key) r.
Proof.
  intros Hne Hk. unfold exec, createKeyCommand.
  rewrite argv_add_key by (apply noQuote_path; exact Hk).
  unfold parseCommand. rewrite (keyOf_path (keyChars_tame Hne Hk)). reflexivity.
Qed.

Lemma exec_query key r :
  key <> [] -> Forall URI.keyChar key ->
  exec (js "reg query " ++ quote ++ sessionKeyPath key ++ quote) r
  = applyCommand (QueryKey key) r.
Proof.
  intros Hne Hk. unfold exec.
  rewrite argv_query by (apply noQuote_path; exact Hk).
  unfold parseCommand. rewrite path_not_root, (keyOf_path (keyChars_tame Hne Hk)).
  reflexivity.
Qed.

Lemma exec_query_empty r :
  exec (js "reg query " ++ quote ++ sessionKeyPath [] ++ quote) r = (failed, r).
Proof. reflexivity. Qed.

Lemma exec_delete key r :
  key <> [] -> Forall URI.keyChar key ->
  exec (js "reg delete " ++ quote ++ sessionKeyPath key ++ quote ++ js " /f") r
  = applyCommand (DeleteKey key) r.
Proof.
  intros Hne Hk. unfold exec.
  rewrite argv_delete_key by (apply noQuote_path; exact Hk).
  unfold parseCommand. rewrite (keyOf_path (keyChars_tame Hne Hk)). reflexivity.
Qed.

Lemma exec_delete_empty r :
  exec (js "reg delete " ++ quote ++ sessionKeyPath [] ++ quote ++ js " /f") r = (failed, r).
Proof. reflexivity. Qed.

Lemma exec_root r :
  exec (js "reg query " ++ quote ++ sessionsRoot ++ quote) r = applyCommand QueryRoot r.
Proof. reflexivity. Qed.

Ltac solve_bare :=
  cbn; split; [discriminate|];
  repeat (apply Forall_cons; [split; discriminate|]); apply Forall_nil.

Lemma bare_digits n : bare (digits 10 n).
Proof.
  split; [apply DigitFacts.digits_not_nil|].
  apply DigitFacts.digits_Forall; [|lia].
  intros d Hd. unfold digitChar. destruct (N.ltb_spec d 10); lia.
Qed.

Lemma parseDword_digits n : n < 2 ^ 32 -> parseDword (digits 10 n) = Some n.
Proof.
  intros Hn. unfold parseDword.
  replace (forallb URI.isDigit (digits 10 n)) with true.
  - rewrite DigitFacts.radixDigits_digits by lia.
    destruct (N.ltb_spec n (2 ^ 32)); [reflexivity | lia].
  - symmetry. apply forallb_forall. apply Forall_forall.
    apply DigitFacts.digits_Forall; [|lia].
    intros d Hd. apply DigitFacts.digitChar_isDigit. exact Hd.
Qed.

Lemma decimal_nonneg z : (0 <= z)%Z -> decimal z = digits 10 (Z.to_N z).
Proof.
  intros Hz. unfold decimal. destruct (Z.ltb_spec z 0); [lia|].
  f_equal. lia.
Qed.

(** What [reg.exe] makes of one command that sets a value. *)
Lemma exec_set key name_ type data d r quoted :
  key <> [] -> Forall URI.keyChar key -> bare name_ -> bare type ->
  (if quoted : bool then noQuote data else bare data) ->
  dataOf type data = Some d ->
  exec (js "reg add " ++ quote ++ sessionKeyPath key ++ quote ++ js " /v " ++ name_
        ++ js " /t " ++ type ++ js " /d "
        ++ (if quoted then quote ++ data ++ quote ++ js " /f" else data ++ js " /f")) r
  = applyCommand (SetValue key name_ d) r.
Proof.
  intros Hne Hk Hn Ht Hd Hdata. unfold exec.
  assert (Hargv : argv (js "reg add " ++ quote ++ sessionKeyPath key ++ quote ++ js " /v "
                        ++ name_ ++ js " /t " ++ type ++ js " /d "
                        ++ (if quoted then quote ++ data ++ quote ++ js " /f"
                            else data ++ js " /f"))
                  = [js "reg"; js "add"; sessionKeyPath key; js "/v"; name_; js "/t"; type;
                     js "/d"; data; js "/f"]).
  { destruct quoted.
    - apply argv_set_quoted; auto. apply noQuote_path; exact Hk.
    - apply argv_set_bare; auto. apply noQuote_path; exact Hk. }
  rewrite Hargv. unfold parseCommand. rewrite !jsstring_eqb_refl. cbn [andb].
  rewrite (keyOf_path (keyChars_tame Hne Hk)), Hdata. reflexivity.
Qed.

Lemma noQuote_host host : plainHost host -> noQuote host.
Proof.
  intros [_ [_ H]]. eapply Forall_impl; [|exact H]. intros c [Hc _]. exact Hc.
Qed.

(** The four commands of a write, for values the registry tool accepts. *)
Lemma exec_values E key host p protocol closeOnExit :
  key <> [] -> Forall URI.keyChar key -> noQuote host -> (0 <= p < 2 ^ 32)%Z ->
  In protocol protocols -> In closeOnExit closeOnExits ->
  Forall2 (fun cmd c => forall r, exec cmd r = applyCommand c r)
    (valueCommands E (sessionKeyPath key)
       {| HostName := host; PortNumber := ofZ p; Protocol := protocol;
          CloseOnExit := closeOnExit |})
    [SetValue key (js "HostName") (REG_SZ host);
     SetValue key (js "PortNumber") (REG_DWORD (Z.to_N p));
     SetValue key (js "Protocol") (REG_SZ protocol);
     SetValue key (js "CloseOnExit") (REG_SZ closeOnExit)].
Proof.
  intros Hne Hk Hh Hp Hpr Hc. unfold valueCommands.
  cbn [HostName PortNumber Protocol CloseOnExit].
  rewrite numberToString_ofZ by lia. rewrite decimal_nonneg by lia.
  assert (Hbp : bare protocol).
  { cbn in Hpr. repeat (destruct Hpr as [<- | Hpr]; [solve_bare|]). destruct Hpr. }
  assert (Hbc : bare closeOnExit).
  { cbn in Hc. repeat (destruct Hc as [<- | Hc]; [solve_bare|]). destruct Hc. }
  apply Forall2_cons; [|apply Forall2_cons; [|apply Forall2_cons; [|apply Forall2_cons;
    [|apply Forall2_nil]]]]; intros r.
  - apply (@exec_set key (js "HostName") (js "REG_SZ") host (REG_SZ host) r true);
      auto; try solve_bare.
  - apply (@exec_set key (js "PortNumber") (js "REG_DWORD") (digits 10 (Z.to_N p))
             (REG_DWORD (Z.to_N p)) r false); auto; try solve_bare.
    + apply bare_digits.
    + unfold dataOf. change (jsstring_eqb (js "REG_DWORD") (js "REG_SZ")) with false.
      rewrite jsstring_eqb_refl, parseDword_digits by lia. reflexivity.
  - apply (@exec_set key (js "Protocol") (js "REG_SZ") protocol (REG_SZ protocol) r false);
      auto; try solve_bare.
  - apply (@exec_set key (js "CloseOnExit") (js "REG_SZ") closeOnExit (REG_SZ closeOnExit)
             r false); auto; try solve_bare.
Qed.

(** *** Running a write *)

Lemma handle_Exec command w :
  handle (Exec command) w
  = (fst (exec command (hive w)), setHive w (snd (exec command (hive w)))).
Proof. cbn. destruct (exec command (hive w)); reflexivity. Qed.

Lemma run_Exec (A : Type) command (k : execResult -> prog A) w :
  run handle (Do (Exec command) k) w =
  let res := fst (exec command (hive w)) in
  let r := run handle (k res) (setHive w (snd (exec command (hive w)))) in
  {| value := value r; final := final r; events := Event (Exec command) res :: events r |}.
Proof. cbn [run]. rewrite handle_Exec. reflexivity. Qed.

Lemma run_runNext_ok cmds cs : forall w,
  Forall2 (fun cmd c => forall r, exec cmd r = applyCommand c r) cmds cs ->
  Forall (fun c => forall r, error (fst (applyCommand c r)) = None) cs ->
  value (run handle (runNext cmds) w) = Fulfilled tt
  /\ hive (final (run handle (runNext cmds) w)) = after cs (hive w).
Proof.
  intros w H. revert w. induction H as [|cmd c cmds cs Hc H IH]; intros w Hok.
  - split; reflexivity.
  - inversion Hok as [|? ? Hc1 Hok']; subst.
    cbn [runNext]. rewrite run_Exec, Hc. cbv zeta. cbn [value final].
    rewrite (Hc1 (hive w)).
    destruct (IH (setHive w (snd (applyCommand c (hive w)))) Hok') as [Hv Hh].
    split; [exact Hv|]. rewrite Hh. reflexivity.
Qed.

Lemma lookup_upsert (A : Type) k (a : A) l : lookup k (upsert k a l) = Some a.
Proof.
  induction l as [|[k' a'] l IH]; cbn.
  - rewrite jsstring_eqb_refl. reflexivity.
  - destruct (jsstring_eqb k k') eqn:E; cbn; rewrite E; [reflexivity | exact IH].
Qed.

Lemma lookup_upsert_other (A : Type) k m (a : A) l :
  k <> m -> lookup m (upsert k a l) = lookup m l.
Proof.
  intros Hkm. induction l as [|[k' a'] l IH]; cbn.
  - destruct (jsstring_eqb m k) eqn:E; [|reflexivity].
    apply jsstring_eqb_eq in E. congruence.
  - destruct (jsstring_eqb k k') eqn:E; cbn.
    + apply jsstring_eqb_eq in E. subst k'.
      destruct (jsstring_eqb m k) eqn:E2; [|reflexivity].
      apply jsstring_eqb_eq in E2. congruence.
    + rewrite IH. reflexivity.
Qed.

Lemma lookup_app_last (A : Type) k (a : A) l :
  lookup k l = None -> lookup k (l ++ [(k, a)]) = Some a.
Proof.
  induction l as [|[k' a'] l IH]; cbn.
  - intros _. rewrite jsstring_eqb_refl. reflexivity.
  - destruct (jsstring_eqb k k'); [discriminate | exact IH].
Qed.

Lemma lookup_In (A : Type) k (a : A) l : lookup k l = Some a -> In (k, a) l.
Proof.
  induction l as [|[k' a'] l IH]; cbn; [discriminate|].
  destruct (jsstring_eqb k k') eqn:E.
  - apply jsstring_eqb_eq in E. intros H. injection H as <-. left. congruence.
  - intros H. right. exact (IH H).
Qed.

Lemma In_upsert (A : Type) k (a : A) l x :
  In x (upsert k a l) -> x = (k, a) \/ In x l.
Proof.
  induction l as [|[k' a'] l IH]; cbn.
  - intros [<- | []]. left. reflexivity.
  - destruct (jsstring_eqb k k') eqn:E; cbn.
    + apply jsstring_eqb_eq in E. subst k'. intros [<- | H]; auto.
    + intros [<- | H]; auto. destruct (IH H); auto.
Qed.

Lemma NoDup_upsert (A : Type) k (a : A) l :
  NoDup (map fst l) -> NoDup (map fst (upsert k a l)).
Proof.
  induction l as [|[k' a'] l IH]; cbn; intros H.
  - constructor; [intros [] | constructor].
  - inversion H as [|? ? Hnin Hnd]; subst.
    destruct (jsstring_eqb k k') eqn:E; cbn.
    + constructor; assumption.
    + constructor; [|exact (IH Hnd)].
      intros Hin. apply in_map_iff in Hin as [[k2 a2] [Hk2 Hin]]. cbn in Hk2. subst k2.
      apply In_upsert in Hin as [Heq | Hin].
      * injection Heq as -> _. rewrite jsstring_eqb_refl in E. discriminate.
      * apply Hnin. apply in_map_iff. exists (k', a2). split; [reflexivity | exact Hin].
Qed.

Lemma Forall_upsert (A : Type) (P : jsstring * A -> Prop) k (a : A) l :
  P (k, a) -> Forall P l -> Forall P (upsert k a l).
Proof.
  intros Hk. induction l as [|[k' a'] l IH]; cbn; intros H.
  - constructor; [exact Hk | constructor].
  - inversion H as [|? ? Hx Hl]; subst.
    destruct (jsstring_eqb k k') eqn:E.
    + apply jsstring_eqb_eq in E. subst k'. constructor; assumption.
    + constructor; [exact Hx | exact (IH Hl)].
Qed.

(** With distinct names, the value found under a name is the only one
    of that name. *)
Lemma lookup_unique (A : Type) k (a b : A) l :
  NoDup (map fst l) -> lookup k l = Some a -> In (k, b) l -> b = a.
Proof.
  induction l as [|[k' a'] l IH]; cbn; intros Hnd Hl Hin; [destruct Hin|].
  inversion Hnd as [|? ? Hnin Hnd']; subst.
  destruct (jsstring_eqb k k') eqn:E.
  - apply jsstring_eqb_eq in E. subst k'. injection Hl as <-.
    destruct Hin as [Heq | Hin]; [congruence|].
    exfalso. apply Hnin. apply in_map_iff. exists (k, b). split; [reflexivity | exact Hin].
  - destruct Hin as [Heq | Hin].
    + injection Heq as -> _. rewrite jsstring_eqb_refl in E. discriminate.
    + exact (IH Hnd' Hl Hin).
Qed.

(** *** The output of a query, line by line *)

Lemma splitLines_line l : forall cur rest,
  Forall (fun c => c <> 10) l ->
  splitLines cur (l ++ 13 :: 10 :: rest) = (rev cur ++ l) :: splitLines [] rest.
Proof.
  induction l as [|c l IH]; intros cur rest Hl.
  - cbn. rewrite app_nil_r. reflexivity.
  - inversion Hl as [|? ? Hc Hl']; subst. cbn [app splitLines].
    destruct (N.eqb_spec c 10); [contradiction|].
    assert (Hnext : splitLines (c :: cur) (l ++ 13 :: 10 :: rest)
                    = (rev cur ++ c :: l) :: splitLines [] rest).
    { rewrite IH by assumption. cbn [rev]. rewrite <- app_assoc. reflexivity. }
    destruct l as [|d l']; cbn [app].
    + rewrite andb_false_r. exact Hnext.
    + inversion Hl' as [|? ? Hd _]; subst.
      destruct (N.eqb_spec d 10); [contradiction|]. rewrite andb_false_r. exact Hnext.
Qed.

Lemma splitLines_blank rest : splitLines [] (13 :: 10 :: rest) = [] :: splitLines [] rest.
Proof. reflexivity. Qed.

Lemma printValue_line v : printValue v = valueLineOf v ++ crlf.
Proof. unfold printValue, valueLineOf. rewrite <- !app_assoc. reflexivity. Qed.

Lemma splitLines_values vals :
  Forall (fun v => Forall (fun c => c <> 10) (valueLineOf v)) vals ->
  splitLines [] (flat_map printValue vals ++ crlf) = map valueLineOf vals ++ [[]; []].
Proof.
  induction vals as [|v vals IH]; intros H.
  - reflexivity.
  - inversion H as [|? ? Hv Hvals]; subst. cbn [flat_map map app].
    rewrite printValue_line, <- !app_assoc. unfold crlf at 1. cbn [app].
    rewrite splitLines_line by assumption. cbn [rev app]. f_equal. exact (IH Hvals).
Qed.

Lemma splitLines_printKey key vals :
  Forall (fun c => c <> 10) key ->
  Forall (fun v => Forall (fun c => c <> 10) (valueLineOf v)) vals ->
  splitLines [] (printKey key vals)
  = [] :: (hkcuSessions ++ backslash ++ key) :: map valueLineOf vals ++ [[]; []].
Proof.
  intros Hk Hv. unfold printKey. unfold crlf at 1. cbn [app].
  rewrite splitLines_blank. f_equal.
  assert (Hh : Forall (fun c => c <> 10) (hkcuSessions ++ backslash ++ key)).
  { apply Forall_app. split; [|apply Forall_app; split]; try exact Hk;
      cbn; repeat (apply Forall_cons; [discriminate|]); apply Forall_nil. }
  replace (hkcuSessions ++ backslash ++ key ++ crlf ++ flat_map printValue vals ++ crlf)
    with ((hkcuSessions ++ backslash ++ key) ++ 13 :: 10 :: (flat_map printValue vals ++ crlf))
    by (rewrite <- !app_assoc; reflexivity).
  rewrite splitLines_line by exact Hh. cbn [rev app]. f_equal.
  apply splitLines_values. exact Hv.
Qed.

(** *** One value line under the pattern of [readSessionValues] *)

Import SearchConnections RegexFacts.

Lemma matchAtoms_chr c p s caps :
  matchAtoms (chr c :: p) (c :: s) caps = matchAtoms p s caps.
Proof. unfold chr. cbn [matchAtoms]. rewrite N.eqb_refl. reflexivity. Qed.

Ltac solve_word :=
  split; [discriminate|]; cbn;
  repeat (apply Forall_cons; [reflexivity|]); apply Forall_nil.

Lemma indent_spaces : Forall (fun c => isWhiteSpace c = true) indent.
Proof. cbn. repeat (apply Forall_cons; [reflexivity|]). apply Forall_nil. Qed.

Lemma stops_word_indent rest : stops isWord (indent ++ rest).
Proof. reflexivity. Qed.

Lemma stops_upper_indent rest : stops isUpperWord (indent ++ rest).
Proof. reflexivity. Qed.

Lemma stops_space_word name rest :
  plainName name -> stops isWhiteSpace (name ++ rest).
Proof.
  intros [Hne Hw]. destruct name as [|c name]; [contradiction|].
  inversion Hw; subst. cbn. apply ClassFacts.printable_not_space, ClassFacts.isWord_printable.
  assumption.
Qed.

(** The pattern finds the name of the value and goes on to the data:
    every other way to split the line fails before it gets there. *)
Lemma match_value_line name d :
  plainName name ->
  matchAtoms (atoms valueLine) (valueLineOf (name, d)) []
  = matchAtoms [Cls Plus false isWhiteSpace; Cls Plus true isDot; EndOfInput]
      (indent ++ dataText d) [name].
Proof.
  intros Hn. pose proof Hn as [Hne Hw]. unfold valueLineOf, valueLine. cbn [atoms fst snd].
  cbn [app lit map js list_ascii_of_string].
  rewrite matchAtoms_star_exact;
    [| exact indent_spaces | apply stops_space_word; exact Hn
     | apply rejects_plus; exact ClassFacts.isWhiteSpace_not_word].
  rewrite matchAtoms_plus_exact;
    [| exact Hne | exact Hw | apply stops_word_indent
     | apply rejects_plus; intros c Hc;
       apply ClassFacts.printable_not_space, ClassFacts.isWord_printable; exact Hc].
  rewrite matchAtoms_plus_exact;
    [| discriminate | exact indent_spaces | destruct d; reflexivity
     | apply rejects_one; intros c Hc; apply ClassFacts.isWhiteSpace_not;
       [unfold URI.printable; cbn; lia | exact Hc]].
  change (N_of_ascii "R") with 82. change (N_of_ascii "E") with 69.
  change (N_of_ascii "G") with 71. change (N_of_ascii "_") with 95.
  assert (Hup : rejects [Cls Plus false isWhiteSpace; Cls Plus true isDot; EndOfInput]
                  isUpperWord).
  { apply rejects_plus. intros c Hc.
    apply ClassFacts.printable_not_space, ClassFacts.isUpperWord_printable. exact Hc. }
  destruct d as [s | n]; unfold printData; cbn [typeName].
  - change (js "REG_SZ" ++ indent ++ dataText (REG_SZ s))
      with (82 :: 69 :: 71 :: 95 :: ([83; 90] ++ indent ++ dataText (REG_SZ s))).
    rewrite !matchAtoms_chr.
    rewrite matchAtoms_plus_exact;
      [reflexivity | discriminate
       | repeat (apply Forall_cons; [reflexivity|]); apply Forall_nil
       | apply stops_upper_indent | exact Hup].
  - change (js "REG_DWORD" ++ indent ++ dataText (REG_DWORD n))
      with (82 :: 69 :: 71 :: 95 :: ([68; 87; 79; 82; 68] ++ indent ++ dataText (REG_DWORD n))).
    rewrite !matchAtoms_chr.
    rewrite matchAtoms_plus_exact;
      [reflexivity | discriminate
       | repeat (apply Forall_cons; [reflexivity|]); apply Forall_nil
       | apply stops_upper_indent | exact Hup].
Qed.

(** A value line gives its own name, or nothing. *)
Lemma readLine_value acc name d :
  plainName name ->
  readLine acc (valueLineOf (name, d)) = acc
  \/ exists m2, readLine acc (valueLineOf (name, d)) = assign name (trim m2) acc.
Proof.
  intros Hn. unfold readLine, regexMatch. cbn [anchored].
  rewrite (match_value_line d Hn).
  destruct (matchAtoms _ (indent ++ dataText d) [name]) as [x|] eqn:E; [|left; reflexivity].
  apply last_capture in E as [m2 ->]. cbn [rev app]. right. exists m2. reflexivity.
Qed.

(** Data that neither starts with white space nor holds a line terminator
    is captured whole. *)
Lemma readLine_data acc name d :
  plainName name -> dataText d <> [] -> headFree (dataText d) ->
  Forall (fun c => isDot c = true) (dataText d) ->
  readLine acc (valueLineOf (name, d)) = assign name (trim (dataText d)) acc.
Proof.
  intros Hn Hne Hh Hdot. unfold readLine, regexMatch. cbn [anchored].
  rewrite (match_value_line d Hn).
  rewrite (@matchAtoms_plus_first false isWhiteSpace _ indent (dataText d) [name]
             [name; dataText d]).
  - reflexivity.
  - discriminate.
  - exact indent_spaces.
  - destruct (dataText d) as [|c t]; [exact I | exact Hh].
  - cbn [pushCapture]. rewrite <- (app_nil_r (dataText d)) at 1.
    apply matchAtoms_plus_first; auto. exact I.
Qed.

(** *** The fields of the record read back *)

Lemma HostName_assign n v acc :
  HostName (assign n v acc) = if jsstring_eqb n (js "HostName") then v else HostName acc.
Proof.
  unfold assign.
  destruct (jsstring_eqb n (js "HostName")), (jsstring_eqb n (js "PortNumber")),
    (jsstring_eqb n (js "Protocol")), (jsstring_eqb n (js "CloseOnExit")); reflexivity.
Qed.

Lemma PortNumber_assign n v acc :
  PortNumber (assign n v acc) =
  if jsstring_eqb n (js "PortNumber")
  then (if regexTest hexPrefix v then parseInt v 16 else parseInt v 10)
  else PortNumber acc.
Proof.
  unfold assign.
  destruct (jsstring_eqb n (js "HostName")), (jsstring_eqb n (js "PortNumber")),
    (jsstring_eqb n (js "Protocol")), (jsstring_eqb n (js "CloseOnExit")); reflexivity.
Qed.

Lemma Protocol_assign n v acc :
  Protocol (assign n v acc) = if jsstring_eqb n (js "Protocol") then v else Protocol acc.
Proof.
  unfold assign.
  destruct (jsstring_eqb n (js "HostName")), (jsstring_eqb n (js "PortNumber")),
    (jsstring_eqb n (js "Protocol")), (jsstring_eqb n (js "CloseOnExit")); reflexivity.
Qed.

Lemma CloseOnExit_assign n v acc :
  CloseOnExit (assign n v acc) =
  if jsstring_eqb n (js "CloseOnExit") then v else CloseOnExit acc.
Proof.
  unfold assign.
  destruct (jsstring_eqb n (js "HostName")), (jsstring_eqb n (js "PortNumber")),
    (jsstring_eqb n (js "Protocol")), (jsstring_eqb n (js "CloseOnExit")); reflexivity.
Qed.

Section Field.

Variable T : Type.
Variable proj : SessionValues -> T.
Variable field : jsstring.
Variable target : T.

Hypothesis proj_other :
  forall n v acc, jsstring_eqb n field = false -> proj (assign n v acc) = proj acc.

(** A field keeps its value over the lines of other values, and has the
    target value once a line of its own name was read, if every such line
    sets it to the target. *)
Lemma fold_field vals : forall acc,
  Forall (fun v => plainName (fst v)) vals ->
  (forall v acc', In v vals -> fst v = field ->
     proj (readLine acc' (valueLineOf v)) = target) ->
  (proj acc = target \/ exists d, In (field, d) vals) ->
  proj (fold_left readLine (map valueLineOf vals) acc) = target.
Proof.
  induction vals as [|[n d] vals IH]; intros acc Hplain Hset Hin.
  - destruct Hin as [H | [d []]]. exact H.
  - inversion Hplain as [|? ? Hn Hplain']; subst. cbn [fst] in Hn. cbn [map fold_left].
    apply IH; [exact Hplain' | |].
    + intros v acc' Hv. apply Hset. right. exact Hv.
    + destruct (jsstring_eqb n field) eqn:E.
      * apply jsstring_eqb_eq in E. left. apply Hset; [left; reflexivity | exact E].
      * destruct Hin as [Hacc | [d' [Heq | Hin]]].
        { left. destruct (readLine_value acc d Hn) as [-> | [m2 ->]]; [exact Hacc|].
          rewrite proj_other by exact E. exact Hacc. }
        { injection Heq as -> _. rewrite jsstring_eqb_refl in E. discriminate. }
        { right. exists d'. exact Hin. }
Qed.

End Field.

Lemma trim_plain s : Forall (fun c => isWhiteSpace c = false) s -> trim s = s.
Proof.
  intros H. apply TrimFacts.trim_fixed.
  - destruct H; [exact I | assumption].
  - apply Forall_rev in H. destruct H; [exact I | assumption].
Qed.

Lemma parseInt_hex n :
  n < 2 ^ 53 -> parseInt (js "0x" ++ digits 16 n) 16 = ofZ (Z.of_N n).
Proof.
  intros Hn. pose proof (@DigitFacts.radixDigits_digits 16 n ltac:(lia)) as Hd.
  generalize dependent (digits 16 n). intros ds Hd.
  unfold parseInt. cbn. rewrite Hd. unfold roundInteger.
  destruct (Z.ltb_spec (Z.abs (Z.of_N n)) (2 ^ 53)); [reflexivity | lia].
Qed.

Lemma dword_text n :
  dataText (REG_DWORD n) <> [] /\ headFree (dataText (REG_DWORD n))
  /\ Forall (fun c => isDot c = true) (dataText (REG_DWORD n))
  /\ trim (dataText (REG_DWORD n)) = dataText (REG_DWORD n).
Proof.
  assert (Hp : Forall URI.printable (dataText (REG_DWORD n))).
  { cbn [dataText]. apply Forall_app. split.
    - cbn. repeat (apply Forall_cons; [unfold URI.printable; lia|]). apply Forall_nil.
    - apply DigitFacts.digits_Forall; [|lia].
      intros d Hd. apply DigitFacts.digitChar_printable. lia. }
  split; [discriminate|]. split; [reflexivity|]. split.
  - eapply Forall_impl; [|exact Hp]. intros c. apply ClassFacts.printable_isDot.
  - apply trim_plain. eapply Forall_impl; [|exact Hp].
    intros c. apply ClassFacts.printable_not_space.
Qed.

Lemma readLine_port acc n :
  n < 2 ^ 53 ->
  PortNumber (readLine acc (valueLineOf (js "PortNumber", REG_DWORD n))) = ofZ (Z.of_N n).
Proof.
  intros Hn. destruct (dword_text n) as [H1 [H2 [H3 H4]]].
  rewrite readLine_data; auto; [|solve_word].
  rewrite H4, PortNumber_assign, jsstring_eqb_refl.
  cbn [dataText]. change (regexTest hexPrefix (js "0x" ++ digits 16 n)) with true.
  apply parseInt_hex. exact Hn.
Qed.

(** *** A write followed by a read *)

Lemma Encode_not_nil s e : URI.Encode s = Some e -> s <> [] -> e <> [].
Proof.
  destruct s as [|c rest]; [intros _ H; contradiction H; reflexivity|].
  intros He _. cbn [URI.Encode] in He.
  destruct (URI.uriUnescaped c).
  { destruct (URI.Encode rest); [|discriminate]. injection He as <-. discriminate. }
  assert (Hesc : forall cp t, URI.escape cp ++ t <> []).
  { intros cp t H. apply (f_equal (@length N)) in H. rewrite length_app in H.
    pose proof (URIFacts.escape_length cp). cbn in H. lia. }
  destruct (URI.isLeadingSurrogate c).
  { destruct rest as [|d rest']; [discriminate|].
    destruct (URI.isTrailingSurrogate d); [|discriminate].
    destruct (URI.Encode rest'); [|discriminate]. injection He as <-. apply Hesc. }
  destruct (URI.isTrailingSurrogate c); [discriminate|].
  destruct (URI.Encode rest); [|discriminate]. injection He as <-. apply Hesc.
Qed.

(** What the encoder returns for a name that is not empty can stand in a
    command line and names a key. *)
Lemma encoded_key name key :
  encodeSessionKey name = Some key -> name <> [] -> wfString name ->
  key <> [] /\ Forall URI.keyChar key.
Proof.
  intros He Hne Hwf. split.
  - exact (Encode_not_nil He Hne).
  - exact (@ClassFacts.Encode_keyChars (length name) name (le_n _) Hwf key He).
Qed.

Lemma lookup_after_write key host p protocol closeOnExit r :
  lookup key
    (after [AddKey key;
            SetValue key (js "HostName") (REG_SZ host);
            SetValue key (js "PortNumber") (REG_DWORD (Z.to_N p));
            SetValue key (js "Protocol") (REG_SZ protocol);
            SetValue key (js "CloseOnExit") (REG_SZ closeOnExit)] r)
  = Some (storedValues host p protocol closeOnExit
            (match lookup key r with Some v => v | None => [] end)).
Proof.
  unfold after. cbn [fold_left].
  assert (Hadd : lookup key (snd (applyCommand (AddKey key) r))
                 = Some (match lookup key r with Some v => v | None => [] end)).
  { cbn. destruct (lookup key r) eqn:E; [exact E|]. apply lookup_app_last. exact E. }
  assert (Hset : forall n d r' v, lookup key r' = Some v ->
            lookup key (snd (applyCommand (SetValue key n d) r')) = Some (upsert n d v)).
  { intros n d r' v Hl. cbn. rewrite Hl. apply lookup_upsert. }
  unfold storedValues.
  repeat (apply Hset). exact Hadd.
Qed.

Lemma readLine_blank acc : readLine acc [] = acc.
Proof. reflexivity. Qed.

Lemma readLine_header acc key : readLine acc (hkcuSessions ++ backslash ++ key) = acc.
Proof. reflexivity. Qed.

Lemma tame_line v :
  plainName (fst v) -> noLineFeed (snd v) -> Forall (fun c => c <> 10) (valueLineOf v).
Proof.
  intros [_ Hn] Hd. unfold valueLineOf, printData.
  assert (Hi : Forall (fun c => c <> 10) indent)
    by (cbn; repeat (apply Forall_cons; [discriminate|]); apply Forall_nil).
  repeat (apply Forall_app; split); try exact Hi.
  - eapply Forall_impl; [|exact Hn]. intros c Hc ->. discriminate Hc.
  - destruct (snd v); cbn; repeat (apply Forall_cons; [discriminate|]); apply Forall_nil.
  - destruct (snd v) as [s|n]; [exact Hd|].
    destruct (dword_text n) as [_ [_ [Hdot _]]].
    eapply Forall_impl; [|exact Hdot]. intros c Hc ->. discriminate Hc.
Qed.

(** Reading the output of a query for a key with tame values. *)
Lemma parseValues_printKey key vals :
  Forall (fun c => c <> 10) key ->
  Forall (fun v => plainName (fst v) /\ noLineFeed (snd v)) vals ->
  parseValues (printKey key vals) = fold_left readLine (map valueLineOf vals) defaults.
Proof.
  intros Hk Hv. unfold parseValues. rewrite splitLines_printKey.
  - cbn [fold_left]. rewrite readLine_blank, readLine_header, fold_left_app.
    cbn [fold_left]. rewrite !readLine_blank. reflexivity.
  - exact Hk.
  - eapply Forall_impl; [|exact Hv]. intros v [H1 H2]. apply tame_line; assumption.
Qed.

Lemma values_eq (a b : SessionValues) :
  HostName a = HostName b -> PortNumber a = PortNumber b ->
  Protocol a = Protocol b -> CloseOnExit a = CloseOnExit b -> a = b.
Proof. destruct a, b. cbn. intros -> -> -> ->. reflexivity. Qed.

Lemma plain_text s :
  s <> [] -> Forall URI.printable s ->
  dataText (REG_SZ s) <> [] /\ headFree (dataText (REG_SZ s))
  /\ Forall (fun c => isDot c = true) (dataText (REG_SZ s))
  /\ trim (dataText (REG_SZ s)) = s.
Proof.
  intros Hne Hp. cbn [dataText]. split; [exact Hne|].
  assert (Hws : Forall (fun c => isWhiteSpace c = false) s).
  { eapply Forall_impl; [|exact Hp]. intros c. apply ClassFacts.printable_not_space. }
  split; [destruct Hws; [exact I | assumption]|]. split.
  - eapply Forall_impl; [|exact Hp]. intros c. apply ClassFacts.printable_isDot.
  - apply trim_plain. exact Hws.
Qed.

Lemma enumerated_text s :
  In s protocols \/ In s closeOnExits -> s <> [] /\ Forall URI.printable s.
Proof.
  intros [H | H]; cbn in H;
    repeat (destruct H as [<- | H];
      [split; [discriminate|];
       repeat (apply Forall_cons; [unfold URI.printable; cbn; lia|]); apply Forall_nil|]);
    destruct H.
Qed.

Lemma host_text host :
  plainHost host ->
  dataText (REG_SZ host) <> [] /\ headFree (dataText (REG_SZ host))
  /\ Forall (fun c => isDot c = true) (dataText (REG_SZ host))
  /\ trim (dataText (REG_SZ host)) = host.
Proof.
  intros [Hne [[Hh Hl] Hc]]. cbn [dataText]. split; [exact Hne|]. split; [exact Hh|]. split.
  - eapply Forall_impl; [|exact Hc]. intros c [_ Ht]. unfold isDot. rewrite Ht. reflexivity.
  - apply TrimFacts.trim_fixed; assumption.
Qed.

End WinFacts.

(** ** What [Number] makes of the port field *)

Module NumberFacts.

Import JS.
Local Open Scope N_scope.

Lemma isDigit_range c : URI.isDigit c = true -> 48 <= c <= 57.
Proof.
  unfold URI.isDigit. intros H. apply andb_true_iff in H as [H1 H2].
  apply N.leb_le in H1. apply N.leb_le in H2. lia.
Qed.

Lemma isDigit_not_space c : URI.isDigit c = true -> isWhiteSpace c = false.
Proof.
  intros H. apply ClassFacts.printable_not_space. apply isDigit_range in H.
  unfold URI.printable. lia.
Qed.

Lemma takeDigits_all ds :
  Forall (fun c => URI.isDigit c = true) ds -> takeDigits ds = (ds, []).
Proof.
  induction 1 as [|c ds Hc _ IH]; [reflexivity|].
  cbn [takeDigits]. rewrite Hc, IH. reflexivity.
Qed.

(** A run of digits is the literal of the number it denotes. *)
Lemma unsignedDecimal_digits ds n :
  ds <> [] -> Forall (fun c => URI.isDigit c = true) ds ->
  radixDigits 10 ds None = Some n ->
  unsignedDecimal ds = Some (n, 0%Z).
Proof.
  intros Hne Hd Hv. unfold unsignedDecimal. rewrite (takeDigits_all Hd).
  rewrite app_nil_r. destruct ds as [|c ds]; [contradiction|].
  cbn [exponentPart length Z.of_nat]. unfold digitsValue. rewrite Hv. reflexivity.
Qed.

Lemma nonDecimal_digits ds :
  Forall (fun c => URI.isDigit c = true) ds -> nonDecimal ds = None.
Proof.
  intros Hd. destruct ds as [|z [|p rest]]; try reflexivity.
  inversion Hd as [|? ? _ Hd']; subst. inversion Hd' as [|? ? Hp _]; subst.
  apply isDigit_range in Hp. cbn [nonDecimal].
  destruct (z =? 48); [|reflexivity].
  repeat match goal with
  | |- context [N.eqb p ?b] => destruct (N.eqb_spec p b); [lia|]
  end.
  reflexivity.
Qed.

Lemma not_Infinity ds :
  Forall (fun c => URI.isDigit c = true) ds -> jsstring_eqb ds (js "Infinity") = false.
Proof.
  intros Hd. apply jsstring_eqb_neq. intros ->.
  inversion Hd as [|? ? H _]; subst. discriminate H.
Qed.

(** The text of an integer is read as the Number of that integer. *)
Lemma StringToNumber_decimal z : StringToNumber (decimal z) = roundInteger z.
Proof.
  unfold decimal.
  assert (Hd : Forall (fun c => URI.isDigit c = true) (digits 10 (Z.abs_N z))).
  { apply DigitFacts.digits_Forall; [|reflexivity].
    intros c Hc. apply DigitFacts.digitChar_isDigit. exact Hc. }
  pose proof (@DigitFacts.digits_not_nil 10 (Z.abs_N z)) as Hne.
  pose proof (@DigitFacts.radixDigits_digits 10 (Z.abs_N z) ltac:(lia)) as Hv.
  assert (Hws : Forall (fun c => isWhiteSpace c = false) (digits 10 (Z.abs_N z))).
  { eapply Forall_impl; [|exact Hd]. intros c. apply isDigit_not_space. }
  generalize dependent (digits 10 (Z.abs_N z)). intros ds Hd Hne Hv Hws.
  destruct (Z.ltb_spec z 0) as [Hz | Hz]; unfold StringToNumber.
  - rewrite WinFacts.trim_plain by (apply Forall_cons; [reflexivity | exact Hws]).
    assert (Hnd : nonDecimal (45 :: ds) = None) by (destruct ds; reflexivity).
    rewrite Hnd. change (45 =? 45) with true. cbv iota beta.
    rewrite (not_Infinity Hd), (unsignedDecimal_digits Hne Hd Hv).
    unfold decimalValue. cbn [Z.leb Z.compare]. f_equal.
    rewrite Z.pow_0_r, Z.mul_1_r. lia.
  - rewrite WinFacts.trim_plain by exact Hws.
    rewrite (nonDecimal_digits Hd).
    destruct ds as [|c rest] eqn:Eds; [contradiction|].
    assert (Hc : 48 <= c <= 57).
    { inversion Hd as [|? ? H _]; subst. apply isDigit_range. exact H. }
    destruct (N.eqb_spec c 45); [lia|]. destruct (N.eqb_spec c 43); [lia|].
    cbv iota beta.
    rewrite <- Eds in *. rewrite (not_Infinity Hd), (unsignedDecimal_digits Hne Hd Hv).
    unfold decimalValue. cbn [Z.leb Z.compare]. f_equal.
    rewrite Z.pow_0_r, Z.mul_1_r. lia.
Qed.

(** A blank text is read as 0. *)
Lemma StringToNumber_blank s : forallb isWhiteSpace s = true -> StringToNumber s = ofZ 0.
Proof. intros H. unfold StringToNumber. rewrite (TrimFacts.trim_all s H). reflexivity. Qed.

(** Trimming keeps the first character that is no white space. *)
Lemma trim_head s c r : trimStart s = c :: r -> exists r', trim s = c :: r'.
Proof.
  intros E. unfold trim, trimEnd. rewrite E.
  pose proof (TrimFacts.trimStart_headFree s) as Hh. rewrite E in Hh. cbn in Hh.
  destruct (TrimFacts.trimStart_suffix (rev (c :: r))) as [p [Hp Hw]].
  apply (f_equal (@rev N)) in Hp. rewrite rev_involutive, rev_app_distr in Hp.
  destruct (rev (trimStart (rev (c :: r)))) as [|c' r'] eqn:Et.
  - cbn in Hp. rewrite <- TrimFacts.forallb_rev in Hw. rewrite <- Hp in Hw.
    cbn in Hw. rewrite Hh in Hw. discriminate Hw.
  - cbn in Hp. injection Hp as -> _. exists r'. reflexivity.
Qed.

(** A text that does not start like a numeric literal is read as NaN. *)
Lemma StringToNumber_notNumeric s : notNumeric s -> StringToNumber s = NaN.
Proof.
  unfold notNumeric. destruct (trimStart s) as [|c r] eqn:E; [contradiction|].
  intros [Hd [H43 [H45 [H46 H73]]]].
  destruct (trim_head s E) as [r' Ht].
  unfold StringToNumber. rewrite Ht.
  assert (H48 : c <> 48) by (intros ->; discriminate Hd).
  assert (Hnd : nonDecimal (c :: r') = None).
  { destruct r' as [|p rest]; [reflexivity|]. cbn [nonDecimal].
    destruct (N.eqb_spec c 48); [contradiction | reflexivity]. }
  rewrite Hnd.
  destruct (N.eqb_spec c 45); [contradiction|]. destruct (N.eqb_spec c 43); [contradiction|].
  cbv iota beta.
  assert (Hinf : jsstring_eqb (c :: r') (js "Infinity") = false).
  { apply jsstring_eqb_neq. intros H. injection H as H _. contradiction. }
  rewrite Hinf. unfold unsignedDecimal. cbn [takeDigits]. rewrite Hd.
  destruct (N.eqb_spec c 46); [contradiction|]. reflexivity.
Qed.

(** The Number of an integer outside 1..65535 does not pass the check,
    however it is rounded. *)
Lemma invalidPort_roundInteger z :
  (z <= 0 \/ 65535 < z)%Z -> invalidPort (roundInteger z) = true.
Proof.
  intros Hz. unfold roundInteger.
  destruct (Z.ltb_spec (Z.abs z) (2 ^ 53)) as [Ha | Ha].
  - rewrite invalidPort_ofZ. apply negb_true_iff, andb_false_iff.
    destruct Hz; [left; apply Z.leb_gt | right; apply Z.leb_gt]; lia.
  - cbv zeta.
    set (a := Z.abs z) in *. set (e := (Z.log2 a - 52)%Z).
    set (m := Z.shiftr a e).
    set (m' := if (_ || _)%bool then (m + 1)%Z else m).
    destruct (2 ^ 1024 <=? Z.shiftl m' e)%Z; [reflexivity|].
    rewrite invalidPort_ofZ. apply negb_true_iff, andb_false_iff.
    assert (Hlog : (53 <= Z.log2 a)%Z).
    { change 53%Z with (Z.log2 (2 ^ 53)). apply Z.log2_le_mono. exact Ha. }
    assert (He : (1 <= e)%Z) by (subst e; lia).
    assert (Hpow : (0 < 2 ^ e)%Z) by (apply Z.pow_pos_nonneg; lia).
    assert (Hm : (2 ^ 52 <= m)%Z).
    { subst m. rewrite Z.shiftr_div_pow2 by lia.
      apply Z.div_le_lower_bound; [exact Hpow|].
      rewrite <- Z.pow_add_r by lia. replace (e + 52)%Z with (Z.log2 a) by (subst e; lia).
      apply Z.log2_spec. lia. }
    assert (Hm' : (m <= m')%Z) by (subst m'; destruct (_ || _)%bool; lia).
    assert (Hv : (2 ^ 52 <= Z.shiftl m' e)%Z).
    { rewrite Z.shiftl_mul_pow2 by lia. nia. }
    destruct (Z.sgn_spec z) as [[Hs Hsg] | [[Hs Hsg] | [Hs Hsg]]]; rewrite Hsg.
    + right. apply Z.leb_gt. lia.
    + subst z. cbn in Ha. lia.
    + left. apply Z.leb_gt. lia.
Qed.

End NumberFacts.

(** C3, as amended: with [Number] as ECMA-262 defines it, a submission of
    the create form or of the edit form makes one call only, the failure
    toast of the validation, and gives no command to the registry tool,
    when the host is empty, or when the port field holds the decimal text
    of an integer outside 1..65535 (0 and 65536 are such), is blank, does
    not start like a numeric literal, or, generally, is read as a Number
    that is no integer from 1 to 65535.  The text is judged by the double
    nearest to its value, not by its digits. *)
Theorem invalid_submission_writes_nothing
    (E : JS.Engine) (World : Type) (handle : forall X, call X -> World -> X * World)
    (w : World) (puttyPath sessionName host port protocol closeOnExit : jsstring)
    (save : bool) (savedName : option jsstring) :
  (forall s, JS.Number E s = JS.StringToNumber s) ->
  (host = []
   \/ (exists z, port = JS.decimal z /\ (z <= 0 \/ 65535 < z)%Z)
   \/ forallb JS.isWhiteSpace port = true
   \/ JS.notNumeric port
   \/ JS.isInteger (JS.StringToNumber port) = false
   \/ exists q, JS.StringToNumber port = JS.Finite q /\ (q <= 0 \/ 65535 < q)%Q) ->
  let shown :=
    Event (ShowToast {| style := Failure;
                        title := if isEmpty host then js "Host is required"
                                 else js "Invalid port";
                        message := None |}) tt in
  let created :=
    run handle (AddConnection.handleSubmit E puttyPath
      {| AddConnection.host := host; AddConnection.port := port;
         AddConnection.protocol := protocol; AddConnection.closeOnExit := closeOnExit;
         AddConnection.save := save; AddConnection.savedName := savedName |}) w in
  let edited :=
    run handle (SearchConnections.EditConnectionForm.handleSubmit E sessionName puttyPath
      {| SearchConnections.host := host; SearchConnections.port := port;
         SearchConnections.protocol := protocol;
         SearchConnections.closeOnExit := closeOnExit |}) w in
  events created = [shown] /\ events edited = [shown]
  /\ existsb isExec (events created) = false /\ existsb isExec (events edited) = false.
Proof.
  intros HE Hbad.
  apply blocked_submission. rewrite HE.
  assert (Hinv : forall x, invalidPort x = true ->
            JS.isInteger x = false
            \/ exists q, x = JS.Finite q /\ (q <= 0 \/ 65535 < q)%Q).
  { intros x Hx. unfold invalidPort in Hx.
    destruct (JS.isInteger x) eqn:Ei; [|left; reflexivity]. right.
    destruct x as [| b | q]; try discriminate Ei. exists q. split; [reflexivity|].
    cbn [negb orb] in Hx. apply orb_true_iff in Hx as [Hx | Hx].
    - left. unfold JS.lessEq, JS.ofZ in Hx. apply Qle_bool_iff in Hx. exact Hx.
    - right. unfold JS.greater, JS.ofZ in Hx. apply negb_true_iff in Hx.
      apply Qnot_le_lt. intros Hle. apply Qle_bool_iff in Hle.
      exact (eq_true_false_abs _ Hle Hx). }
  destruct Hbad as [Hh | [[z [-> Hz]] | [Hb | [Hn | Hrest]]]].
  - left. exact Hh.
  - right. apply Hinv. rewrite NumberFacts.StringToNumber_decimal.
    apply NumberFacts.invalidPort_roundInteger. exact Hz.
  - right. apply Hinv. rewrite (NumberFacts.StringToNumber_blank port Hb). reflexivity.
  - right. left. rewrite (NumberFacts.StringToNumber_notNumeric port Hn). reflexivity.
  - right. exact Hrest.
Qed.

(** The port field holds "65536". *)
Lemma invalid_submission_writes_nothing_witness :
  events (run Win.handle (AddConnection.handleSubmit numberEngine (js "C:\putty.exe")
      {| AddConnection.host := js "example.com"; AddConnection.port := js "65536";
         AddConnection.protocol := js "ssh"; AddConnection.closeOnExit := js "never";
         AddConnection.save := true; AddConnection.savedName := None |}) (Win.start []))
  = [Event (ShowToast {| style := Failure; title := js "Invalid port"; message := None |}) tt].
Proof.
  refine (proj1 (@invalid_submission_writes_nothing numberEngine Win.World Win.handle
    (Win.start []) (js "C:\putty.exe") (js "box") (js "example.com") (js "65536")
    (js "ssh") (js "never") true None (fun s => eq_refl) _)).
  right. left. exists 65536%Z. split; [reflexivity | right; reflexivity].
Defined.

(** C3, as stated: the port fields "22.00000000000000001",
    "65535.0000000000001" and "0.99999999999999999" hold no integer, but
    the doubles nearest to them are 22, 65535 and 1.  The check passes, the
    commands of the write are run, and the session is stored with that
    port. *)
Lemma rounded_fraction_is_written :
  let submit port :=
    run Win.handle (AddConnection.handleSubmit numberEngine (js "C:\putty.exe")
      {| AddConnection.host := js "example.com"; AddConnection.port := port;
         AddConnection.protocol := js "ssh"; AddConnection.closeOnExit := js "never";
         AddConnection.save := true; AddConnection.savedName := Some (js "box") |})
      (Win.start []) in
  let stored p :=
    [(js "box",
      [(js "HostName", Win.REG_SZ (js "example.com")); (js "PortNumber", Win.REG_DWORD p);
       (js "Protocol", Win.REG_SZ (js "ssh")); (js "CloseOnExit", Win.REG_SZ (js "never"))])] in
  (existsb isExec (events (submit (js "22.00000000000000001"))) = true
   /\ Win.hive (final (submit (js "22.00000000000000001"))) = stored 22%N)
  /\ (existsb isExec (events (submit (js "65535.0000000000001"))) = true
      /\ Win.hive (final (submit (js "65535.0000000000001"))) = stored 65535%N)
  /\ (existsb isExec (events (submit (js "0.99999999999999999"))) = true
      /\ Win.hive (final (submit (js "0.99999999999999999"))) = stored 1%N).
Proof.
  cbv zeta. repeat split; vm_compute; reflexivity.
Qed.

(** ** Write, then read *)

Lemma read_after_write
    (key host protocol closeOnExit : jsstring) (p : Z) (old : Win.regValues) :
  key <> [] -> Forall URI.keyChar key ->
  plainHost host -> (1 <= p <= 65535)%Z ->
  In protocol protocols -> In closeOnExit closeOnExits ->
  Win.tameValues old ->
  SearchConnections.parseValues
    (Win.printKey key (Win.storedValues host p protocol closeOnExit old))
  = {| HostName := host; PortNumber := JS.ofZ p; Protocol := protocol;
       CloseOnExit := closeOnExit |}.
Proof.
  intros Hne Hk Hhost Hp Hpr Hc [Hnd Hold].
  set (vals := Win.storedValues host p protocol closeOnExit old).
  assert (Hplain : forall n, n = js "HostName" \/ n = js "PortNumber" \/ n = js "Protocol"
                            \/ n = js "CloseOnExit" -> Win.plainName n).
  { intros n [-> | [-> | [-> | ->]]]; WinFacts.solve_word. }
  assert (Hhost10 : Forall (fun c => c <> 10%N) host).
  { destruct Hhost as [_ [_ H]]. eapply Forall_impl; [|exact H].
    intros c [_ Ht] ->. discriminate Ht. }
  assert (Hpr' := WinFacts.enumerated_text (or_introl Hpr)).
  assert (Hc' := WinFacts.enumerated_text (or_intror Hc)).
  assert (H10 : forall s, Forall URI.printable s -> Forall (fun c => c <> 10%N) s).
  { intros s Hs. eapply Forall_impl; [|exact Hs]. unfold URI.printable. intros c Hc0. lia. }
  assert (Htame : Forall (fun v => Win.plainName (fst v) /\ Win.noLineFeed (snd v)) vals).
  { subst vals. unfold Win.storedValues.
    repeat apply WinFacts.Forall_upsert; try exact Hold; (split; [apply Hplain; auto|]); cbn;
      auto; apply H10; tauto. }
  assert (Hnd' : NoDup (map fst vals)).
  { subst vals. unfold Win.storedValues. repeat apply WinFacts.NoDup_upsert. exact Hnd. }
  assert (Hplain' : Forall (fun v => Win.plainName (fst v)) vals).
  { eapply Forall_impl; [|exact Htame]. intros v [H _]. exact H. }
  assert (Hne4 : forall a b : string, jsstring_eqb (js a) (js b) = false -> js a <> js b).
  { intros a b H. apply jsstring_eqb_neq. exact H. }
  assert (Hl1 : Win.lookup (js "HostName") vals = Some (Win.REG_SZ host)).
  { subst vals. unfold Win.storedValues.
    rewrite !WinFacts.lookup_upsert_other by (apply Hne4; reflexivity).
    apply WinFacts.lookup_upsert. }
  assert (Hl2 : Win.lookup (js "PortNumber") vals = Some (Win.REG_DWORD (Z.to_N p))).
  { subst vals. unfold Win.storedValues.
    rewrite !WinFacts.lookup_upsert_other by (apply Hne4; reflexivity).
    apply WinFacts.lookup_upsert. }
  assert (Hl3 : Win.lookup (js "Protocol") vals = Some (Win.REG_SZ protocol)).
  { subst vals. unfold Win.storedValues.
    rewrite !WinFacts.lookup_upsert_other by (apply Hne4; reflexivity).
    apply WinFacts.lookup_upsert. }
  assert (Hl4 : Win.lookup (js "CloseOnExit") vals = Some (Win.REG_SZ closeOnExit)).
  { subst vals. unfold Win.storedValues. apply WinFacts.lookup_upsert. }
  rewrite WinFacts.parseValues_printKey;
    [| eapply Forall_impl; [|exact Hk]; intros c Hc0; apply ClassFacts.keyChar_plain; exact Hc0
     | exact Htame].
  assert (Hown : forall field d v, Win.lookup field vals = Some d -> In v vals ->
                   fst v = field -> v = (field, d)).
  { intros field d [n d'] Hl Hin Hf. cbn in Hf. subst n. f_equal.
    exact (@WinFacts.lookup_unique _ field d d' vals Hnd' Hl Hin). }
  apply WinFacts.values_eq; cbn [HostName PortNumber Protocol CloseOnExit].
  - apply (@WinFacts.fold_field _ HostName (js "HostName")); auto.
    + intros n v acc En. rewrite WinFacts.HostName_assign, En. reflexivity.
    + intros v acc' Hin Hf. rewrite (Hown _ _ _ Hl1 Hin Hf).
      destruct (WinFacts.host_text Hhost) as [H1 [H2 [H3 H4]]].
      rewrite WinFacts.readLine_data by (auto; apply Hplain; auto).
      rewrite H4, WinFacts.HostName_assign, jsstring_eqb_refl. reflexivity.
    + right. eexists. exact (@WinFacts.lookup_In _ _ _ _ Hl1).
  - apply (@WinFacts.fold_field _ PortNumber (js "PortNumber")); auto.
    + intros n v acc En. rewrite WinFacts.PortNumber_assign, En. reflexivity.
    + intros v acc' Hin Hf. rewrite (Hown _ _ _ Hl2 Hin Hf).
      rewrite WinFacts.readLine_port by lia. unfold JS.ofZ. f_equal. f_equal. lia.
    + right. eexists. exact (@WinFacts.lookup_In _ _ _ _ Hl2).
  - apply (@WinFacts.fold_field _ Protocol (js "Protocol")); auto.
    + intros n v acc En. rewrite WinFacts.Protocol_assign, En. reflexivity.
    + intros v acc' Hin Hf. rewrite (Hown _ _ _ Hl3 Hin Hf).
      destruct (WinFacts.plain_text (proj1 Hpr') (proj2 Hpr')) as [H1 [H2 [H3 H4]]].
      rewrite WinFacts.readLine_data by (auto; apply Hplain; auto).
      rewrite H4, WinFacts.Protocol_assign, jsstring_eqb_refl. reflexivity.
    + right. eexists. exact (@WinFacts.lookup_In _ _ _ _ Hl3).
  - apply (@WinFacts.fold_field _ CloseOnExit (js "CloseOnExit")); auto.
    + intros n v acc En. rewrite WinFacts.CloseOnExit_assign, En. reflexivity.
    + intros v acc' Hin Hf. rewrite (Hown _ _ _ Hl4 Hin Hf).
      destruct (WinFacts.plain_text (proj1 Hc') (proj2 Hc')) as [H1 [H2 [H3 H4]]].
      rewrite WinFacts.readLine_data by (auto; apply Hplain; auto).
      rewrite H4, WinFacts.CloseOnExit_assign, jsstring_eqb_refl. reflexivity.
    + right. eexists. exact (@WinFacts.lookup_In _ _ _ _ Hl4).
Qed.

Lemma value_read_found (w : Win.World) (sessionName key : jsstring) (vals : Win.regValues) :
  encodeSessionKey sessionName = Some key -> key <> [] -> Forall URI.keyChar key ->
  Win.lookup key (Win.hive w) = Some vals ->
  value (run Win.handle (SearchConnections.readSessionValues sessionName) w)
  = Fulfilled (SearchConnections.parseValues (Win.printKey key vals)).
Proof.
  intros Hkey Hne Hk Hl. unfold SearchConnections.readSessionValues. rewrite Hkey.
  rewrite WinFacts.run_Exec. cbv zeta. cbn [value].
  rewrite WinFacts.exec_query by assumption. cbn [Win.applyCommand]. rewrite Hl. reflexivity.
Qed.

Lemma literal_plain host : literalHost host -> plainHost host.
Proof.
  intros [Hne [Ht [Hc _]]]. split; [exact Hne|]. split; [exact Ht|].
  eapply Forall_impl; [|exact Hc]. intros c [Hr [Hq _]]. split; [exact Hq|].
  unfold JS.isLineTerminator. cbn [existsb].
  repeat match goal with
  | |- context [N.eqb ?a ?b] => destruct (N.eqb_spec a b); [lia|]
  end.
  reflexivity.
Qed.

(** C2, as amended: in the registry model, for a session name that is not
    empty and that the encoder accepts, a host of printable ASCII
    characters (spaces allowed inside) that is not empty, has no white
    space at its ends, no double quote and no percent sign and does not end
    in a backslash, an integer port from 1 to 65535, a protocol and a
    close-on-exit policy of the two enumerations, and a session key that
    either is not there yet or holds tame values: the write is fulfilled,
    and reading the session back gives exactly the record written.  Other
    hosts are left out: a double quote, a percent sign or a backslash
    before the closing quote is not taken literally by [cmd.exe] and
    [reg.exe], text outside ASCII depends on the code page of the console,
    and the registry model does not say what becomes of them. *)
Theorem write_then_read
    (E : JS.Engine) (w : Win.World)
    (sessionName key host protocol closeOnExit : jsstring) (p : Z) :
  encodeSessionKey sessionName = Some key -> sessionName <> [] -> wfString sessionName ->
  literalHost host -> (1 <= p <= 65535)%Z ->
  In protocol protocols -> In closeOnExit closeOnExits ->
  (forall old, Win.lookup key (Win.hive w) = Some old -> Win.tameValues old) ->
  let values := {| HostName := host; PortNumber := JS.ofZ p; Protocol := protocol;
                   CloseOnExit := closeOnExit |} in
  let written := run Win.handle (writeRegistryValues E sessionName values) w in
  value written = Fulfilled tt
  /\ value (run Win.handle (SearchConnections.readSessionValues sessionName) (final written))
     = Fulfilled values.
Proof.
  intros Hkey Hname Hwf Hlit Hp Hpr Hc Hold values written.
  pose proof (literal_plain Hlit) as Hhost.
  destruct (WinFacts.encoded_key Hkey Hname Hwf) as [Hne Hk].
  assert (Hw : writeRegistryValues E sessionName values
               = runNext (createKeyCommand (sessionKeyPath key)
                            :: valueCommands E (sessionKeyPath key) values)).
  { unfold writeRegistryValues. rewrite Hkey. reflexivity. }
  destruct (@WinFacts.run_runNext_ok
    (createKeyCommand (sessionKeyPath key) :: valueCommands E (sessionKeyPath key) values)
    [Win.AddKey key;
     Win.SetValue key (js "HostName") (Win.REG_SZ host);
     Win.SetValue key (js "PortNumber") (Win.REG_DWORD (Z.to_N p));
     Win.SetValue key (js "Protocol") (Win.REG_SZ protocol);
     Win.SetValue key (js "CloseOnExit") (Win.REG_SZ closeOnExit)] w) as [Hv Hh].
  { apply Forall2_cons.
    - intros r. apply WinFacts.exec_create; assumption.
    - apply WinFacts.exec_values; auto; [apply WinFacts.noQuote_host; exact Hhost | lia]. }
  { repeat (apply Forall_cons; [intros r; reflexivity|]). apply Forall_nil. }
  subst written. rewrite Hw. split; [exact Hv|].
  rewrite (@value_read_found _ sessionName key _ Hkey Hne Hk
             (eq_trans (f_equal (Win.lookup key) Hh) (WinFacts.lookup_after_write _ _ _ _ _ _))).
  f_equal. apply read_after_write; auto.
  destruct (Win.lookup key (Win.hive w)) as [old|] eqn:El.
  - apply Hold. reflexivity.
  - split; [constructor | constructor].
Qed.

(** The example of the specification: "testbox" written into an empty
    registry. *)
Lemma write_then_read_witness :
  value (run Win.handle (SearchConnections.readSessionValues (js "testbox"))
    (final (run Win.handle
       (writeRegistryValues plainEngine (js "testbox")
          {| HostName := js "10.0.0.5"; PortNumber := JS.ofZ 22; Protocol := js "ssh";
             CloseOnExit := js "never" |}) (Win.start []))))
  = Fulfilled {| HostName := js "10.0.0.5"; PortNumber := JS.ofZ 22; Protocol := js "ssh";
                 CloseOnExit := js "never" |}.
Proof.
  refine (proj2 (@write_then_read plainEngine (Win.start []) (js "testbox") (js "testbox")
    (js "10.0.0.5") (js "ssh") (js "never") 22%Z eq_refl _ _ _ _ _ _ _)).
  - discriminate.
  - repeat constructor.
  - split; [discriminate|]. split; [split; reflexivity|]. split; [|discriminate].
    cbn. repeat (apply Forall_cons; [split; [lia | split; discriminate]|]). apply Forall_nil.
  - lia.
  - cbn. tauto.
  - cbn. tauto.
  - intros old H. discriminate H.
Defined.

(** C2, as stated: a host with a leading space is not empty; it is
    written with its space, and read back without it. *)
Lemma host_with_leading_space_is_read_trimmed :
  let values := {| HostName := js " a"; PortNumber := JS.ofZ 22; Protocol := js "ssh";
                   CloseOnExit := js "never" |} in
  let written := run Win.handle (writeRegistryValues plainEngine (js "testbox") values)
                   (Win.start []) in
  value written = Fulfilled tt
  /\ Win.hive (final written)
     = [(js "testbox",
         [(js "HostName", Win.REG_SZ (js " a")); (js "PortNumber", Win.REG_DWORD 22);
          (js "Protocol", Win.REG_SZ (js "ssh")); (js "CloseOnExit", Win.REG_SZ (js "never"))])]
  /\ value (run Win.handle (SearchConnections.readSessionValues (js "testbox")) (final written))
     = Fulfilled {| HostName := js "a"; PortNumber := JS.ofZ 22; Protocol := js "ssh";
                    CloseOnExit := js "never" |}
  /\ value (run Win.handle (SearchConnections.readSessionValues (js "testbox")) (final written))
     <> Fulfilled values.
Proof.
  cbv zeta. split; [vm_compute; reflexivity|]. split; [vm_compute; reflexivity|].
  split; [vm_compute; reflexivity|]. vm_compute. discriminate.
Qed.

(** ** Reading a session that cannot be queried *)

(** C4, as amended: for a session name the encoder accepts,
    [readSessionValues] makes one call, the query of the session key, and
    never rejects; when the query fails it returns the default record, and
    in the registry model the query of a key that is not there is such a
    failure.  The failure of the query is the only failure that gives the
    default record; of a query that succeeds nothing is said here. *)
Theorem read_defaults_on_failed_query
    (World : Type) (handle : forall X, call X -> World -> X * World) (w : World)
    (w' : Win.World) (sessionName key : jsstring) :
  encodeSessionKey sessionName = Some key -> wfString sessionName ->
  let r := run handle (SearchConnections.readSessionValues sessionName) w in
  (exists answer,
      events r = [Event (Exec (js "reg query " ++ quote ++ sessionKeyPath key ++ quote)) answer]
      /\ (error answer <> None -> value r = Fulfilled SearchConnections.defaults)
      /\ exists v, value r = Fulfilled v)
  /\ (Win.lookup key (Win.hive w') = None ->
      value (run Win.handle (SearchConnections.readSessionValues sessionName) w')
      = Fulfilled SearchConnections.defaults)
  /\ SearchConnections.defaults
     = {| HostName := []; PortNumber := JS.ofZ 23; Protocol := js "raw";
          CloseOnExit := js "onexit" |}.
Proof.
  intros Hkey Hwf r. split; [|split; [|reflexivity]].
  - subst r. unfold SearchConnections.readSessionValues. rewrite Hkey. cbn [run].
    destruct (handle _ (Exec (js "reg query " ++ quote ++ sessionKeyPath key ++ quote)) w)
      as [answer w1].
    exists answer. destruct (error answer) as [e|] eqn:He; cbn [run events value].
    + split; [reflexivity|]. split; [reflexivity|]. eexists; reflexivity.
    + split; [reflexivity|]. split; [intros H; contradiction H; reflexivity|].
      eexists; reflexivity.
  - intros Hl. unfold SearchConnections.readSessionValues. rewrite Hkey.
    rewrite WinFacts.run_Exec. cbv zeta. cbn [value].
    destruct sessionName as [|c rest].
    + cbn in Hkey. injection Hkey as <-. reflexivity.
    + destruct (@WinFacts.encoded_key (c :: rest) key Hkey ltac:(discriminate) Hwf)
        as [Hne Hk].
      rewrite WinFacts.exec_query by assumption. cbn [Win.applyCommand]. rewrite Hl.
      reflexivity.
Qed.

(** A session that is not in the registry. *)
Lemma read_defaults_on_failed_query_witness :
  value (run Win.handle (SearchConnections.readSessionValues (js "nowhere")) (Win.start []))
  = Fulfilled SearchConnections.defaults.
Proof.
  refine (proj1 (proj2 (@read_defaults_on_failed_query Win.World Win.handle (Win.start [])
    (Win.start []) (js "nowhere") (js "nowhere") eq_refl _)) eq_refl).
  repeat constructor.
Defined.

(** C4, as stated: a PortNumber stored as the string "abc" is a malformed
    value; the query succeeds, and what is returned is not the default
    record: its port is NaN.  And a session name with a surrogate standing
    alone is a name for which an error is signalled: the promise is
    rejected. *)
Lemma malformed_port_is_not_defaulted :
  let w := Win.start [(js "box", [(js "PortNumber", Win.REG_SZ (js "abc"))])] in
  value (run Win.handle (SearchConnections.readSessionValues (js "box")) w)
  = Fulfilled {| HostName := []; PortNumber := JS.NaN; Protocol := js "raw";
                 CloseOnExit := js "onexit" |}
  /\ value (run Win.handle (SearchConnections.readSessionValues (js "box")) w)
     <> Fulfilled SearchConnections.defaults
  /\ value (run Win.handle (SearchConnections.readSessionValues [0xD800%N]) w)
     = Rejected uriError.
Proof.
  cbv zeta. split; [vm_compute; reflexivity|]. split; [vm_compute; discriminate|].
  vm_compute. reflexivity.
Qed.

(** ** Listing the sessions *)

Module ListFacts.

Import JS Win SearchConnections RegexFacts.
Local Open Scope N_scope.

Lemma search_skip p c s :
  matchAtoms p (c :: s) [] = None -> search p (c :: s) = search p s.
Proof. intros H. cbn [search]. rewrite H. reflexivity. Qed.

Lemma search_hit p s x : matchAtoms p s [] = Some x -> search p s = Some x.
Proof. intros H. destruct s; cbn [search]; rewrite H; reflexivity. Qed.

Lemma tameKey_dots key : tameKey key -> Forall (fun c => isDot c = true) key.
Proof.
  intros [_ H]. eapply Forall_impl; [|exact H].
  intros c [Hp _]. apply ClassFacts.printable_isDot. exact Hp.
Qed.

(** The pattern [/Sessions\\(.+)$/] finds the name of the key in its
    path. *)
Lemma match_session_line key :
  tameKey key ->
  regexMatch sessionLine (hkcuSessions ++ backslash ++ key) = Some [key].
Proof.
  intros Hk. unfold regexMatch, sessionLine. cbn [anchored atoms].
  unfold hkcuSessions, backslash. cbn [js list_ascii_of_string map app lit N_of_ascii].
  cbn [N.add N.mul Pos.add Pos.succ Pos.mul N.of_nat].
  repeat (rewrite search_skip by reflexivity).
  apply search_hit.
  rewrite !WinFacts.matchAtoms_chr.
  rewrite <- (app_nil_r key) at 1.
  apply matchAtoms_plus_first.
  - apply Hk.
  - apply tameKey_dots. exact Hk.
  - exact I.
  - reflexivity.
Qed.

Lemma path_printable key :
  tameKey key -> Forall URI.printable (hkcuSessions ++ backslash ++ key).
Proof.
  intros [_ Hk]. apply Forall_app. split; [|apply Forall_app; split].
  - cbn. repeat (apply Forall_cons; [unfold URI.printable; lia|]). apply Forall_nil.
  - cbn. repeat (apply Forall_cons; [unfold URI.printable; lia|]). apply Forall_nil.
  - eapply Forall_impl; [|exact Hk]. intros c [Hp _]. exact Hp.
Qed.

Lemma sessionOfLine_path key :
  tameKey key ->
  sessionOfLine (trim (hkcuSessions ++ backslash ++ key)) = [entryOf key].
Proof.
  intros Hk. rewrite WinFacts.trim_plain.
  - unfold sessionOfLine.
    change (startsWith (hkcuSessions ++ backslash ++ key) (js "HKEY_")) with true.
    rewrite (match_session_line Hk).
    destruct Hk as [Hne _]. destruct key; [contradiction | reflexivity].
  - eapply Forall_impl; [|exact (path_printable Hk)].
    intros c. apply ClassFacts.printable_not_space.
Qed.

Lemma splitLines_path a b c rest :
  Forall (fun x => x <> 10) (a ++ b ++ c) ->
  splitLines [] (a ++ b ++ c ++ crlf ++ rest) = (a ++ b ++ c) :: splitLines [] rest.
Proof.
  intros H.
  replace (a ++ b ++ c ++ crlf ++ rest) with ((a ++ b ++ c) ++ 13 :: 10 :: rest)
    by (rewrite <- !app_assoc; reflexivity).
  rewrite WinFacts.splitLines_line by exact H. reflexivity.
Qed.

Lemma splitLines_root (r : registry) :
  Forall (fun e => tameKey (fst e)) r ->
  splitLines [] (flat_map (fun e => hkcuSessions ++ backslash ++ fst e ++ crlf) r)
  = map (fun e => hkcuSessions ++ backslash ++ fst e) r ++ [[]].
Proof.
  induction r as [|e r IH]; intros H; [reflexivity|].
  inversion H as [|? ? He Hr]; subst. cbn [flat_map map app].
  rewrite <- !app_assoc. rewrite splitLines_path.
  - f_equal. exact (IH Hr).
  - eapply Forall_impl; [|exact (path_printable He)].
    unfold URI.printable. intros c Hc. lia.
Qed.

(** Every key below [Sessions] gives one entry, in the order of the
    output. *)
Lemma parseSessions_printRoot (r : registry) :
  Forall (fun e => tameKey (fst e)) r ->
  parseSessions (printRoot r) = map (fun e => entryOf (fst e)) r.
Proof.
  intros H. unfold parseSessions, printRoot. unfold crlf at 1. cbn [app].
  rewrite WinFacts.splitLines_blank, splitLines_root by exact H.
  cbn [map flat_map]. change (sessionOfLine (trim [])) with (@nil PuttySession).
  cbn [app]. rewrite map_app, flat_map_app. cbn [map flat_map].
  change (sessionOfLine (trim [])) with (@nil PuttySession). rewrite !app_nil_r.
  induction H as [|e r He Hr IH]; [reflexivity|].
  cbn [map flat_map]. cbv beta.
  match goal with
  | |- ?a ++ _ = _ =>
    replace a with [entryOf (fst e)] by (symmetry; exact (sessionOfLine_path He))
  end.
  rewrite IH. reflexivity.
Qed.

Lemma value_list E w :
  value (run handle (listPuttySessions E) w)
  = sort (byName E) (parseSessions (printRoot (hive w))).
Proof.
  unfold listPuttySessions. rewrite WinFacts.run_Exec. cbv zeta. cbn [value].
  rewrite WinFacts.exec_root. reflexivity.
Qed.

(** *** The sort *)

Section Sort.

Variable A : Type.
Variable cmp : A -> A -> Z.

Lemma insertSorted_perm x l : Permutation (insertSorted cmp x l) (x :: l).
Proof.
  induction l as [|y l IH]; cbn; [apply Permutation_refl|].
  destruct (cmp x y <=? 0)%Z; [apply Permutation_refl|].
  apply Permutation_trans with (y :: x :: l); [constructor; exact IH | constructor].
Qed.

Lemma sort_perm l : Permutation (sort cmp l) l.
Proof.
  induction l as [|x l IH]; cbn; [constructor|].
  apply Permutation_trans with (x :: sort cmp l); [apply insertSorted_perm|].
  constructor. exact IH.
Qed.

Hypothesis total : forall a b, (cmp a b <= 0)%Z \/ (cmp b a <= 0)%Z.
Hypothesis trans : forall a b c, (cmp a b <= 0)%Z -> (cmp b c <= 0)%Z -> (cmp a c <= 0)%Z.

Lemma insertSorted_sorted x l :
  StronglySorted (fun a b => (cmp a b <= 0)%Z) l ->
  StronglySorted (fun a b => (cmp a b <= 0)%Z) (insertSorted cmp x l).
Proof.
  induction l as [|y l IH]; intros Hs; cbn.
  - constructor; constructor.
  - inversion Hs as [|? ? Hl Hy]; subst.
    destruct (Z.leb_spec (cmp x y) 0) as [Hxy | Hxy].
    + constructor; [exact Hs|]. constructor; [exact Hxy|].
      eapply Forall_impl; [|exact Hy]. intros z Hz. exact (@trans _ _ _ Hxy Hz).
    + constructor; [exact (IH Hl)|].
      apply Forall_forall. intros z Hz.
      apply (Permutation_in _ (insertSorted_perm x l)) in Hz. destruct Hz as [<- | Hz].
      * destruct (@total y x); [assumption | lia].
      * rewrite Forall_forall in Hy. exact (Hy z Hz).
Qed.

Lemma sort_sorted l : StronglySorted (fun a b => (cmp a b <= 0)%Z) (sort cmp l).
Proof.
  induction l as [|x l IH]; cbn; [constructor|]. apply insertSorted_sorted. exact IH.
Qed.

End Sort.

(** *** The order of the code units is a consistent comparator *)

Lemma compareUnits_total a : forall b,
  (compareUnits a b <= 0)%Z \/ (compareUnits b a <= 0)%Z.
Proof.
  induction a as [|x a IH]; intros [|y b]; cbn; try lia.
  rewrite (N.compare_antisym x y).
  destruct (N.compare x y); cbn; try lia. apply IH.
Qed.

Lemma compareUnits_trans a : forall b c,
  (compareUnits a b <= 0)%Z -> (compareUnits b c <= 0)%Z -> (compareUnits a c <= 0)%Z.
Proof.
  induction a as [|x a IH]; intros [|y b] [|z c]; cbn; try lia.
  destruct (N.compare_spec x y) as [Hxy | Hxy | Hxy],
           (N.compare_spec y z) as [Hyz | Hyz | Hyz]; try lia.
  - subst. rewrite N.compare_refl. apply IH.
  - intros _ _. destruct (N.compare_spec x z); lia.
  - intros _ _. destruct (N.compare_spec x z); lia.
  - intros _ _. destruct (N.compare_spec x z); lia.
Qed.

(** *** Keys with spaces inside *)

Lemma tame_listable key : tameKey key -> listableKey key.
Proof.
  intros [Hne Hk]. split; [exact Hne|]. split; [|split].
  - eapply Forall_impl; [|exact Hk]. unfold URI.printable. intros c [Hp Hb]. split; [lia|exact Hb].
  - destruct key as [|c key]; [exact I|]. inversion Hk as [|? ? [Hp _] _]; subst.
    apply ClassFacts.printable_not_space. exact Hp.
  - apply Forall_rev in Hk. destruct (rev key) as [|c r]; [exact I|].
    inversion Hk as [|? ? [Hp _] _]; subst.
    apply ClassFacts.printable_not_space. exact Hp.
Qed.

Lemma ascii_isDot c : 32 <= c <= 126 -> isDot c = true.
Proof.
  intros H. unfold isDot, isLineTerminator. cbn [existsb].
  repeat match goal with
  | |- context [N.eqb ?a ?b] => destruct (N.eqb_spec a b); [lia|]
  end.
  reflexivity.
Qed.

Lemma listable_dots key : listableKey key -> Forall (fun c => isDot c = true) key.
Proof.
  intros [_ [H _]]. eapply Forall_impl; [|exact H].
  intros c [Hr _]. apply ascii_isDot. exact Hr.
Qed.

Lemma listable_line key :
  listableKey key -> Forall (fun x => x <> 10) (hkcuSessions ++ backslash ++ key).
Proof.
  intros [_ [Hk _]]. apply Forall_app. split; [|apply Forall_app; split].
  - cbn. repeat (apply Forall_cons; [discriminate|]). apply Forall_nil.
  - cbn. repeat (apply Forall_cons; [discriminate|]). apply Forall_nil.
  - eapply Forall_impl; [|exact Hk]. intros c [Hr _]. lia.
Qed.

Lemma match_listable_line key :
  listableKey key ->
  regexMatch sessionLine (hkcuSessions ++ backslash ++ key) = Some [key].
Proof.
  intros Hk. unfold regexMatch, sessionLine. cbn [anchored atoms].
  unfold hkcuSessions, backslash. cbn [js list_ascii_of_string map app lit N_of_ascii].
  cbn [N.add N.mul Pos.add Pos.succ Pos.mul N.of_nat].
  repeat (rewrite search_skip by reflexivity).
  apply search_hit.
  rewrite !WinFacts.matchAtoms_chr.
  rewrite <- (app_nil_r key) at 1.
  apply matchAtoms_plus_first.
  - apply Hk.
  - apply listable_dots. exact Hk.
  - exact I.
  - reflexivity.
Qed.

Lemma headFree_app x y : x <> [] -> headFree x -> headFree (x ++ y).
Proof. destruct x as [|c x]; [contradiction|]. intros _ H. exact H. Qed.

(** The line of a key has no white space at its ends: [trim] keeps it. *)
Lemma trim_listable_line key :
  listableKey key ->
  trim (hkcuSessions ++ backslash ++ key) = hkcuSessions ++ backslash ++ key.
Proof.
  intros [Hne [_ [_ Hlast]]]. apply TrimFacts.trim_fixed; [reflexivity|].
  rewrite !rev_app_distr, <- app_assoc. apply headFree_app; [|exact Hlast].
  intros H. apply (f_equal (@rev N)) in H. rewrite rev_involutive in H. contradiction.
Qed.

Lemma sessionOfLine_listable key :
  listableKey key ->
  sessionOfLine (trim (hkcuSessions ++ backslash ++ key)) = [entryOf key].
Proof.
  intros Hk. rewrite (trim_listable_line Hk). unfold sessionOfLine.
  change (startsWith (hkcuSessions ++ backslash ++ key) (js "HKEY_")) with true.
  rewrite (match_listable_line Hk).
  destruct Hk as [Hne _]. destruct key; [contradiction | reflexivity].
Qed.

Lemma splitLines_listable (r : registry) :
  Forall (fun e => listableKey (fst e)) r ->
  splitLines [] (flat_map (fun e => hkcuSessions ++ backslash ++ fst e ++ crlf) r)
  = map (fun e => hkcuSessions ++ backslash ++ fst e) r ++ [[]].
Proof.
  induction r as [|e r IH]; intros H; [reflexivity|].
  inversion H as [|? ? He Hr]; subst. cbn [flat_map map app].
  rewrite <- !app_assoc. rewrite splitLines_path.
  - f_equal. exact (IH Hr).
  - exact (listable_line He).
Qed.

(** Every listable key below [Sessions] gives one entry, in the order of
    the output. *)
Lemma parseSessions_listable (r : registry) :
  Forall (fun e => listableKey (fst e)) r ->
  parseSessions (printRoot r) = map (fun e => entryOf (fst e)) r.
Proof.
  intros H. unfold parseSessions, printRoot. unfold crlf at 1. cbn [app].
  rewrite WinFacts.splitLines_blank, splitLines_listable by exact H.
  cbn [map flat_map]. change (sessionOfLine (trim [])) with (@nil PuttySession).
  cbn [app]. rewrite map_app, flat_map_app. cbn [map flat_map].
  change (sessionOfLine (trim [])) with (@nil PuttySession). rewrite !app_nil_r.
  induction H as [|e r He Hr IH]; [reflexivity|].
  cbn [map flat_map]. cbv beta.
  match goal with
  | |- ?a ++ _ = _ =>
    replace a with [entryOf (fst e)] by (symmetry; exact (sessionOfLine_listable He))
  end.
  rewrite IH. reflexivity.
Qed.

End ListFacts.

(** C5, as amended: in the registry model, with keys below [Sessions]
    whose names are printable ASCII (spaces allowed inside), not empty,
    without backslash and without a space at either end, and a
    [localeCompare] that is a consistent comparator, [listPuttySessions]
    returns one entry per key, its [id] the name of the key and its [name]
    the decoded name, arranged so that each entry compares lower than or
    equal to all that follow it under [localeCompare] of the names.  What
    that order is between given names (lexicographic, how case counts) is
    the collation of the engine.  When the query fails, for any
    environment, the result is the empty list. *)
Theorem sessions_listed_sorted_by_name
    (E : JS.Engine) (w : Win.World)
    (World : Type) (handle : forall X, call X -> World -> X * World) (w0 : World) :
  (forall a b, (JS.localeCompare E a b <= 0)%Z \/ (JS.localeCompare E b a <= 0)%Z) ->
  (forall a b c, (JS.localeCompare E a b <= 0)%Z -> (JS.localeCompare E b c <= 0)%Z ->
                 (JS.localeCompare E a c <= 0)%Z) ->
  Forall (fun e => Win.listableKey (fst e)) (Win.hive w) ->
  let listed := value (run Win.handle (SearchConnections.listPuttySessions E) w) in
  let r := run handle (SearchConnections.listPuttySessions E) w0 in
  Permutation listed
    (map (fun e => {| id := fst e; name := decodeSessionKey (fst e) |}) (Win.hive w))
  /\ StronglySorted (fun a b => (JS.localeCompare E (name a) (name b) <= 0)%Z) listed
  /\ exists answer,
       events r = [Event (Exec (js "reg query " ++ quote ++ sessionsRoot ++ quote)) answer]
       /\ (error answer <> None -> value r = []).
Proof.
  intros Htotal Htrans Htame listed r. subst listed r.
  rewrite ListFacts.value_list, ListFacts.parseSessions_listable by exact Htame.
  split; [apply ListFacts.sort_perm|]. split.
  - apply (@ListFacts.sort_sorted _ (SearchConnections.byName E)).
    + intros a b. apply Htotal.
    + intros a b c. apply Htrans.
  - unfold SearchConnections.listPuttySessions. cbn [run].
    destruct (handle _ (Exec (js "reg query " ++ quote ++ sessionsRoot ++ quote)) w0)
      as [answer w1].
    exists answer. destruct (error answer); cbn [run events value].
    + split; reflexivity.
    + split; [reflexivity|]. intros H. contradiction H. reflexivity.
Qed.

(** Three sessions, one with an escaped space and one with a space in the
    name of its key, under the order of the code units. *)
Lemma sessions_listed_sorted_by_name_witness :
  let w := Win.start [(js "zeta", []); (js "my%20box", []); (js "Alpha one", [])] in
  Permutation (value (run Win.handle (SearchConnections.listPuttySessions plainEngine) w))
    [ {| id := js "zeta"; name := js "zeta" |};
      {| id := js "my%20box"; name := js "my box" |};
      {| id := js "Alpha one"; name := js "Alpha one" |} ]
  /\ StronglySorted (fun a b => (compareUnits (name a) (name b) <= 0)%Z)
       (value (run Win.handle (SearchConnections.listPuttySessions plainEngine) w)).
Proof.
  cbv zeta.
  destruct (@sessions_listed_sorted_by_name plainEngine
    (Win.start [(js "zeta", []); (js "my%20box", []); (js "Alpha one", [])])
    Win.World Win.handle (Win.start [])
    (fun a b => ListFacts.compareUnits_total a b)
    (fun a b c => @ListFacts.compareUnits_trans a b c)) as [Hp [Hs _]].
  - cbn [Win.hive Win.start].
    repeat (apply Forall_cons;
      [split; [discriminate|]; split;
       [cbn; repeat (apply Forall_cons; [split; [lia | discriminate]|]); apply Forall_nil
       | split; reflexivity]|]).
    apply Forall_nil.
  - split; [exact Hp | exact Hs].
Defined.

(** C5, as stated: a key whose name ends in a space is listed under the
    name without it, so that no entry has the name of the key as its id,
    and two keys that differ by that space give two entries of one id; a
    key whose name holds a line separator is not listed at all. *)
Lemma key_with_final_space_is_listed_trimmed :
  let listed r :=
    value (run Win.handle (SearchConnections.listPuttySessions plainEngine) (Win.start r)) in
  listed [(js "box ", [])] = [ {| id := js "box"; name := js "box" |} ]
  /\ ~ Permutation (listed [(js "box ", [])])
         (map (fun e => {| id := fst e; name := decodeSessionKey (fst e) |})
            [(js "box ", @nil (jsstring * Win.regData))])
  /\ listed [(js "my%20box", []); (js "my%20box ", [])]
     = [ {| id := js "my%20box"; name := js "my box" |};
         {| id := js "my%20box"; name := js "my box" |} ]
  /\ listed [(js "a" ++ [0x2028%N] ++ js "b", [])] = [].
Proof.
  cbv zeta. split; [vm_compute; reflexivity|]. split; [|split; vm_compute; reflexivity].
  intros H. apply Permutation_length_1_inv in H. revert H. vm_compute. discriminate.
Qed.

(** ** Deleting a session *)

Lemma lookup_tame key (r : Win.registry) vals :
  Forall (fun e => Win.tameKey (fst e)) r -> Win.lookup key r = Some vals -> key <> [].
Proof.
  intros Ht Hl. apply WinFacts.lookup_In in Hl.
  rewrite Forall_forall in Ht. exact (proj1 (Ht _ Hl)).
Qed.

Lemma run_deleteSession (w : Win.World) (sessionName key : jsstring) :
  encodeSessionKey sessionName = Some key -> wfString sessionName ->
  Forall (fun e => Win.tameKey (fst e)) (Win.hive w) ->
  final (run Win.handle (SearchConnections.deleteSession sessionName) w) =
  match Win.lookup key (Win.hive w) with
  | Some _ =>
    {| Win.hive := Win.remove key (Win.hive w);
       Win.executable := Win.executable w; Win.readable := Win.readable w;
       Win.toasts := Win.toasts w
         ++ [{| style := Success; title := js "Deleted"; message := Some sessionName |}];
       Win.launched := Win.launched w;
       Win.sessions :=
         filter (fun s => negb (jsstring_eqb (name s) sessionName)) (Win.sessions w) |}
  | None =>
    {| Win.hive := Win.hive w;
       Win.executable := Win.executable w; Win.readable := Win.readable w;
       Win.toasts := Win.toasts w
         ++ [{| style := Failure; title := js "Failed to delete session";
                message := Some sessionName |}];
       Win.launched := Win.launched w; Win.sessions := Win.sessions w |}
  end.
Proof.
  intros Hkey Hwf Htame. unfold SearchConnections.deleteSession. rewrite Hkey.
  rewrite WinFacts.run_Exec. cbv zeta. cbn [final].
  destruct sessionName as [|c rest].
  - cbn in Hkey. injection Hkey as <-.
    destruct (Win.lookup [] (Win.hive w)) as [vals|] eqn:El.
    + exfalso. exact (lookup_tame Htame El eq_refl).
    + reflexivity.
  - destruct (@WinFacts.encoded_key (c :: rest) key Hkey ltac:(discriminate) Hwf)
      as [Hne Hk].
    rewrite WinFacts.exec_delete by assumption. cbn [Win.applyCommand].
    destruct (Win.lookup key (Win.hive w)); reflexivity.
Qed.

(** What a delete leaves, when no key has the empty name. *)
Lemma final_deleteSession (w : Win.World) (sessionName key : jsstring) :
  encodeSessionKey sessionName = Some key -> wfString sessionName ->
  Win.lookup [] (Win.hive w) = None ->
  final (run Win.handle (SearchConnections.deleteSession sessionName) w) =
  match Win.lookup key (Win.hive w) with
  | Some _ =>
    {| Win.hive := Win.remove key (Win.hive w);
       Win.executable := Win.executable w; Win.readable := Win.readable w;
       Win.toasts := Win.toasts w
         ++ [{| style := Success; title := js "Deleted"; message := Some sessionName |}];
       Win.launched := Win.launched w;
       Win.sessions :=
         filter (fun s => negb (jsstring_eqb (name s) sessionName)) (Win.sessions w) |}
  | None =>
    {| Win.hive := Win.hive w;
       Win.executable := Win.executable w; Win.readable := Win.readable w;
       Win.toasts := Win.toasts w
         ++ [{| style := Failure; title := js "Failed to delete session";
                message := Some sessionName |}];
       Win.launched := Win.launched w; Win.sessions := Win.sessions w |}
  end.
Proof.
  intros Hkey Hwf Hnone. unfold SearchConnections.deleteSession. rewrite Hkey.
  rewrite WinFacts.run_Exec. cbv zeta. cbn [final].
  destruct sessionName as [|c rest].
  - cbn in Hkey. injection Hkey as <-. rewrite Hnone. reflexivity.
  - destruct (@WinFacts.encoded_key (c :: rest) key Hkey ltac:(discriminate) Hwf)
      as [Hne Hk].
    rewrite WinFacts.exec_delete by assumption. cbn [Win.applyCommand].
    destruct (Win.lookup key (Win.hive w)); reflexivity.
Qed.

Lemma listable_no_empty_key (r : Win.registry) :
  Forall (fun e => Win.listableKey (fst e)) r -> Win.lookup [] r = None.
Proof.
  intros H. destruct (Win.lookup [] r) as [vals|] eqn:E; [|reflexivity].
  apply WinFacts.lookup_In in E. rewrite Forall_forall in H.
  destruct (H _ E) as [Hne _]. contradiction Hne. reflexivity.
Qed.

Lemma lookup_removed (A : Type) k (l : list (jsstring * A)) :
  Win.lookup k (Win.remove k l) = None.
Proof.
  induction l as [|[m b] l IH]; cbn; [reflexivity|].
  destruct (jsstring_eqb k m) eqn:Em; cbn; [exact IH|]. rewrite Em. exact IH.
Qed.

(** C7, as amended: in the registry model, for a session name the encoder
    accepts and keys below [Sessions] that can be listed: when the key of
    the name is there, [deleteSession] removes it, shows the "Deleted"
    toast, and the snapshot becomes the old one without the entries of that
    name, so that no entry of that name is left in it; the key is gone from
    the registry and a list taken afterwards has no entry for it.  The list
    has no entry of that name either when no other key decodes to the name;
    a key that does stays in the registry and in the list.  When the key is
    not there the registry delete fails: the failure toast is shown and the
    snapshot, like the registry, is as it was. *)
Theorem delete_removes_session
    (E : JS.Engine) (w : Win.World) (sessionName key : jsstring) :
  encodeSessionKey sessionName = Some key -> wfString sessionName ->
  Forall (fun e => Win.listableKey (fst e)) (Win.hive w) ->
  let after := final (run Win.handle (SearchConnections.deleteSession sessionName) w) in
  match Win.lookup key (Win.hive w) with
  | Some _ =>
    Win.toasts after = Win.toasts w
      ++ [{| style := Success; title := js "Deleted"; message := Some sessionName |}]
    /\ Win.sessions after
       = filter (fun s => negb (jsstring_eqb (name s) sessionName)) (Win.sessions w)
    /\ (forall s, In s (Win.sessions after) -> name s <> sessionName)
    /\ Win.lookup key (Win.hive after) = None
    /\ (forall s, In s (value (run Win.handle (SearchConnections.listPuttySessions E) after))
                  -> id s <> key)
    /\ ((forall e, In e (Win.hive w) -> decodeSessionKey (fst e) = sessionName ->
                   fst e = key) ->
        forall s, In s (value (run Win.handle (SearchConnections.listPuttySessions E) after))
                  -> name s <> sessionName)
  | None =>
    Win.toasts after = Win.toasts w
      ++ [{| style := Failure; title := js "Failed to delete session";
             message := Some sessionName |}]
    /\ Win.sessions after = Win.sessions w
    /\ Win.hive after = Win.hive w
  end.
Proof.
  intros Hkey Hwf Htame after. subst after.
  rewrite (final_deleteSession w Hkey Hwf (listable_no_empty_key Htame)).
  destruct (Win.lookup key (Win.hive w)) as [vals|] eqn:El; cbn [Win.toasts Win.sessions Win.hive].
  - assert (Hlisted : forall s,
      In s (value (run Win.handle (SearchConnections.listPuttySessions E)
        {| Win.hive := Win.remove key (Win.hive w);
           Win.executable := Win.executable w; Win.readable := Win.readable w;
           Win.toasts := Win.toasts w
             ++ [{| style := Success; title := js "Deleted"; message := Some sessionName |}];
           Win.launched := Win.launched w;
           Win.sessions :=
             filter (fun s => negb (jsstring_eqb (name s) sessionName)) (Win.sessions w) |}))
      -> exists e, In e (Win.hive w) /\ fst e <> key
                   /\ s = SearchConnections.entryOf (fst e)).
    { intros s Hs. rewrite ListFacts.value_list in Hs. cbn [Win.hive] in Hs.
      assert (Htame' : Forall (fun e => Win.listableKey (fst e)) (Win.remove key (Win.hive w))).
      { apply Forall_forall. intros e He. apply filter_In in He as [He _].
        rewrite Forall_forall in Htame. exact (Htame e He). }
      rewrite ListFacts.parseSessions_listable in Hs by exact Htame'.
      apply (Permutation_in _ (ListFacts.sort_perm _ _)) in Hs.
      apply in_map_iff in Hs as [e [<- He]].
      apply filter_In in He as [Hin He].
      apply negb_true_iff, jsstring_eqb_neq in He.
      exists e. split; [exact Hin|]. split; [congruence | reflexivity]. }
    split; [reflexivity|]. split; [reflexivity|]. split; [|split; [|split]].
    + intros s Hs. apply filter_In in Hs as [_ Hs].
      apply negb_true_iff, jsstring_eqb_neq in Hs. exact Hs.
    + apply lookup_removed.
    + intros s Hs. destruct (Hlisted s Hs) as [e [_ [Hne ->]]]. exact Hne.
    + intros Honly s Hs. destruct (Hlisted s Hs) as [e [Hin [Hne ->]]].
      cbn [name SearchConnections.entryOf]. intros Hname.
      exact (Hne (Honly e Hin Hname)).
  - repeat split; reflexivity.
Qed.

(** Two sessions; the one named "my box" is deleted. *)
Lemma delete_removes_session_witness :
  let w :=
    {| Win.hive := [(js "Alpha", []); (js "my%20box", [])];
       Win.executable := fun _ => true; Win.readable := fun _ => true;
       Win.toasts := []; Win.launched := [];
       Win.sessions := [ {| id := js "Alpha"; name := js "Alpha" |};
                         {| id := js "my%20box"; name := js "my box" |} ] |} in
  let after := final (run Win.handle (SearchConnections.deleteSession (js "my box")) w) in
  Win.sessions after = [ {| id := js "Alpha"; name := js "Alpha" |} ]
  /\ forall s, In s (value (run Win.handle
                       (SearchConnections.listPuttySessions plainEngine) after))
               -> id s <> js "my%20box".
Proof.
  cbv zeta.
  pose proof (@delete_removes_session plainEngine
    {| Win.hive := [(js "Alpha", []); (js "my%20box", [])];
       Win.executable := fun _ => true; Win.readable := fun _ => true;
       Win.toasts := []; Win.launched := [];
       Win.sessions := [ {| id := js "Alpha"; name := js "Alpha" |};
                         {| id := js "my%20box"; name := js "my box" |} ] |}
    (js "my box") (js "my%20box") eq_refl) as H.
  cbv zeta in H.
  assert (Hwf : wfString (js "my box")) by (repeat constructor).
  assert (Htame : Forall (fun e : jsstring * Win.regValues => Win.listableKey (fst e))
                    [(js "Alpha", []); (js "my%20box", [])]).
  { repeat (apply Forall_cons;
      [split; [discriminate|]; split;
       [cbn; repeat (apply Forall_cons; [split; [lia | discriminate]|]); apply Forall_nil
       | split; reflexivity]|]).
    apply Forall_nil. }
  specialize (H Hwf Htame).
  match type of H with
  | match ?x with _ => _ end =>
    change x with (Some (@nil (jsstring * Win.regData))) in H
  end.
  destruct H as [_ [Hs [_ [_ [Hl _]]]]]. split; [exact Hs | exact Hl].
Defined.

(** C7, as stated: the keys "a/b" and "a%2Fb" both decode to the name
    "a/b", and the list shows two entries of that name.  Deleting "a/b"
    succeeds: the "Deleted" toast is shown and both entries leave the
    snapshot; but it is the key "a%2Fb" that was removed, and the list
    taken afterwards still has an entry of the name "a/b". *)
Lemma deleted_name_is_still_listed :
  let w :=
    {| Win.hive := [(js "a/b", []); (js "a%2Fb", [])];
       Win.executable := fun _ => true; Win.readable := fun _ => true;
       Win.toasts := []; Win.launched := [];
       Win.sessions := [ {| id := js "a/b"; name := js "a/b" |};
                         {| id := js "a%2Fb"; name := js "a/b" |} ] |} in
  let after := final (run Win.handle (SearchConnections.deleteSession (js "a/b")) w) in
  value (run Win.handle (SearchConnections.listPuttySessions plainEngine) w) = Win.sessions w
  /\ Win.toasts after
     = [{| style := Success; title := js "Deleted"; message := Some (js "a/b") |}]
  /\ Win.sessions after = []
  /\ Win.hive after = [(js "a/b", [])]
  /\ value (run Win.handle (SearchConnections.listPuttySessions plainEngine) after)
     = [ {| id := js "a/b"; name := js "a/b" |} ].
Proof.
  cbv zeta. repeat split; vm_compute; reflexivity.
Qed.

(** ** Further properties *)

(** X1: among the integers, the port test of the forms accepts exactly
    those from 1 to 65535. *)
Theorem port_validation_range (z : Z) :
  invalidPort (JS.ofZ z) = false <-> (1 <= z <= 65535)%Z.
Proof.
  rewrite invalidPort_ofZ.
  destruct (Z.leb_spec 1 z) as [Hlo | Hlo], (Z.leb_spec z 65535) as [Hhi | Hhi];
    cbn; split; intros Hp; try discriminate Hp; try reflexivity; lia.
Qed.

(** A protocol that is none of "ssh", "telnet", "rlogin" and "serial"
    gets the flag "-raw", the default of the switch. *)
Theorem protocolToFlag_default (p : jsstring) :
  ~ In p [js "ssh"; js "telnet"; js "rlogin"; js "serial"] ->
  SearchConnections.TempEditForm.protocolToFlag p = js "-raw".
Proof.
  intros H. unfold SearchConnections.TempEditForm.protocolToFlag.
  repeat match goal with
  | |- context [jsstring_eqb p ?s] =>
    let E := fresh "E" in
    destruct (jsstring_eqb p s) eqn:E;
      [apply jsstring_eqb_eq in E; subst p; exfalso; apply H; cbn; tauto|]
  end.
  reflexivity.
Qed.

Lemma protocolToFlag_default_witness :
  SearchConnections.TempEditForm.protocolToFlag (js "gopher") = js "-raw".
Proof.
  apply protocolToFlag_default. cbn.
  intros [H | [H | [H | [H | H]]]]; try discriminate H. exact H.
Defined.

(** X2: for a session name with a surrogate standing alone, in any
    environment, [writeRegistryValues], [readSessionValues] and
    [deleteSession] are rejected with the URIError before any call is
    made. *)
Theorem unencodable_name_is_rejected
    (E : JS.Engine) (World : Type) (handle : forall X, call X -> World -> X * World)
    (w : World) (sessionName : jsstring) (values : SessionValues) :
  encodeSessionKey sessionName = None ->
  let written := run handle (writeRegistryValues E sessionName values) w in
  let read := run handle (SearchConnections.readSessionValues sessionName) w in
  let deleted := run handle (SearchConnections.deleteSession sessionName) w in
  (value written = Rejected uriError /\ events written = [])
  /\ (value read = Rejected uriError /\ events read = [])
  /\ (value deleted = Rejected uriError /\ events deleted = []).
Proof.
  intros H written read deleted. subst written read deleted.
  unfold writeRegistryValues, SearchConnections.readSessionValues,
    SearchConnections.deleteSession.
  rewrite H. cbn. repeat split; reflexivity.
Qed.

Lemma unencodable_name_is_rejected_witness :
  value (run Win.handle
    (writeRegistryValues plainEngine [0xDC00%N] SearchConnections.defaults) (Win.start []))
  = Rejected uriError.
Proof.
  exact (proj1 (proj1 (@unencodable_name_is_rejected plainEngine Win.World Win.handle
    (Win.start []) [0xDC00%N] SearchConnections.defaults eq_refl))).
Defined.

(** The decoder of the model needs no more fuel than it is given: with
    any larger fuel [decodeURIComponent] returns the same. *)
Theorem decodeURIComponent_fuel (s : jsstring) (fuel : nat) :
  (length s < fuel)%nat -> URI.Decode fuel s = URI.decodeURIComponent s.
Proof.
  intros H. unfold URI.decodeURIComponent.
  apply (@URIFacts.Decode_fuel (length s)); lia.
Qed.

Lemma decodeURIComponent_fuel_witness :
  URI.Decode 100 (js "a%20b") = URI.decodeURIComponent (js "a%20b").
Proof. apply decodeURIComponent_fuel. cbn. lia. Defined.

(** ** More about session key names *)

Module KeyFacts.

Local Open Scope N_scope.

Lemma decode_encoded name key :
  encodeSessionKey name = Some key -> wfString name -> decodeSessionKey key = name.
Proof.
  intros Hkey Hwf. unfold decodeSessionKey, URI.decodeURIComponent.
  rewrite (@URIFacts.Decode_Encode (length name) name (le_n _) Hwf key Hkey
             (S (length key)) (Nat.lt_succ_diag_r _)).
  reflexivity.
Qed.

Lemma Encode_unescaped s :
  Forall (fun c => URI.uriUnescaped c = true) s -> URI.Encode s = Some s.
Proof.
  induction 1 as [|c s Hc _ IH]; [reflexivity|].
  cbn [URI.Encode]. rewrite Hc, IH. reflexivity.
Qed.

Lemma Decode_no_percent s : forall f,
  (length s < f)%nat -> ~ In 37 s -> URI.Decode f s = Some s.
Proof.
  induction s as [|c s IH]; intros f Hf Hn.
  - destruct f; [inversion Hf | reflexivity].
  - destruct f as [|f]; [inversion Hf|].
    rewrite URIFacts.Decode_plain by (intros ->; apply Hn; left; reflexivity).
    rewrite IH; [reflexivity | cbn in Hf; lia | intros H; apply Hn; right; exact H].
Qed.

(** A "%" with two hexadecimal digits behind it is not the last "%" of
    a text that ends in one without them. *)
Lemma parseHexOctet_before a rest b r :
  URI.parseHexOctet (a ++ 37 :: rest) = Some (b, r) ->
  exists a', r = a' ++ 37 :: rest.
Proof.
  destruct a as [|h [|l a']]; cbn.
  - destruct rest as [|l rest']; [discriminate|].
    change (URI.hexValue 37) with (@None N). discriminate.
  - change (URI.hexValue 37) with (@None N).
    destruct (URI.hexValue h); discriminate.
  - destruct (URI.hexValue h), (URI.hexValue l); try discriminate.
    intros H. injection H as _ <-. exists a'. reflexivity.
Qed.

Lemma continuation_before n : forall a rest bs r,
  URI.parseHexOctet rest = None ->
  URI.continuation n (a ++ 37 :: rest) = Some (bs, r) ->
  exists a', r = a' ++ 37 :: rest.
Proof.
  induction n as [|n IH]; intros a rest bs r Hbad H.
  - cbn in H. injection H as _ <-. exists a. reflexivity.
  - destruct a as [|c a].
    + cbn in H. rewrite Hbad in H. discriminate.
    + cbn [URI.continuation app] in H.
      destruct (N.eq_dec c 37) as [->|Hc].
      * destruct (URI.parseHexOctet (a ++ 37 :: rest)) as [[b s2]|] eqn:Ep; [|discriminate].
        destruct (parseHexOctet_before _ _ Ep) as [a' ->].
        destruct (URI.continuation n (a' ++ 37 :: rest)) as [[bs' s3]|] eqn:Ec; [|discriminate].
        injection H as _ <-. exact (IH _ _ _ _ Hbad Ec).
      * exfalso. revert H.
        destruct c as [|p]; [discriminate|].
        do 6 (destruct p as [p|p|]; try discriminate). contradiction Hc. reflexivity.
Qed.

Lemma Decode_malformed f : forall a rest,
  URI.parseHexOctet rest = None -> URI.Decode f (a ++ 37 :: rest) = None.
Proof.
  induction f as [|f IH]; intros a rest Hbad; [reflexivity|].
  destruct a as [|c a].
  - cbn [app]. rewrite URIFacts.Decode_percent, Hbad. reflexivity.
  - cbn [app]. destruct (N.eq_dec c 37) as [->|Hc].
    + rewrite URIFacts.Decode_percent.
      destruct (URI.parseHexOctet (a ++ 37 :: rest)) as [[b r]|] eqn:Ep; [|reflexivity].
      destruct (parseHexOctet_before _ _ Ep) as [a' ->].
      destruct (URI.leadingOnes b) as [|n]; [rewrite IH by exact Hbad; reflexivity|].
      destruct (Nat.eqb n 0 || Nat.ltb 3 n); [reflexivity|].
      destruct (URI.continuation n (a' ++ 37 :: rest)) as [[bs r2]|] eqn:Ec; [|reflexivity].
      destruct (continuation_before _ _ _ Hbad Ec) as [a2 ->].
      destruct (URI.utf8Decode (b :: bs)); [|reflexivity].
      rewrite IH by exact Hbad. reflexivity.
    + rewrite URIFacts.Decode_plain by exact Hc. rewrite IH by exact Hbad. reflexivity.
Qed.

End KeyFacts.

(** X3: two names that [encodeSessionKey] gives the same key are the same
    name: different sessions never share a registry key. *)
Theorem encodeSessionKey_injective (a b key : jsstring) :
  wfString a -> wfString b ->
  encodeSessionKey a = Some key -> encodeSessionKey b = Some key -> a = b.
Proof.
  intros Ha Hb Ea Eb.
  rewrite <- (KeyFacts.decode_encoded Ea Ha). exact (KeyFacts.decode_encoded Eb Hb).
Qed.

Lemma encodeSessionKey_injective_witness :
  js "my box" = [109; 121; 32; 98; 111; 120]%N.
Proof.
  apply (@encodeSessionKey_injective (js "my box") [109; 121; 32; 98; 111; 120]%N
           (js "my%20box")); try reflexivity; repeat constructor.
Defined.

(** X4: a key made by [encodeSessionKey] consists of the unescaped
    characters of [encodeURIComponent] and of "%": it holds no backslash,
    no double quote, no space and no line terminator, so that it is one
    component of the registry path and stays inside the quotes of the
    command line. *)
Theorem encoded_key_characters (name key : jsstring) :
  wfString name -> encodeSessionKey name = Some key ->
  Forall (fun c => URI.uriUnescaped c = true \/ c = 37%N) key
  /\ ~ In 92%N key /\ ~ In 34%N key /\ ~ In 32%N key
  /\ Forall (fun c => JS.isLineTerminator c = false) key.
Proof.
  intros Hwf Hkey.
  assert (Hk : Forall URI.keyChar key)
    by exact (@ClassFacts.Encode_keyChars (length name) name (le_n _) Hwf key Hkey).
  split; [exact Hk|].
  rewrite Forall_forall in Hk.
  assert (Hp : forall c, In c key -> (33 <= c <= 126)%N)
    by (intros c Hc; exact (ClassFacts.keyChar_printable (Hk c Hc))).
  repeat split.
  - intros H. exact (proj1 (proj2 (ClassFacts.keyChar_plain (Hk _ H))) eq_refl).
  - intros H. exact (proj1 (ClassFacts.keyChar_plain (Hk _ H)) eq_refl).
  - intros H. apply Hp in H. lia.
  - apply Forall_forall. intros c Hc. apply Hp in Hc.
    unfold JS.isLineTerminator. cbn [existsb].
    repeat match goal with
    | |- context [N.eqb ?a ?b] => destruct (N.eqb_spec a b); [lia|]
    end.
    reflexivity.
Qed.

Lemma encoded_key_characters_witness :
  ~ In 92%N (js "srv%5Cprod%2Fweb%201").
Proof.
  exact (proj1 (proj2 (@encoded_key_characters (js "srv\prod/web 1") (js "srv%5Cprod%2Fweb%201")
    ltac:(repeat constructor) eq_refl))).
Defined.

(** X5: a name made of letters, digits and the marks - _ . ! ~ * ' ( )
    only is its own key, and a key without "%" is its own name. *)
Theorem plain_names_are_their_keys (s : jsstring) :
  (Forall (fun c => URI.uriUnescaped c = true) s -> encodeSessionKey s = Some s)
  /\ (~ In 37%N s -> decodeSessionKey s = s).
Proof.
  split.
  - apply KeyFacts.Encode_unescaped.
  - intros H. unfold decodeSessionKey, URI.decodeURIComponent.
    rewrite KeyFacts.Decode_no_percent by (auto; lia). reflexivity.
Qed.

Lemma plain_names_are_their_keys_witness :
  encodeSessionKey (js "web-1.example_(old)") = Some (js "web-1.example_(old)")
  /\ decodeSessionKey (js "a+b c") = js "a+b c".
Proof.
  split.
  - apply (proj1 (plain_names_are_their_keys (js "web-1.example_(old)"))).
    repeat (apply Forall_cons; [reflexivity|]). apply Forall_nil.
  - apply (proj2 (plain_names_are_their_keys (js "a+b c"))).
    cbn. intuition discriminate.
Defined.

(** X6: a key in which some "%" is not followed by two hexadecimal digits
    cannot be decoded, whatever else it holds: [decodeSessionKey] returns it
    as it is. *)
Theorem malformed_key_is_its_own_name (a rest : jsstring) :
  URI.parseHexOctet rest = None -> decodeSessionKey (a ++ 37%N :: rest) = a ++ 37%N :: rest.
Proof.
  intros H. unfold decodeSessionKey, URI.decodeURIComponent.
  rewrite KeyFacts.Decode_malformed by exact H. reflexivity.
Qed.

Lemma malformed_key_is_its_own_name_witness :
  decodeSessionKey (js "50%25 of 100%zz") = js "50%25 of 100%zz".
Proof.
  exact (@malformed_key_is_its_own_name (js "50%25 of 100") (js "zz") eq_refl).
Defined.

(** X7: a key that [encodeSessionKey] made is the key of the name it
    decodes to: an entry listed for such a key leads every action on its
    name back to that key. *)
Theorem listed_name_leads_to_its_key (name_ key : jsstring) :
  wfString name_ -> encodeSessionKey name_ = Some key ->
  encodeSessionKey (decodeSessionKey key) = Some key.
Proof.
  intros Hwf Hkey. rewrite (KeyFacts.decode_encoded Hkey Hwf). exact Hkey.
Qed.

Lemma listed_name_leads_to_its_key_witness :
  encodeSessionKey (decodeSessionKey (js "my%20box")) = Some (js "my%20box").
Proof.
  exact (@listed_name_leads_to_its_key (js "my box") (js "my%20box")
    ltac:(repeat constructor) eq_refl).
Defined.

(** ** Programs that leave the registry alone *)

Section ShellFree.

Variable World : Type.
Variable handle : forall X, call X -> World -> X * World.

Lemma shellFree_events (A : Type) (p : prog A) :
  shellFree p -> forall w, existsb isExec (events (run handle p w)) = false.
Proof.
  induction 1 as [a | X c k Hc _ IH]; intros w; [reflexivity|].
  cbn [run]. destruct (handle c w) as [x w1]. cbn [events existsb].
  rewrite IH. destruct c; try reflexivity. contradiction Hc.
Qed.

Lemma shellFree_bind (A B : Type) (p : prog A) (f : A -> prog B) :
  shellFree p -> (forall a, shellFree (f a)) -> shellFree (bind p f).
Proof.
  induction 1 as [a | X c k Hc _ IH]; intros Hf; cbn [bind]; [apply Hf|].
  apply shellFree_Do; [exact Hc|]. intros x. apply IH. exact Hf.
Qed.

Lemma shellFree_perform (X : Type) (c : call X) :
  match c with Exec _ => False | _ => True end -> shellFree (perform c).
Proof. intros Hc. apply shellFree_Do; [exact Hc|]. intros x. apply shellFree_Ret. Qed.

Lemma shellFree_fileExists path : shellFree (fileExists path).
Proof.
  apply shellFree_Do; [exact I|]. intros [|]; [apply shellFree_Ret|].
  apply shellFree_Do; [exact I|]. intros x. apply shellFree_Ret.
Qed.

Lemma shellFree_showToast s t m : shellFree (showToast s t m).
Proof. apply shellFree_perform. exact I. Qed.

Lemma shellFree_dismiss : shellFree dismiss.
Proof.
  unfold dismiss. repeat (apply shellFree_bind; [apply shellFree_perform; exact I | intros _]).
  apply shellFree_Ret.
Qed.

End ShellFree.

(** X8: [launchSession] and the form for a temporary connection never call
    [exec]: whatever is submitted and whatever the outside answers, they
    read and change nothing in the registry. *)
Theorem launching_runs_no_command
    (E : JS.Engine) (World : Type) (handle : forall X, call X -> World -> X * World)
    (w : World) (puttyPath sessionName : jsstring) (values : SearchConnections.FormValues) :
  existsb isExec
    (events (run handle (SearchConnections.launchSession puttyPath sessionName) w)) = false
  /\ existsb isExec
       (events (run handle
          (SearchConnections.TempEditForm.handleSubmit E puttyPath values) w)) = false.
Proof.
  split; apply shellFree_events.
  - unfold SearchConnections.launchSession.
    apply shellFree_bind; [apply shellFree_fileExists|].
    intros [|]; cbn [negb]; [apply shellFree_perform; exact I | apply shellFree_showToast].
  - unfold SearchConnections.TempEditForm.handleSubmit.
    destruct (isEmpty _); [apply shellFree_showToast|].
    destruct (invalidPort _); [apply shellFree_showToast|].
    apply shellFree_bind; [apply shellFree_fileExists|].
    intros [|]; cbn [negb]; [|apply shellFree_showToast].
    apply shellFree_bind; [apply shellFree_perform; exact I|].
    intros _. apply shellFree_dismiss.
Qed.

(** ** The create form and the edit form, step by step *)

Section Traces.

Variable World : Type.
Variable handle : forall X, call X -> World -> X * World.

Lemma run_showToast s t m (w : World) :
  run handle (showToast s t m) w =
  {| value := tt;
     final := snd (handle (ShowToast {| style := s; title := t; message := m |}) w);
     events := [Event (ShowToast {| style := s; title := t; message := m |}) tt] |}.
Proof.
  unfold showToast, perform. cbn [run].
  destruct (handle (ShowToast {| style := s; title := t; message := m |}) w) as [[] w1].
  reflexivity.
Qed.

Lemma run_launch file args (w : World) :
  run handle (perform (ExecFile file args)) w =
  {| value := tt; final := snd (handle (ExecFile file args) w);
     events := [started file args] |}.
Proof.
  unfold perform. cbn [run]. destruct (handle (ExecFile file args) w) as [[] w1]. reflexivity.
Qed.

End Traces.

(** X9: with "Save session" not ticked, a valid submission of the create
    form does nothing at all: no command, no check of the executable, no
    process, no toast. *)
Theorem unsaved_connection_is_dropped
    (E : JS.Engine) (World : Type) (handle : forall X, call X -> World -> X * World)
    (w : World) (puttyPath : jsstring) (values : AddConnection.FormValues) :
  AddConnection.host values <> [] ->
  invalidPort (JS.Number E (AddConnection.port values)) = false ->
  AddConnection.save values = false ->
  let r := run handle (AddConnection.handleSubmit E puttyPath values) w in
  events r = [] /\ final r = w.
Proof.
  intros Hh Hp Hs r. subst r. unfold AddConnection.handleSubmit.
  destruct (AddConnection.host values) as [|c host] eqn:Eh; [contradiction Hh; reflexivity|].
  cbn [isEmpty]. rewrite Hp, Hs. split; reflexivity.
Qed.

Lemma unsaved_connection_is_dropped_witness :
  events (run Win.handle (AddConnection.handleSubmit plainEngine (js "C:\putty.exe")
      {| AddConnection.host := js "example.com"; AddConnection.port := js "22";
         AddConnection.protocol := js "ssh"; AddConnection.closeOnExit := js "never";
         AddConnection.save := false; AddConnection.savedName := Some (js "box") |})
    (Win.start []))
  = [].
Proof.
  refine (proj1 (@unsaved_connection_is_dropped plainEngine Win.World Win.handle (Win.start [])
    (js "C:\putty.exe") _ _ _ _)).
  - discriminate.
  - reflexivity.
  - reflexivity.
Defined.

(** X10: a valid submission of the edit form writes the session first.
    When the write is rejected the failure toast with the message of the
    error is all that follows: no check of the executable, no process, and
    the form stays.  When it is fulfilled, the success toast, the check of
    the executable, then the start of PuTTY with [-load] and the name or
    the "path not found" toast, and in both cases the form is dismissed. *)
Theorem edit_form_steps
    (E : JS.Engine) (World : Type) (handle : forall X, call X -> World -> X * World)
    (w : World) (sessionName puttyPath : jsstring) (values : SearchConnections.FormValues) :
  SearchConnections.host values <> [] ->
  invalidPort (JS.Number E (SearchConnections.port values)) = false ->
  let record :=
    {| HostName := SearchConnections.host values;
       PortNumber := JS.Number E (SearchConnections.port values);
       Protocol := SearchConnections.protocol values;
       CloseOnExit := SearchConnections.closeOnExit values |} in
  let written := run handle (writeRegistryValues E sessionName record) w in
  let r := run handle
             (SearchConnections.EditConnectionForm.handleSubmit E sessionName puttyPath values)
             w in
  match value written with
  | Rejected e =>
    events r = events written
      ++ [Event (ShowToast {| style := Failure; title := js "Failed to update session";
                              message := Some e |}) tt]
  | Fulfilled _ =>
    let updated := {| style := Success; title := js "Session updated";
                      message := Some sessionName |} in
    let check := run handle (fileExists puttyPath)
                   (snd (handle _ (ShowToast updated) (final written))) in
    exists a b,
      events r = events written ++ [Event (ShowToast updated) tt] ++ events check
        ++ [if value check then started puttyPath [js "-load"; sessionName]
            else pathNotFoundShown puttyPath]
        ++ [Event PopToRoot a; Event CloseMainWindow b]
  end.
Proof.
  intros Hh Hp record written r. subst r.
  unfold SearchConnections.EditConnectionForm.handleSubmit.
  destruct (SearchConnections.host values) as [|c host] eqn:Eh; [contradiction Hh; reflexivity|].
  cbn [isEmpty]. rewrite Hp. rewrite events_bind. fold record. fold written.
  destruct (value written) as [[]|e]; cbv zeta.
  - rewrite !events_bind, !run_showToast. cbn [events final value].
    set (w2 := snd (handle _ (ShowToast _) (final written))).
    destruct (@events_dismiss World handle
      (final (run handle
         (if negb (value (run handle (fileExists puttyPath) w2)) then pathNotFound puttyPath
          else perform (ExecFile puttyPath [js "-load"; sessionName]))
         (final (run handle (fileExists puttyPath) w2))))) as [a [b Hd]].
    exists a, b. rewrite Hd. f_equal. cbn [app]. f_equal. f_equal.
    destruct (value (run handle (fileExists puttyPath) w2)); cbn [negb].
    + rewrite run_launch. reflexivity.
    + unfold pathNotFound. rewrite run_showToast. reflexivity.
  - rewrite run_showToast. reflexivity.
Qed.

Lemma edit_form_steps_witness :
  exists a b,
    events (run Win.handle
      (SearchConnections.EditConnectionForm.handleSubmit plainEngine (js "box")
         (js "C:\putty.exe")
         {| SearchConnections.host := js "example.com"; SearchConnections.port := js "22";
            SearchConnections.protocol := js "ssh";
            SearchConnections.closeOnExit := js "never" |})
      (Win.start []))
    = events (run Win.handle
        (writeRegistryValues plainEngine (js "box")
           {| HostName := js "example.com"; PortNumber := JS.ofZ 22; Protocol := js "ssh";
              CloseOnExit := js "never" |}) (Win.start []))
      ++ [Event (ShowToast {| style := Success; title := js "Session updated";
                              message := Some (js "box") |}) tt]
      ++ [checked (js "C:\putty.exe") X_OK true]
      ++ [started (js "C:\putty.exe") [js "-load"; js "box"]]
      ++ [Event PopToRoot a; Event CloseMainWindow b].
Proof.
  exact (@edit_form_steps plainEngine Win.World Win.handle (Win.start []) (js "box")
    (js "C:\putty.exe")
    {| SearchConnections.host := js "example.com"; SearchConnections.port := js "22";
       SearchConnections.protocol := js "ssh"; SearchConnections.closeOnExit := js "never" |}
    ltac:(discriminate) eq_refl).
Defined.

(** X11: a valid submission of the create form with "Save session" ticked
    writes the session under its trimmed name first.  When the write is
    rejected the failure toast with the message of the error is all that
    follows.  When it is fulfilled, the success toast and the check of the
    executable follow; PuTTY is then started with [-load] and the name and
    the form dismissed, or, the executable missing, the "path not found"
    toast is shown and the form stays. *)
Theorem create_form_steps
    (E : JS.Engine) (World : Type) (handle : forall X, call X -> World -> X * World)
    (w : World) (puttyPath : jsstring) (values : AddConnection.FormValues) :
  AddConnection.host values <> [] ->
  invalidPort (JS.Number E (AddConnection.port values)) = false ->
  AddConnection.save values = true ->
  let sessionName := AddConnection.sessionNameOf values in
  let record :=
    {| HostName := AddConnection.host values;
       PortNumber := JS.Number E (AddConnection.port values);
       Protocol := AddConnection.protocol values;
       CloseOnExit := AddConnection.closeOnExit values |} in
  let written := run handle (writeRegistryValues E sessionName record) w in
  let r := run handle (AddConnection.handleSubmit E puttyPath values) w in
  match value written with
  | Rejected e =>
    events r = events written
      ++ [Event (ShowToast {| style := Failure; title := js "Failed to save session";
                              message := Some e |}) tt]
  | Fulfilled _ =>
    let saved := {| style := Success; title := js "Session saved";
                    message := Some sessionName |} in
    let check := run handle (fileExists puttyPath)
                   (snd (handle _ (ShowToast saved) (final written))) in
    exists a b,
      events r = events written ++ [Event (ShowToast saved) tt] ++ events check
        ++ (if value check
            then [started puttyPath [js "-load"; sessionName];
                  Event PopToRoot a; Event CloseMainWindow b]
            else [pathNotFoundShown puttyPath])
  end.
Proof.
  intros Hh Hp Hs sessionName record written r. subst r.
  unfold AddConnection.handleSubmit.
  destruct (AddConnection.host values) as [|c host] eqn:Eh; [contradiction Hh; reflexivity|].
  cbn [isEmpty]. rewrite Hp, Hs. rewrite events_bind.
  fold sessionName. fold record. fold written.
  destruct (value written) as [[]|e]; cbv zeta.
  - rewrite !events_bind, !run_showToast. cbn [events final value].
    set (w2 := snd (handle _ (ShowToast _) (final written))).
    destruct (value (run handle (fileExists puttyPath) w2)); cbn [negb].
    + rewrite events_bind, run_launch. cbn [events final].
      destruct (@events_dismiss World handle
        (snd (handle _ (ExecFile puttyPath [js "-load"; sessionName])
           (final (run handle (fileExists puttyPath) w2))))) as [a [b Hd]].
      exists a, b. rewrite Hd. reflexivity.
    + exists false, false. unfold pathNotFound. rewrite run_showToast. reflexivity.
  - rewrite run_showToast. reflexivity.
Qed.

Lemma create_form_steps_witness :
  exists a b : bool,
    events (run Win.handle
      (AddConnection.handleSubmit plainEngine (js "C:\putty.exe")
         {| AddConnection.host := js "example.com"; AddConnection.port := js "22";
            AddConnection.protocol := js "ssh"; AddConnection.closeOnExit := js "never";
            AddConnection.save := true; AddConnection.savedName := Some (js " box ") |})
      {| Win.hive := []; Win.executable := fun _ => false; Win.readable := fun _ => false;
         Win.toasts := []; Win.launched := []; Win.sessions := [] |})
    = events (run Win.handle
        (writeRegistryValues plainEngine (js "box")
           {| HostName := js "example.com"; PortNumber := JS.ofZ 22; Protocol := js "ssh";
              CloseOnExit := js "never" |})
        {| Win.hive := []; Win.executable := fun _ => false; Win.readable := fun _ => false;
           Win.toasts := []; Win.launched := []; Win.sessions := [] |})
      ++ [Event (ShowToast {| style := Success; title := js "Session saved";
                              message := Some (js "box") |}) tt]
      ++ [checked (js "C:\putty.exe") X_OK false; checked (js "C:\putty.exe") R_OK false]
      ++ [pathNotFoundShown (js "C:\putty.exe")].
Proof.
  exact (@create_form_steps plainEngine Win.World Win.handle
    {| Win.hive := []; Win.executable := fun _ => false; Win.readable := fun _ => false;
       Win.toasts := []; Win.launched := []; Win.sessions := [] |}
    (js "C:\putty.exe")
    {| AddConnection.host := js "example.com"; AddConnection.port := js "22";
       AddConnection.protocol := js "ssh"; AddConnection.closeOnExit := js "never";
       AddConnection.save := true; AddConnection.savedName := Some (js " box ") |}
    ltac:(discriminate) eq_refl eq_refl).
Defined.

(** ** The check of the executable *)

(** X12: [fileExists] asks whether the path is executable and, only when
    that is denied, whether it is readable; its answer is that of the last
    question asked.  In the model of the outside it is [true] exactly for a
    path that is executable or readable, and nothing is changed. *)
Theorem fileExists_asks_twice_at_most
    (World : Type) (handle : forall X, call X -> World -> X * World) (w : World)
    (w' : Win.World) (path : jsstring) :
  let r := run handle (fileExists path) w in
  ((events r = [Event (Access path X_OK) true] /\ value r = true)
   \/ (events r = [Event (Access path X_OK) false; Event (Access path R_OK) true]
       /\ value r = true)
   \/ (events r = [Event (Access path X_OK) false; Event (Access path R_OK) false]
       /\ value r = false))
  /\ value (run Win.handle (fileExists path) w')
     = Win.executable w' path || Win.readable w' path
  /\ final (run Win.handle (fileExists path) w') = w'.
Proof.
  cbv zeta. split; [exact (fileExists_cases handle path w)|].
  unfold fileExists. cbn [run Win.handle].
  destruct (Win.executable w' path); cbn [run value final orb]; split; reflexivity.
Qed.

(** ** The list when the command is shown *)

(** X13: every entry of the list [listPuttySessions] returns, whatever
    [reg query] printed, has an id that is not empty and the name that
    [decodeSessionKey] gives for that id. *)
Theorem listed_entries_are_decoded_ids
    (E : JS.Engine) (World : Type) (handle : forall X, call X -> World -> X * World)
    (w : World) :
  Forall (fun s => id s <> [] /\ name s = decodeSessionKey (id s))
    (value (run handle (SearchConnections.listPuttySessions E) w)).
Proof.
  unfold SearchConnections.listPuttySessions. cbn [run].
  destruct (handle _ (Exec (js "reg query " ++ quote ++ sessionsRoot ++ quote)) w)
    as [answer w1].
  destruct (error answer); cbn [run value]; [apply Forall_nil|].
  apply Forall_forall. intros s Hs.
  apply (Permutation_in _ (ListFacts.sort_perm _ _)) in Hs.
  unfold SearchConnections.parseSessions in Hs.
  apply in_flat_map in Hs as [line [_ Hs]].
  unfold SearchConnections.sessionOfLine in Hs.
  destruct (JS.startsWith line (js "HKEY_")); [|contradiction Hs].
  destruct (JS.regexMatch SearchConnections.sessionLine line) as [[|id_ caps]|];
    try contradiction Hs.
  destruct id_ as [|c id_]; [contradiction Hs|].
  destruct Hs as [<- | []]. split; [discriminate | reflexivity].
Qed.

(** ** The registry after a write *)

Module StoreFacts.

Import JS Win.
Local Open Scope N_scope.

Lemma setHive_same w : setHive w (hive w) = w.
Proof. destruct w; reflexivity. Qed.

Lemma final_runNext cmds : forall w,
  final (run handle (runNext cmds) w)
  = setHive w (hive (final (run handle (runNext cmds) w))).
Proof.
  induction cmds as [|cmd cmds IH]; intros w.
  - cbn. symmetry. apply setHive_same.
  - cbn [runNext]. rewrite WinFacts.run_Exec. cbv zeta. cbn [final].
    destruct (error (fst (exec cmd (hive w)))); [reflexivity|].
    rewrite IH. reflexivity.
Qed.

Lemma run_write E w sessionName key host p protocol closeOnExit :
  encodeSessionKey sessionName = Some key -> sessionName <> [] -> wfString sessionName ->
  noQuote host -> (0 <= p < 2 ^ 32)%Z ->
  In protocol protocols -> In closeOnExit closeOnExits ->
  let written :=
    run handle (writeRegistryValues E sessionName
      {| HostName := host; PortNumber := ofZ p; Protocol := protocol;
         CloseOnExit := closeOnExit |}) w in
  value written = Fulfilled tt
  /\ final written
     = setHive w (after (writeCommands key host p protocol closeOnExit) (hive w)).
Proof.
  intros Hkey Hname Hwf Hhost Hp Hpr Hc written.
  destruct (WinFacts.encoded_key Hkey Hname Hwf) as [Hne Hk].
  set (values := {| HostName := host; PortNumber := ofZ p; Protocol := protocol;
                    CloseOnExit := closeOnExit |}) in *.
  assert (Hw : writeRegistryValues E sessionName values
               = runNext (createKeyCommand (sessionKeyPath key)
                            :: valueCommands E (sessionKeyPath key) values)).
  { unfold writeRegistryValues. rewrite Hkey. reflexivity. }
  destruct (@WinFacts.run_runNext_ok
    (createKeyCommand (sessionKeyPath key) :: valueCommands E (sessionKeyPath key) values)
    (writeCommands key host p protocol closeOnExit) w) as [Hv Hh].
  { apply Forall2_cons.
    - intros r. apply WinFacts.exec_create; assumption.
    - apply WinFacts.exec_values; auto. }
  { repeat (apply Forall_cons; [intros r; reflexivity|]). apply Forall_nil. }
  subst written. rewrite Hw. split; [exact Hv|].
  rewrite final_runNext, Hh. reflexivity.
Qed.

Lemma lookup_app_other (A : Type) k k' (a : A) l :
  k <> k' -> lookup k (l ++ [(k', a)]) = lookup k l.
Proof.
  intros Hne. induction l as [|[m b] l IH]; cbn.
  - apply jsstring_eqb_neq in Hne. rewrite Hne. reflexivity.
  - destruct (jsstring_eqb k m); [reflexivity | exact IH].
Qed.

Lemma lookup_add_other key k r :
  k <> key -> lookup k (snd (applyCommand (AddKey key) r)) = lookup k r.
Proof.
  intros Hne. cbn. destruct (lookup key r); [reflexivity|]. apply lookup_app_other. exact Hne.
Qed.

Lemma lookup_set_other key n d k r :
  k <> key -> lookup k (snd (applyCommand (SetValue key n d) r)) = lookup k r.
Proof.
  intros Hne. cbn. destruct (lookup key r).
  - apply WinFacts.lookup_upsert_other. congruence.
  - apply lookup_app_other. exact Hne.
Qed.

Lemma lookup_write_other key host p protocol closeOnExit k r :
  k <> key -> lookup k (after (writeCommands key host p protocol closeOnExit) r) = lookup k r.
Proof.
  intros Hne. unfold after, writeCommands. cbn [fold_left].
  rewrite !lookup_set_other by exact Hne. apply lookup_add_other. exact Hne.
Qed.

Lemma map_fst_upsert (A : Type) k (a : A) l :
  lookup k l <> None -> map fst (upsert k a l) = map fst l.
Proof.
  induction l as [|[m b] l IH]; cbn; intros H; [contradiction H; reflexivity|].
  destruct (jsstring_eqb k m); [reflexivity|]. cbn. f_equal. exact (IH H).
Qed.

Lemma keys_set key n d r :
  lookup key r <> None -> map fst (snd (applyCommand (SetValue key n d) r)) = map fst r.
Proof.
  intros H. cbn. destruct (lookup key r) eqn:E; [|contradiction H; reflexivity].
  apply map_fst_upsert. rewrite E. discriminate.
Qed.

Lemma present_set key n d r :
  lookup key r <> None -> lookup key (snd (applyCommand (SetValue key n d) r)) <> None.
Proof.
  intros H. cbn. destruct (lookup key r) eqn:E; [|contradiction H; reflexivity].
  rewrite WinFacts.lookup_upsert. discriminate.
Qed.

Lemma keys_write key host p protocol closeOnExit r :
  map fst (after (writeCommands key host p protocol closeOnExit) r)
  = match lookup key r with Some _ => map fst r | None => map fst r ++ [key] end.
Proof.
  unfold after, writeCommands. cbn [fold_left].
  assert (Hadd : lookup key (snd (applyCommand (AddKey key) r)) <> None).
  { cbn. destruct (lookup key r) eqn:E; [rewrite E; discriminate|].
    rewrite WinFacts.lookup_app_last by exact E. discriminate. }
  rewrite !keys_set by (repeat apply present_set; exact Hadd).
  cbn. destruct (lookup key r); [reflexivity|]. rewrite map_app. reflexivity.
Qed.

Lemma stored_other host p protocol closeOnExit old n :
  ~ In n sessionValueNames ->
  lookup n (storedValues host p protocol closeOnExit old) = lookup n old.
Proof.
  intros H. unfold storedValues.
  rewrite !WinFacts.lookup_upsert_other; [reflexivity | | | |];
    intros <-; apply H; cbn; tauto.
Qed.

Lemma tame_stored host p protocol closeOnExit old :
  Forall (fun c => c <> 10) host ->
  In protocol protocols -> In closeOnExit closeOnExits ->
  tameValues old -> tameValues (storedValues host p protocol closeOnExit old).
Proof.
  intros Hhost Hpr Hc [Hnd Hold].
  assert (H10 : forall s, Forall URI.printable s -> Forall (fun c => c <> 10) s).
  { intros s Hs. eapply Forall_impl; [|exact Hs]. unfold URI.printable. intros c Hc0. lia. }
  assert (Hpr' := WinFacts.enumerated_text (or_introl Hpr)).
  assert (Hc' := WinFacts.enumerated_text (or_intror Hc)).
  split; unfold storedValues.
  - repeat apply WinFacts.NoDup_upsert. exact Hnd.
  - repeat apply WinFacts.Forall_upsert; try exact Hold;
      (split; [WinFacts.solve_word|]); cbn; auto; apply H10; tauto.
Qed.

Lemma value_read_missing w sessionName key :
  encodeSessionKey sessionName = Some key -> wfString sessionName ->
  lookup key (hive w) = None ->
  value (run handle (SearchConnections.readSessionValues sessionName) w)
  = Fulfilled SearchConnections.defaults.
Proof.
  intros Hkey Hwf Hl. unfold SearchConnections.readSessionValues. rewrite Hkey.
  rewrite WinFacts.run_Exec. cbv zeta. cbn [value].
  destruct sessionName as [|c rest].
  - cbn in Hkey. injection Hkey as <-. reflexivity.
  - destruct (@WinFacts.encoded_key (c :: rest) key Hkey ltac:(discriminate) Hwf)
      as [Hne Hk].
    rewrite WinFacts.exec_query by assumption. cbn [applyCommand]. rewrite Hl.
    reflexivity.
Qed.

Lemma lookup_remove (A : Type) k (l : list (jsstring * A)) : lookup k (remove k l) = None.
Proof.
  induction l as [|[m b] l IH]; cbn; [reflexivity|].
  destruct (jsstring_eqb k m) eqn:E; cbn; [exact IH|]. rewrite E. exact IH.
Qed.

Lemma lookup_remove_other (A : Type) k k' (l : list (jsstring * A)) :
  k' <> k -> lookup k' (remove k l) = lookup k' l.
Proof.
  intros Hne. induction l as [|[m b] l IH]; cbn; [reflexivity|].
  destruct (jsstring_eqb k m) eqn:E; cbn.
  - apply jsstring_eqb_eq in E. subst m.
    apply jsstring_eqb_neq in Hne. rewrite Hne. exact IH.
  - destruct (jsstring_eqb k' m); [reflexivity | exact IH].
Qed.

End StoreFacts.

(** ** The list when the command is shown, continued *)

Lemma final_fileExists (w : Win.World) path : final (run Win.handle (fileExists path) w) = w.
Proof.
  unfold fileExists. cbn [run Win.handle].
  destruct (Win.executable w path); reflexivity.
Qed.

Lemma final_list (E : JS.Engine) (w : Win.World) :
  final (run Win.handle (SearchConnections.listPuttySessions E) w) = w.
Proof.
  unfold SearchConnections.listPuttySessions. rewrite WinFacts.run_Exec. cbv zeta.
  rewrite WinFacts.exec_root. cbn [Win.applyCommand fst snd Win.succeeded error final run].
  apply StoreFacts.setHive_same.
Qed.

Lemma loadSessions_model (E : JS.Engine) (puttyPath : jsstring) (mounted : bool)
    (w : Win.World) :
  let r := run Win.handle (SearchConnections.loadSessions E puttyPath mounted) w in
  Win.sessions (final r)
  = (if mounted
     then value (run Win.handle (SearchConnections.listPuttySessions E) w)
     else Win.sessions w)
  /\ Win.hive (final r) = Win.hive w /\ Win.launched (final r) = Win.launched w.
Proof.
  cbv zeta. unfold SearchConnections.loadSessions.
  rewrite run_bind. cbv zeta. cbn [final]. rewrite final_fileExists.
  assert (Htail : forall w1 : Win.World,
    Win.hive w1 = Win.hive w -> Win.sessions w1 = Win.sessions w ->
    Win.launched w1 = Win.launched w ->
    let r := run Win.handle
      (list <- SearchConnections.listPuttySessions E ;;
       if mounted then perform (SetSessions (fun _ => list)) ;; Ret false else Ret true) w1 in
    Win.sessions (final r)
    = (if mounted
       then value (run Win.handle (SearchConnections.listPuttySessions E) w)
       else Win.sessions w)
    /\ Win.hive (final r) = Win.hive w /\ Win.launched (final r) = Win.launched w).
  { intros w1 Hh Hs Hl. cbv zeta. rewrite run_bind. cbv zeta. cbn [final].
    rewrite final_list, !ListFacts.value_list, Hh.
    destruct mounted; cbn [bind perform run Win.handle final Win.sessions Win.hive
      Win.launched]; auto. }
  destruct (value (run Win.handle (fileExists puttyPath) w)); cbn [negb].
  - cbn [bind]. apply Htail; reflexivity.
  - rewrite run_bind. cbv zeta. cbn [final]. apply Htail; reflexivity.
Qed.

(** X14: when the command is shown, the check of the executable comes
    first and the "path not found" toast if it fails; the sessions are
    queried in either case.  The list replaces the snapshot, and the
    loading flag is cleared, only if the view is still mounted when the
    list arrives. *)
Theorem sessions_are_loaded_without_putty
    (E : JS.Engine) (World : Type) (handle : forall X, call X -> World -> X * World)
    (w : World) (puttyPath : jsstring) (mounted : bool) :
  let r := run handle (SearchConnections.loadSessions E puttyPath mounted) w in
  let check := run handle (fileExists puttyPath) w in
  let w1 := if value check then final check
            else snd (handle _ (ShowToast {| style := Failure;
                                             title := js "PuTTY path not found";
                                             message := Some puttyPath |}) (final check)) in
  let listed := run handle (SearchConnections.listPuttySessions E) w1 in
  events r = events check
    ++ (if value check then [] else [pathNotFoundShown puttyPath])
    ++ events listed
    ++ (if mounted then [Event (SetSessions (fun _ => value listed)) tt] else [])
  /\ value r = negb mounted
  /\ forall w' : Win.World,
       let r' := run Win.handle (SearchConnections.loadSessions E puttyPath mounted) w' in
       Win.sessions (final r')
       = (if mounted
          then value (run Win.handle (SearchConnections.listPuttySessions E) w')
          else Win.sessions w')
       /\ Win.hive (final r') = Win.hive w' /\ Win.launched (final r') = Win.launched w'.
Proof.
  cbv zeta. rewrite <- and_assoc. split; [|apply loadSessions_model].
  unfold SearchConnections.loadSessions.
  assert (Htail : forall w1,
    events (run handle
      (list <- SearchConnections.listPuttySessions E ;;
       if mounted then perform (SetSessions (fun _ => list)) ;; Ret false else Ret true) w1)
    = events (run handle (SearchConnections.listPuttySessions E) w1)
      ++ (if mounted
          then [Event (SetSessions
                  (fun _ => value (run handle (SearchConnections.listPuttySessions E) w1))) tt]
          else [])
    /\ value (run handle
      (list <- SearchConnections.listPuttySessions E ;;
       if mounted then perform (SetSessions (fun _ => list)) ;; Ret false else Ret true) w1)
      = negb mounted).
  { intros w1. rewrite run_bind. cbv zeta. cbn [events value]. destruct mounted.
    - unfold perform. cbn [bind run]. destruct (handle _ (SetSessions _) _) as [[] w3].
      cbn [events value run]. split; reflexivity.
    - cbn [run events value]. split; reflexivity. }
  rewrite run_bind. cbv zeta. cbn [events value final].
  set (check := run handle (fileExists puttyPath) w).
  destruct (value check); cbn [negb].
  - cbn [bind]. destruct (Htail (final check)) as [H1 H2]. rewrite H1, H2.
    split; reflexivity.
  - rewrite run_bind. cbv zeta. unfold pathNotFound. rewrite run_showToast.
    cbn [events final value].
    destruct (Htail (snd (handle _ (ShowToast {| style := Failure;
                                                 title := js "PuTTY path not found";
                                                 message := Some puttyPath |}) (final check))))
      as [H1 H2].
    rewrite H1, H2. split; reflexivity.
Qed.


(** X15: in the registry model, with keys below [Sessions] that can be
    listed and of which none differs from the key of the session in letter
    case only, for a session name that is not empty and that the encoder
    accepts, a host of printable ASCII that is not empty, has no white
    space at its ends, no double quote and no percent sign and does not
    end in a backslash, a port from 1 to 65535 and a protocol and
    close-on-exit policy of the enumerations, a write is fulfilled and
    changes the four values of its session and nothing else: the other
    values of the key, the other sessions, the toasts, the processes
    started and the snapshot are as before. *)
Theorem write_changes_one_session
    (E : JS.Engine) (w : Win.World)
    (sessionName key host protocol closeOnExit : jsstring) (p : Z) :
  encodeSessionKey sessionName = Some key -> sessionName <> [] -> wfString sessionName ->
  literalHost host -> (1 <= p <= 65535)%Z ->
  In protocol protocols -> In closeOnExit closeOnExits ->
  Forall (fun e => Win.listableKey (fst e)) (Win.hive w) -> Win.caseFree key (Win.hive w) ->
  let written :=
    run Win.handle (writeRegistryValues E sessionName
      {| HostName := host; PortNumber := JS.ofZ p; Protocol := protocol;
         CloseOnExit := closeOnExit |}) w in
  let old := match Win.lookup key (Win.hive w) with Some v => v | None => [] end in
  value written = Fulfilled tt
  /\ (exists new,
        Win.lookup key (Win.hive (final written)) = Some new
        /\ Win.lookup (js "HostName") new = Some (Win.REG_SZ host)
        /\ Win.lookup (js "PortNumber") new = Some (Win.REG_DWORD (Z.to_N p))
        /\ Win.lookup (js "Protocol") new = Some (Win.REG_SZ protocol)
        /\ Win.lookup (js "CloseOnExit") new = Some (Win.REG_SZ closeOnExit)
        /\ forall n, ~ In n Win.sessionValueNames -> Win.lookup n new = Win.lookup n old)
  /\ (forall k, k <> key ->
        Win.lookup k (Win.hive (final written)) = Win.lookup k (Win.hive w))
  /\ Win.toasts (final written) = Win.toasts w
  /\ Win.launched (final written) = Win.launched w
  /\ Win.sessions (final written) = Win.sessions w.
Proof.
  intros Hkey Hname Hwf Hlit Hp Hpr Hc _ _ written old.
  pose proof (WinFacts.noQuote_host (literal_plain Hlit)) as Hhost.
  destruct (@StoreFacts.run_write E w sessionName key host p protocol closeOnExit
              Hkey Hname Hwf Hhost ltac:(lia) Hpr Hc) as [Hv Hf].
  fold written in Hv, Hf. split; [exact Hv|]. rewrite Hf. cbn [Win.setHive Win.hive
    Win.toasts Win.launched Win.sessions].
  assert (Hne4 : forall a b : string, jsstring_eqb (js a) (js b) = false -> js a <> js b).
  { intros a b H. apply jsstring_eqb_neq. exact H. }
  split; [|split; [|repeat split; reflexivity]].
  - exists (Win.storedValues host p protocol closeOnExit old).
    split; [apply WinFacts.lookup_after_write|].
    unfold Win.storedValues.
    repeat split;
      try (rewrite ?WinFacts.lookup_upsert_other by (apply Hne4; reflexivity);
           apply WinFacts.lookup_upsert).
    intros n Hn. apply StoreFacts.stored_other. exact Hn.
  - intros k Hk. apply StoreFacts.lookup_write_other. exact Hk.
Qed.

Lemma write_changes_one_session_witness :
  let w := Win.start [(js "other", [(js "HostName", Win.REG_SZ (js "a"))]);
                      (js "box", [(js "Font", Win.REG_SZ (js "Courier"))])] in
  let written :=
    run Win.handle (writeRegistryValues plainEngine (js "box")
      {| HostName := js "my host"; PortNumber := JS.ofZ 22; Protocol := js "ssh";
         CloseOnExit := js "never" |}) w in
  Win.lookup (js "other") (Win.hive (final written))
  = Some [(js "HostName", Win.REG_SZ (js "a"))].
Proof.
  cbv zeta.
  refine (proj1 (proj2 (proj2 (@write_changes_one_session plainEngine
    (Win.start [(js "other", [(js "HostName", Win.REG_SZ (js "a"))]);
                (js "box", [(js "Font", Win.REG_SZ (js "Courier"))])])
    (js "box") (js "box") (js "my host") (js "ssh") (js "never") 22%Z
    eq_refl _ _ _ _ _ _ _ _))) (js "other") _).
  - discriminate.
  - repeat constructor.
  - split; [discriminate|]. split; [split; reflexivity|]. split; [|discriminate].
    cbn. repeat (apply Forall_cons; [split; [lia | split; discriminate]|]). apply Forall_nil.
  - lia.
  - cbn. tauto.
  - cbn. tauto.
  - cbn [Win.hive Win.start].
    repeat (apply Forall_cons;
      [split; [discriminate|]; split;
       [cbn; repeat (apply Forall_cons; [split; [lia | discriminate]|]); apply Forall_nil
       | split; reflexivity]|]).
    apply Forall_nil.
  - intros e [<- | [<- | []]]; [discriminate | reflexivity].
  - discriminate.
Defined.

(** X16: in the registry model, with keys below [Sessions] that can be
    listed and of which none differs from the key of the session in letter
    case only, after the write of a session name that is not empty and that
    the encoder accepts, with a host of printable ASCII that is not empty,
    has no white space at its ends, no double quote and no percent sign
    and does not end in a backslash, a port from 1 to 65535 and a protocol
    and close-on-exit policy of the enumerations, the session is in the
    list taken afterwards, under its key and its name, and the list holds
    the entries it held before and no other. *)
Theorem saved_session_is_listed
    (E : JS.Engine) (w : Win.World)
    (sessionName key host protocol closeOnExit : jsstring) (p : Z) :
  encodeSessionKey sessionName = Some key -> sessionName <> [] -> wfString sessionName ->
  literalHost host -> (1 <= p <= 65535)%Z ->
  In protocol protocols -> In closeOnExit closeOnExits ->
  Forall (fun e => Win.listableKey (fst e)) (Win.hive w) -> Win.caseFree key (Win.hive w) ->
  let written :=
    run Win.handle (writeRegistryValues E sessionName
      {| HostName := host; PortNumber := JS.ofZ p; Protocol := protocol;
         CloseOnExit := closeOnExit |}) w in
  let before := value (run Win.handle (SearchConnections.listPuttySessions E) w) in
  let listed := value (run Win.handle (SearchConnections.listPuttySessions E)
                         (final written)) in
  In {| id := key; name := sessionName |} listed
  /\ (forall s, In s before -> In s listed)
  /\ (forall s, In s listed -> In s before \/ s = {| id := key; name := sessionName |}).
Proof.
  intros Hkey Hname Hwf Hlit Hp Hpr Hc Htame _ written before listed.
  pose proof (WinFacts.noQuote_host (literal_plain Hlit)) as Hhost.
  destruct (@StoreFacts.run_write E w sessionName key host p protocol closeOnExit
              Hkey Hname Hwf Hhost ltac:(lia) Hpr Hc) as [_ Hf].
  fold written in Hf.
  destruct (WinFacts.encoded_key Hkey Hname Hwf) as [Hne Hk].
  assert (Hentry : SearchConnections.entryOf key = {| id := key; name := sessionName |}).
  { unfold SearchConnections.entryOf. rewrite (KeyFacts.decode_encoded Hkey Hwf). reflexivity. }
  set (r' := Win.after (Win.writeCommands key host p protocol closeOnExit) (Win.hive w)).
  assert (Hkeys : forall k, In k (map fst r') <-> In k (map fst (Win.hive w)) \/ k = key).
  { intros k. subst r'. rewrite StoreFacts.keys_write.
    destruct (Win.lookup key (Win.hive w)) as [v|] eqn:El.
    - split; [tauto|]. intros [H | ->]; [exact H|].
      apply in_map_iff. exists (key, v). split; [reflexivity|].
      exact (WinFacts.lookup_In _ _ El).
    - rewrite in_app_iff. cbn. split; [intros [H | [<- | []]]; tauto|].
      intros [H | ->]; tauto. }
  assert (Htame' : Forall (fun e => Win.listableKey (fst e)) r').
  { apply Forall_forall. intros e He.
    destruct (proj1 (Hkeys (fst e)) (in_map fst _ _ He)) as [H | ->].
    - apply in_map_iff in H as [e' [<- He']].
      rewrite Forall_forall in Htame. exact (Htame e' He').
    - exact (ListFacts.tame_listable (WinFacts.keyChars_tame Hne Hk)). }
  assert (Hbefore : forall s, In s before <-> exists k, In k (map fst (Win.hive w))
                                                /\ s = SearchConnections.entryOf k).
  { intros s. subst before. rewrite ListFacts.value_list.
    rewrite ListFacts.parseSessions_listable by exact Htame.
    split.
    - intros Hs. apply (Permutation_in _ (ListFacts.sort_perm _ _)) in Hs.
      apply in_map_iff in Hs as [e [<- He]]. exists (fst e). split; [|reflexivity].
      apply in_map. exact He.
    - intros [k [Hk' ->]].
      apply (Permutation_in _ (Permutation_sym (ListFacts.sort_perm _ _))).
      apply in_map_iff in Hk' as [e [<- He]]. apply in_map_iff. exists e. tauto. }
  assert (Hlisted : forall s, In s listed <-> exists k, In k (map fst r')
                                                /\ s = SearchConnections.entryOf k).
  { intros s. subst listed. rewrite ListFacts.value_list, Hf. cbn [Win.setHive Win.hive].
    fold r'. rewrite ListFacts.parseSessions_listable by exact Htame'.
    split.
    - intros Hs. apply (Permutation_in _ (ListFacts.sort_perm _ _)) in Hs.
      apply in_map_iff in Hs as [e [<- He]]. exists (fst e). split; [|reflexivity].
      apply in_map. exact He.
    - intros [k [Hk' ->]].
      apply (Permutation_in _ (Permutation_sym (ListFacts.sort_perm _ _))).
      apply in_map_iff in Hk' as [e [<- He]]. apply in_map_iff. exists e. tauto. }
  split; [|split].
  - apply Hlisted. exists key. split; [apply Hkeys; right; reflexivity|].
    symmetry. exact Hentry.
  - intros s Hs. apply Hbefore in Hs as [k [Hk' ->]]. apply Hlisted.
    exists k. split; [apply Hkeys; left; exact Hk' | reflexivity].
  - intros s Hs. apply Hlisted in Hs as [k [Hk' ->]].
    apply Hkeys in Hk' as [Hk' | ->].
    + left. apply Hbefore. exists k. tauto.
    + right. exact Hentry.
Qed.

Lemma saved_session_is_listed_witness :
  In {| id := js "my%20box"; name := js "my box" |}
    (value (run Win.handle (SearchConnections.listPuttySessions plainEngine)
       (final (run Win.handle (writeRegistryValues plainEngine (js "my box")
          {| HostName := js "example.com"; PortNumber := JS.ofZ 22; Protocol := js "ssh";
             CloseOnExit := js "never" |}) (Win.start [(js "Alpha", [])]))))).
Proof.
  refine (proj1 (@saved_session_is_listed plainEngine (Win.start [(js "Alpha", [])])
    (js "my box") (js "my%20box") (js "example.com") (js "ssh") (js "never") 22%Z
    eq_refl _ _ _ _ _ _ _ _)).
  - discriminate.
  - repeat constructor.
  - split; [discriminate|]. split; [split; reflexivity|]. split; [|discriminate].
    cbn. repeat (apply Forall_cons; [split; [lia | split; discriminate]|]). apply Forall_nil.
  - lia.
  - cbn. tauto.
  - cbn. tauto.
  - cbn [Win.hive Win.start].
    repeat (apply Forall_cons;
      [split; [discriminate|]; split;
       [cbn; repeat (apply Forall_cons; [split; [lia | discriminate]|]); apply Forall_nil
       | split; reflexivity]|]).
    apply Forall_nil.
  - intros e [<- | []]; discriminate.
Defined.

(** X17: in the registry model, of two writes of the same session the
    second one counts: for a name that is not empty and that the encoder
    accepts, a key that is absent or holds tame values, and two records
    each with a host that reaches [reg.exe] as written (printable ASCII,
    not empty, no white space at its ends, no double quote, no percent
    sign, no backslash at its end), a port from 1 to 65535 and a protocol
    and a close-on-exit policy of the enumerations, reading the session
    afterwards gives the record written last. *)
Theorem last_write_wins
    (E : JS.Engine) (w : Win.World) (sessionName key : jsstring)
    (host1 protocol1 closeOnExit1 host2 protocol2 closeOnExit2 : jsstring) (p1 p2 : Z) :
  encodeSessionKey sessionName = Some key -> sessionName <> [] -> wfString sessionName ->
  literalHost host1 -> (1 <= p1 <= 65535)%Z ->
  In protocol1 protocols -> In closeOnExit1 closeOnExits ->
  literalHost host2 -> (1 <= p2 <= 65535)%Z ->
  In protocol2 protocols -> In closeOnExit2 closeOnExits ->
  (forall old, Win.lookup key (Win.hive w) = Some old -> Win.tameValues old) ->
  let first :=
    run Win.handle (writeRegistryValues E sessionName
      {| HostName := host1; PortNumber := JS.ofZ p1; Protocol := protocol1;
         CloseOnExit := closeOnExit1 |}) w in
  let second :=
    run Win.handle (writeRegistryValues E sessionName
      {| HostName := host2; PortNumber := JS.ofZ p2; Protocol := protocol2;
         CloseOnExit := closeOnExit2 |}) (final first) in
  value first = Fulfilled tt /\ value second = Fulfilled tt
  /\ value (run Win.handle (SearchConnections.readSessionValues sessionName) (final second))
     = Fulfilled {| HostName := host2; PortNumber := JS.ofZ p2; Protocol := protocol2;
                    CloseOnExit := closeOnExit2 |}.
Proof.
  intros Hkey Hname Hwf Hl1 Hp1 Hpr1 Hc1 Hl2 Hp2 Hpr2 Hc2 Hold first second.
  pose proof (literal_plain Hl1) as Hh1. pose proof (literal_plain Hl2) as Hh2.
  destruct (WinFacts.encoded_key Hkey Hname Hwf) as [Hne Hk].
  destruct (@StoreFacts.run_write E w sessionName key host1 p1 protocol1 closeOnExit1
              Hkey Hname Hwf (WinFacts.noQuote_host Hh1) ltac:(lia) Hpr1 Hc1) as [Hv1 Hf1].
  fold first in Hv1, Hf1.
  destruct (@StoreFacts.run_write E (final first) sessionName key host2 p2 protocol2
              closeOnExit2 Hkey Hname Hwf (WinFacts.noQuote_host Hh2) ltac:(lia) Hpr2 Hc2)
    as [Hv2 Hf2].
  fold second in Hv2, Hf2.
  split; [exact Hv1|]. split; [exact Hv2|].
  assert (Hl : Win.lookup key (Win.hive (final second))
               = Some (Win.storedValues host2 p2 protocol2 closeOnExit2
                         (Win.storedValues host1 p1 protocol1 closeOnExit1
                            (match Win.lookup key (Win.hive w) with
                             | Some v => v | None => [] end)))).
  { rewrite Hf2. cbn [Win.setHive Win.hive]. unfold Win.writeCommands.
    rewrite WinFacts.lookup_after_write.
    rewrite Hf1. cbn [Win.setHive Win.hive]. unfold Win.writeCommands.
    rewrite WinFacts.lookup_after_write. reflexivity. }
  rewrite (@value_read_found _ sessionName key _ Hkey Hne Hk Hl).
  f_equal. apply read_after_write; auto.
  apply StoreFacts.tame_stored; auto.
  - destruct Hh1 as [_ [_ H]]. eapply Forall_impl; [|exact H].
    intros c [_ Ht] ->. discriminate Ht.
  - destruct (Win.lookup key (Win.hive w)) as [old|] eqn:El.
    + apply Hold. reflexivity.
    + split; constructor.
Qed.

Lemma last_write_wins_witness :
  value (run Win.handle (SearchConnections.readSessionValues (js "box"))
    (final (run Win.handle (writeRegistryValues plainEngine (js "box")
       {| HostName := js "new.example.com"; PortNumber := JS.ofZ 23; Protocol := js "telnet";
          CloseOnExit := js "always" |})
       (final (run Win.handle (writeRegistryValues plainEngine (js "box")
          {| HostName := js "example.com"; PortNumber := JS.ofZ 22; Protocol := js "ssh";
             CloseOnExit := js "never" |}) (Win.start []))))))
  = Fulfilled {| HostName := js "new.example.com"; PortNumber := JS.ofZ 23;
                 Protocol := js "telnet"; CloseOnExit := js "always" |}.
Proof.
  refine (proj2 (proj2 (@last_write_wins plainEngine (Win.start []) (js "box") (js "box")
    (js "example.com") (js "ssh") (js "never")
    (js "new.example.com") (js "telnet") (js "always") 22%Z 23%Z
    eq_refl _ _ _ _ _ _ _ _ _ _ _))).
  - discriminate.
  - repeat constructor.
  - split; [discriminate|]. split; [split; reflexivity|]. split; [|discriminate].
    cbn. repeat (apply Forall_cons; [split; [lia | split; discriminate]|]). apply Forall_nil.
  - lia.
  - cbn. tauto.
  - cbn. tauto.
  - split; [discriminate|]. split; [split; reflexivity|]. split; [|discriminate].
    cbn. repeat (apply Forall_cons; [split; [lia | split; discriminate]|]). apply Forall_nil.
  - lia.
  - cbn. tauto.
  - cbn. tauto.
  - intros old H. discriminate H.
Defined.

(** ** The registry after a delete *)

(** X18: in the registry model, deleting a session leaves the other keys
    with their values, the entries of other names in the snapshot, and
    starts no process; this holds whether the delete succeeds or fails. *)
Theorem delete_leaves_the_others
    (w : Win.World) (sessionName key : jsstring) :
  encodeSessionKey sessionName = Some key -> wfString sessionName ->
  Forall (fun e => Win.tameKey (fst e)) (Win.hive w) ->
  let after := final (run Win.handle (SearchConnections.deleteSession sessionName) w) in
  (forall k, k <> key -> Win.lookup k (Win.hive after) = Win.lookup k (Win.hive w))
  /\ (forall s, name s <> sessionName -> (In s (Win.sessions after) <-> In s (Win.sessions w)))
  /\ Win.launched after = Win.launched w.
Proof.
  intros Hkey Hwf Htame after. subst after.
  rewrite (run_deleteSession w Hkey Hwf Htame).
  destruct (Win.lookup key (Win.hive w)) as [vals|];
    cbn [Win.hive Win.sessions Win.launched].
  - split; [|split; [|reflexivity]].
    + intros k Hk. apply StoreFacts.lookup_remove_other. exact Hk.
    + intros s Hs. rewrite filter_In. apply jsstring_eqb_neq in Hs. rewrite Hs. cbn. tauto.
  - split; [|split; [|reflexivity]]; intros; tauto.
Qed.

Lemma delete_leaves_the_others_witness :
  Win.lookup (js "Alpha")
    (Win.hive (final (run Win.handle (SearchConnections.deleteSession (js "my box"))
       (Win.start [(js "Alpha", [(js "HostName", Win.REG_SZ (js "a"))]);
                   (js "my%20box", [])]))))
  = Some [(js "HostName", Win.REG_SZ (js "a"))].
Proof.
  refine (proj1 (@delete_leaves_the_others
    (Win.start [(js "Alpha", [(js "HostName", Win.REG_SZ (js "a"))]); (js "my%20box", [])])
    (js "my box") (js "my%20box") eq_refl _ _) (js "Alpha") _).
  - repeat constructor.
  - cbn [Win.hive Win.start].
    repeat (apply Forall_cons;
      [split; [discriminate|]; cbn;
       repeat (apply Forall_cons; [split; [unfold URI.printable; lia | discriminate]|]);
       apply Forall_nil|]).
    apply Forall_nil.
  - discriminate.
Defined.

(** X19: in the registry model, once a session was deleted its key is
    gone: reading the session gives the default record, and deleting it
    again fails with the failure toast and changes nothing in the
    registry. *)
Theorem deleted_session_is_gone
    (w : Win.World) (sessionName key : jsstring) (vals : Win.regValues) :
  encodeSessionKey sessionName = Some key -> wfString sessionName ->
  Forall (fun e => Win.tameKey (fst e)) (Win.hive w) ->
  Win.lookup key (Win.hive w) = Some vals ->
  let after := final (run Win.handle (SearchConnections.deleteSession sessionName) w) in
  let again := final (run Win.handle (SearchConnections.deleteSession sessionName) after) in
  Win.lookup key (Win.hive after) = None
  /\ value (run Win.handle (SearchConnections.readSessionValues sessionName) after)
     = Fulfilled SearchConnections.defaults
  /\ Win.hive again = Win.hive after
  /\ Win.toasts again = Win.toasts after
       ++ [{| style := Failure; title := js "Failed to delete session";
              message := Some sessionName |}].
Proof.
  intros Hkey Hwf Htame Hl after again.
  assert (Ha : Win.hive after = Win.remove key (Win.hive w)).
  { subst after. rewrite (run_deleteSession w Hkey Hwf Htame), Hl. reflexivity. }
  assert (Hgone : Win.lookup key (Win.hive after) = None).
  { rewrite Ha. apply StoreFacts.lookup_remove. }
  assert (Htame' : Forall (fun e => Win.tameKey (fst e)) (Win.hive after)).
  { rewrite Ha. apply Forall_forall. intros e He. apply filter_In in He as [He _].
    rewrite Forall_forall in Htame. exact (Htame e He). }
  split; [exact Hgone|]. split.
  - exact (StoreFacts.value_read_missing after Hkey Hwf Hgone).
  - subst again. rewrite (run_deleteSession after Hkey Hwf Htame'), Hgone.
    split; reflexivity.
Qed.

Lemma deleted_session_is_gone_witness :
  value (run Win.handle (SearchConnections.readSessionValues (js "my box"))
    (final (run Win.handle (SearchConnections.deleteSession (js "my box"))
       (Win.start [(js "my%20box", [(js "HostName", Win.REG_SZ (js "a"))])]))))
  = Fulfilled SearchConnections.defaults.
Proof.
  refine (proj1 (proj2 (@deleted_session_is_gone
    (Win.start [(js "my%20box", [(js "HostName", Win.REG_SZ (js "a"))])])
    (js "my box") (js "my%20box") [(js "HostName", Win.REG_SZ (js "a"))] eq_refl _ _ eq_refl))).
  - repeat constructor.
  - cbn [Win.hive Win.start].
    repeat (apply Forall_cons;
      [split; [discriminate|]; cbn;
       repeat (apply Forall_cons; [split; [unfold URI.printable; lia | discriminate]|]);
       apply Forall_nil|]).
    apply Forall_nil.
Defined.

(** X20: a key that holds a character [encodeURIComponent] would have
    escaped (a "+", a "/" or an "@", say) is the key of no name.  The
    session is listed, but in the registry model no delete and no write
    reaches it, whatever name is given, the one it is listed under
    included: the key is there afterwards, with the values it had. *)
Theorem key_of_no_name
    (w : Win.World) (k sessionName : jsstring) (c : N) :
  In c k -> URI.uriUnescaped c = false -> c <> 37%N ->
  wfString sessionName ->
  Forall (fun e => Win.tameKey (fst e)) (Win.hive w) ->
  encodeSessionKey sessionName <> Some k
  /\ Win.lookup k
       (Win.hive (final (run Win.handle (SearchConnections.deleteSession sessionName) w)))
     = Win.lookup k (Win.hive w)
  /\ (forall (E : JS.Engine) (host protocol closeOnExit : jsstring) (p : Z),
        Win.noQuote host -> (1 <= p <= 65535)%Z ->
        In protocol protocols -> In closeOnExit closeOnExits ->
        Win.lookup k
          (Win.hive (final (run Win.handle (writeRegistryValues E sessionName
             {| HostName := host; PortNumber := JS.ofZ p; Protocol := protocol;
                CloseOnExit := closeOnExit |}) w)))
        = Win.lookup k (Win.hive w)).
Proof.
  intros Hc Hu Hp Hwf Htame.
  assert (Hno : encodeSessionKey sessionName <> Some k).
  { intros Hkey.
    pose proof (@ClassFacts.Encode_keyChars (length sessionName) sessionName (le_n _) Hwf k Hkey)
      as Hk.
    rewrite Forall_forall in Hk. destruct (Hk c Hc) as [H | H]; congruence. }
  split; [exact Hno|].
  destruct (encodeSessionKey sessionName) as [key|] eqn:Hkey.
  - assert (Hkk : k <> key) by (intros ->; apply Hno; reflexivity).
    split.
    + rewrite (run_deleteSession w Hkey Hwf Htame).
      destruct (Win.lookup key (Win.hive w)); cbn [Win.hive]; [|reflexivity].
      apply StoreFacts.lookup_remove_other. exact Hkk.
    + intros E host protocol closeOnExit p Hhost Hport Hpr Hcl.
      destruct sessionName as [|c0 rest].
      * unfold writeRegistryValues. rewrite Hkey. cbn in Hkey. injection Hkey as <-.
        rewrite WinFacts.run_Exec. cbv zeta. cbn [final].
        change (Win.exec (createKeyCommand (sessionKeyPath [])) (Win.hive w))
          with (Win.failed, Win.hive w).
        reflexivity.
      * destruct (@StoreFacts.run_write E w (c0 :: rest) key host p protocol closeOnExit
                    Hkey ltac:(discriminate) Hwf Hhost ltac:(lia) Hpr Hcl) as [_ Hf].
        rewrite Hf. cbn [Win.setHive Win.hive].
        apply StoreFacts.lookup_write_other. exact Hkk.
  - split.
    + unfold SearchConnections.deleteSession. rewrite Hkey. reflexivity.
    + intros. unfold writeRegistryValues. rewrite Hkey. reflexivity.
Qed.

Lemma key_of_no_name_witness :
  Win.lookup (js "a+b")
    (Win.hive (final (run Win.handle
       (SearchConnections.deleteSession (decodeSessionKey (js "a+b")))
       (Win.start [(js "a+b", [(js "HostName", Win.REG_SZ (js "a"))])]))))
  = Some [(js "HostName", Win.REG_SZ (js "a"))].
Proof.
  refine (proj1 (proj2 (@key_of_no_name
    (Win.start [(js "a+b", [(js "HostName", Win.REG_SZ (js "a"))])])
    (js "a+b") (decodeSessionKey (js "a+b")) 43%N _ eq_refl _ _ _))).
  - cbn. tauto.
  - discriminate.
  - repeat constructor.
  - cbn [Win.hive Win.start].
    repeat (apply Forall_cons;
      [split; [discriminate|]; cbn;
       repeat (apply Forall_cons; [split; [unfold URI.printable; lia | discriminate]|]);
       apply Forall_nil|]).
    apply Forall_nil.
Defined.

(** ** What a read makes of the values of a key *)

Module ReadFacts.

Import JS Win SearchConnections RegexFacts.
Local Open Scope N_scope.

(** A quantifier that took everything gives back the last character when
    the rest of the pattern needs one. *)
Lemma greedy_back (R : Type) (cls : N -> bool) (k : jsstring -> jsstring -> option R) pre :
  forall taken c r,
  Forall (fun x => cls x = true) pre -> cls c = true ->
  k (rev taken ++ pre ++ [c]) [] = None ->
  k (rev taken ++ pre) [c] = Some r ->
  greedy cls k taken (pre ++ [c]) = Some r.
Proof.
  induction pre as [|x pre IH]; intros taken c r Hpre Hc Hnone Hsome.
  - cbn [app greedy]. rewrite Hc. cbn [greedy rev].
    cbn [app] in Hnone. rewrite Hnone. rewrite app_nil_r in Hsome. exact Hsome.
  - inversion Hpre as [|? ? Hx Hpre']; subst. cbn [app greedy]. rewrite Hx.
    rewrite (IH (x :: taken) c r); auto; cbn [rev]; rewrite <- app_assoc; assumption.
Qed.

Lemma trim_trimStart s : trim (trimStart s) = trim s.
Proof.
  unfold trim. rewrite (@TrimFacts.trimStart_fixed (trimStart s) (TrimFacts.trimStart_headFree s)).
  reflexivity.
Qed.

Lemma Forall_forallb (f : N -> bool) s : forallb f s = true <-> Forall (fun c => f c = true) s.
Proof.
  rewrite forallb_forall, Forall_forall. reflexivity.
Qed.

(** The end of the pattern of a value line, [\s+(.+)$], on the data of a
    value: the group captures text that trims to what the data trims to. *)
Lemma match_data t caps :
  Forall (fun c => isDot c = true) t ->
  exists m2,
    matchAtoms [Cls Plus false isWhiteSpace; Cls Plus true isDot; EndOfInput]
      (indent ++ t) caps = Some (rev (m2 :: caps))
    /\ trim m2 = trim t.
Proof.
  intros Hdot. destruct (trimStart t) as [|c0 core] eqn:Ecore.
  - (* the data is blank: the last blank is captured *)
    pose proof (TrimFacts.trimStart_all_inv _ Ecore) as Hws.
    assert (Hne : js "   " ++ t <> []) by discriminate.
    destruct (exists_last Hne) as [pre [c Hlast]].
    assert (Hall : Forall (fun x => isWhiteSpace x = true) (pre ++ [c])).
    { rewrite <- Hlast. apply Forall_app. split.
      - repeat (apply Forall_cons; [reflexivity|]). apply Forall_nil.
      - apply Forall_forallb. exact Hws. }
    assert (Hdots : Forall (fun x => isDot x = true) (pre ++ [c])).
    { rewrite <- Hlast. apply Forall_app. split; [|exact Hdot].
      repeat (apply Forall_cons; [reflexivity|]). apply Forall_nil. }
    apply Forall_app in Hall as [Hpre Hc]. inversion Hc as [|? ? Hc' _]; subst.
    apply Forall_app in Hdots as [_ Hd]. inversion Hd as [|? ? Hd' _]; subst.
    exists [c]. split.
    + change (indent ++ t) with (32 :: (js "   " ++ t)). rewrite Hlast.
      cbn [matchAtoms]. change (isWhiteSpace 32) with true. cbv iota.
      apply greedy_back; auto.
      cbn [pushCapture matchAtoms]. rewrite Hd'. reflexivity.
    + rewrite (TrimFacts.trim_all t Hws). apply TrimFacts.trim_all. cbn. rewrite Hc'. reflexivity.
  - (* the group captures the data from its first character that is no blank *)
    destruct (TrimFacts.trimStart_suffix t) as [p [Ht Hp]].
    rewrite Ecore in Ht.
    pose proof (TrimFacts.trimStart_headFree t) as Hh. rewrite Ecore in Hh.
    assert (Hcore : Forall (fun c => isDot c = true) (c0 :: core)).
    { rewrite Ht in Hdot. apply Forall_app in Hdot. tauto. }
    exists (c0 :: core). split.
    + rewrite Ht, app_assoc.
      apply matchAtoms_plus_first.
      * discriminate.
      * apply Forall_app. split; [exact WinFacts.indent_spaces | apply Forall_forallb; exact Hp].
      * exact Hh.
      * cbn [pushCapture]. rewrite <- (app_nil_r (c0 :: core)) at 1.
        apply matchAtoms_plus_first; auto; [discriminate | exact I].
    + rewrite <- Ecore. apply trim_trimStart.
Qed.

(** A value line gives its name and its data, trimmed, whatever the data
    is as long as it holds no line terminator. *)
Lemma readLine_any acc name_ d :
  plainName name_ -> Forall (fun c => isDot c = true) (dataText d) ->
  readLine acc (valueLineOf (name_, d)) = assign name_ (trim (dataText d)) acc.
Proof.
  intros Hn Hdot. unfold readLine, regexMatch. cbn [anchored].
  rewrite (WinFacts.match_value_line d Hn).
  destruct (match_data [name_] Hdot) as [m2 [-> <-]]. reflexivity.
Qed.

Lemma lookup_absent (A : Type) k (l : list (jsstring * A)) a :
  lookup k l = None -> ~ In (k, a) l.
Proof.
  induction l as [|[m b] l IH]; cbn; intros Hl H; [exact H|].
  destruct H as [H | H].
  - injection H as -> _. rewrite jsstring_eqb_refl in Hl. discriminate.
  - destruct (jsstring_eqb k m); [discriminate|]. exact (IH Hl H).
Qed.

Lemma dword_dots n : Forall (fun c => isDot c = true) (dataText (REG_DWORD n)).
Proof. exact (proj1 (proj2 (proj2 (WinFacts.dword_text n)))). Qed.

End ReadFacts.

(** X21: in the registry model, for a session whose key is there, with
    values of plain names and strings without line terminator, a read
    gives field by field what the key holds: the text of the value of that
    name with the white space at its ends removed, whatever its type, and
    the default of the field when the key has no value of that name.  The
    port is the number of a [REG_DWORD], and what [parseInt] makes of a
    string (radix 16 after "0x", else 10). *)
Theorem read_field_by_field
    (w : Win.World) (sessionName key : jsstring) (vals : Win.regValues) :
  encodeSessionKey sessionName = Some key -> sessionName <> [] -> wfString sessionName ->
  Win.lookup key (Win.hive w) = Some vals ->
  NoDup (map fst vals) ->
  Forall (fun v => Win.plainName (fst v)
                   /\ match snd v with
                      | Win.REG_SZ s => Forall (fun c => JS.isLineTerminator c = false) s
                      | Win.REG_DWORD n => (n < 2 ^ 32)%N
                      end) vals ->
  let text n dflt :=
    match Win.lookup n vals with
    | Some d => JS.trim (Win.dataText d)
    | None => dflt
    end in
  value (run Win.handle (SearchConnections.readSessionValues sessionName) w)
  = Fulfilled
      {| HostName := text (js "HostName") [];
         PortNumber :=
           match Win.lookup (js "PortNumber") vals with
           | Some (Win.REG_DWORD n) => JS.ofZ (Z.of_N n)
           | Some (Win.REG_SZ s) =>
             if JS.regexTest SearchConnections.hexPrefix (JS.trim s)
             then JS.parseInt (JS.trim s) 16 else JS.parseInt (JS.trim s) 10
           | None => JS.ofZ 23
           end;
         Protocol := text (js "Protocol") (js "raw");
         CloseOnExit := text (js "CloseOnExit") (js "onexit") |}.
Proof.
  intros Hkey Hname Hwf Hl Hnd Hvals text.
  destruct (WinFacts.encoded_key Hkey Hname Hwf) as [Hne Hk].
  rewrite (@value_read_found _ sessionName key _ Hkey Hne Hk Hl). f_equal.
  assert (Hdots : forall v, In v vals ->
            Forall (fun c => JS.isDot c = true) (Win.dataText (snd v))).
  { intros [n [s | m]] Hv; [|apply ReadFacts.dword_dots].
    rewrite Forall_forall in Hvals. destruct (Hvals _ Hv) as [_ Hs].
    cbn [snd Win.dataText] in Hs |- *.
    eapply Forall_impl; [|exact Hs]. intros c Hc. unfold JS.isDot. rewrite Hc. reflexivity. }
  assert (Hplain : Forall (fun v => Win.plainName (fst v)) vals).
  { eapply Forall_impl; [|exact Hvals]. intros v [H _]. exact H. }
  assert (Htame : Forall (fun v => Win.plainName (fst v) /\ Win.noLineFeed (snd v)) vals).
  { apply Forall_forall. intros v Hv. rewrite Forall_forall in Hvals.
    destruct (Hvals _ Hv) as [Hp Hd]. split; [exact Hp|].
    destruct v as [n [s | m]]; cbn [snd Win.noLineFeed] in Hd |- *; [|exact I].
    eapply Forall_impl; [|exact Hd]. intros c Hc ->. discriminate Hc. }
  rewrite WinFacts.parseValues_printKey;
    [| eapply Forall_impl; [|exact Hk]; intros c Hc0; apply ClassFacts.keyChar_plain; exact Hc0
     | exact Htame].
  assert (Hline : forall v acc, In v vals ->
            SearchConnections.readLine acc (Win.valueLineOf v)
            = SearchConnections.assign (fst v) (JS.trim (Win.dataText (snd v))) acc).
  { intros [n d] acc Hv. rewrite Forall_forall in Hplain.
    apply ReadFacts.readLine_any; [exact (Hplain _ Hv) | exact (Hdots _ Hv)]. }
  assert (Hown : forall field d v, Win.lookup field vals = Some d -> In v vals ->
                   fst v = field -> v = (field, d)).
  { intros field d [n d'] Hl' Hin Hf. cbn in Hf. subst n. f_equal.
    exact (@WinFacts.lookup_unique _ field d d' vals Hnd Hl' Hin). }
  assert (Hnone : forall field v, Win.lookup field vals = None -> In v vals ->
                    fst v = field -> False).
  { intros field [n d] Hl' Hin Hf. cbn in Hf. subst n.
    exact (ReadFacts.lookup_absent _ _ d Hl' Hin). }
  apply WinFacts.values_eq; cbn [HostName PortNumber Protocol CloseOnExit]; subst text;
    cbv beta.
  - apply (@WinFacts.fold_field _ HostName (js "HostName")); auto.
    + intros n v acc En. rewrite WinFacts.HostName_assign, En. reflexivity.
    + intros v acc' Hin Hf. destruct (Win.lookup (js "HostName") vals) as [d|] eqn:E.
      * rewrite (Hline _ _ Hin), (Hown _ _ _ E Hin Hf). cbn [fst snd].
        rewrite WinFacts.HostName_assign, jsstring_eqb_refl. reflexivity.
      * destruct (Hnone _ _ E Hin Hf).
    + destruct (Win.lookup (js "HostName") vals) as [d|] eqn:E.
      * right. exists d. exact (WinFacts.lookup_In _ _ E).
      * left. reflexivity.
  - apply (@WinFacts.fold_field _ PortNumber (js "PortNumber")); auto.
    + intros n v acc En. rewrite WinFacts.PortNumber_assign, En. reflexivity.
    + intros v acc' Hin Hf. destruct (Win.lookup (js "PortNumber") vals) as [d|] eqn:E.
      * pose proof (Hown _ _ _ E Hin Hf) as Hv. subst v. destruct d as [s | n].
        { rewrite (Hline _ _ Hin). cbn [fst snd Win.dataText].
          rewrite WinFacts.PortNumber_assign, jsstring_eqb_refl. reflexivity. }
        { apply WinFacts.readLine_port.
          rewrite Forall_forall in Hvals. destruct (Hvals _ Hin) as [_ Hn]. cbn in Hn. lia. }
      * destruct (Hnone _ _ E Hin Hf).
    + destruct (Win.lookup (js "PortNumber") vals) as [d|] eqn:E.
      * right. exists d. exact (WinFacts.lookup_In _ _ E).
      * left. reflexivity.
  - apply (@WinFacts.fold_field _ Protocol (js "Protocol")); auto.
    + intros n v acc En. rewrite WinFacts.Protocol_assign, En. reflexivity.
    + intros v acc' Hin Hf. destruct (Win.lookup (js "Protocol") vals) as [d|] eqn:E.
      * rewrite (Hline _ _ Hin), (Hown _ _ _ E Hin Hf). cbn [fst snd].
        rewrite WinFacts.Protocol_assign, jsstring_eqb_refl. reflexivity.
      * destruct (Hnone _ _ E Hin Hf).
    + destruct (Win.lookup (js "Protocol") vals) as [d|] eqn:E.
      * right. exists d. exact (WinFacts.lookup_In _ _ E).
      * left. reflexivity.
  - apply (@WinFacts.fold_field _ CloseOnExit (js "CloseOnExit")); auto.
    + intros n v acc En. rewrite WinFacts.CloseOnExit_assign, En. reflexivity.
    + intros v acc' Hin Hf. destruct (Win.lookup (js "CloseOnExit") vals) as [d|] eqn:E.
      * rewrite (Hline _ _ Hin), (Hown _ _ _ E Hin Hf). cbn [fst snd].
        rewrite WinFacts.CloseOnExit_assign, jsstring_eqb_refl. reflexivity.
      * destruct (Hnone _ _ E Hin Hf).
    + destruct (Win.lookup (js "CloseOnExit") vals) as [d|] eqn:E.
      * right. exists d. exact (WinFacts.lookup_In _ _ E).
      * left. reflexivity.
Qed.

(** A key as PuTTY may hold it: the host with blanks around it, the port
    as a string, no protocol. *)
Lemma read_field_by_field_witness :
  value (run Win.handle (SearchConnections.readSessionValues (js "box"))
    (Win.start [(js "box", [(js "HostName", Win.REG_SZ (js "  example.com "));
                            (js "PortNumber", Win.REG_SZ (js "22"));
                            (js "CloseOnExit", Win.REG_SZ (js "never"));
                            (js "Font", Win.REG_SZ (js "Courier New"))])]))
  = Fulfilled {| HostName := js "example.com"; PortNumber := JS.ofZ 22;
                 Protocol := js "raw"; CloseOnExit := js "never" |}.
Proof.
  refine (@read_field_by_field
    (Win.start [(js "box", [(js "HostName", Win.REG_SZ (js "  example.com "));
                            (js "PortNumber", Win.REG_SZ (js "22"));
                            (js "CloseOnExit", Win.REG_SZ (js "never"));
                            (js "Font", Win.REG_SZ (js "Courier New"))])])
    (js "box") (js "box") _ eq_refl _ _ eq_refl _ _).
  - discriminate.
  - repeat constructor.
  - cbn. repeat (apply NoDup_cons; [cbn; intuition discriminate|]). apply NoDup_nil.
  - repeat (apply Forall_cons;
      [split; [WinFacts.solve_word|]; cbn [snd];
       repeat (apply Forall_cons; [reflexivity|]); apply Forall_nil|]).
    apply Forall_nil.
Defined.

(** ** What passes the check of the port *)

(** X22: a number that passes the port check of the forms is an integer
    from 1 to 65535, and the text the forms put for it on a command line
    ([String(portNum)] and the template literal alike) is its decimal
    numeral: digits and nothing else, never "NaN", "Infinity", a sign, a
    point or an exponent. *)
Theorem accepted_port_is_decimal (E : JS.Engine) (x : JS.number) :
  invalidPort x = false ->
  exists p : Z,
    (1 <= p <= 65535)%Z
    /\ (exists q, x = JS.Finite q /\ (q == inject_Z p)%Q)
    /\ JS.numberToString E x = JS.decimal p
    /\ Forall (fun c => URI.isDigit c = true) (JS.numberToString E x).
Proof.
  unfold invalidPort. intros H.
  apply orb_false_iff in H as [H H3]. apply orb_false_iff in H as [H1 H2].
  apply negb_false_iff in H1.
  destruct x as [| b | [n d]]; try discriminate H1.
  cbn [JS.isInteger Qnum Qden] in H1. pose proof H1 as H1'. apply Z.eqb_eq in H1.
  unfold JS.lessEq, JS.ofZ in H2. unfold JS.greater, JS.ofZ in H3.
  apply negb_false_iff in H3.
  unfold Qle_bool in H2, H3. cbn [inject_Z Qnum Qden] in H2, H3.
  apply Z.leb_gt in H2. apply Z.leb_le in H3.
  pose proof (Z.div_mod n (Z.pos d) ltac:(lia)) as Hdiv. rewrite H1 in Hdiv.
  set (z := (n / Z.pos d)%Z) in *.
  assert (Hz : (1 <= z <= 65535)%Z) by nia.
  assert (Hs : JS.numberToString E (JS.Finite (n # d)) = JS.decimal z).
  { cbn [JS.numberToString JS.isInteger Qnum Qden]. rewrite H1'. fold z.
    replace (Z.abs z <? 10 ^ 21)%Z with true; [reflexivity|].
    symmetry. apply Z.ltb_lt. lia. }
  exists z. split; [exact Hz|]. split; [|split; [exact Hs|]].
  - exists (n # d). split; [reflexivity|]. unfold Qeq. cbn [inject_Z Qnum Qden]. lia.
  - rewrite Hs, WinFacts.decimal_nonneg by lia.
    apply DigitFacts.digits_Forall; [|reflexivity].
    intros c Hc. apply DigitFacts.digitChar_isDigit. exact Hc.
Qed.

Lemma accepted_port_is_decimal_witness :
  exists p : Z,
    (1 <= p <= 65535)%Z
    /\ (exists q, JS.Finite (44 # 2) = JS.Finite q /\ (q == inject_Z p)%Q)
    /\ JS.numberToString plainEngine (JS.Finite (44 # 2)) = JS.decimal p
    /\ Forall (fun c => URI.isDigit c = true)
         (JS.numberToString plainEngine (JS.Finite (44 # 2))).
Proof. exact (@accepted_port_is_decimal plainEngine (JS.Finite (44 # 2)) eq_refl). Defined.

(** ** The create form from end to end *)

(** X23: the check for a required host does not trim: a host of white
    space only passes it.  Saved without a name of its own, the session
    then gets the empty name, and the first command of the write addresses
    the path that ends in a backslash. *)
Theorem blank_host_is_saved_unnamed
    (E : JS.Engine) (World : Type) (handle : forall X, call X -> World -> X * World)
    (w : World) (puttyPath : jsstring) (values : AddConnection.FormValues) :
  AddConnection.host values <> [] ->
  forallb JS.isWhiteSpace (AddConnection.host values) = true ->
  invalidPort (JS.Number E (AddConnection.port values)) = false ->
  AddConnection.save values = true ->
  match AddConnection.savedName values with
  | Some n => forallb JS.isWhiteSpace n = true
  | None => True
  end ->
  AddConnection.sessionNameOf values = []
  /\ exists answer rest,
       events (run handle (AddConnection.handleSubmit E puttyPath values) w)
       = Event (Exec (js "reg add " ++ quote ++ sessionsRoot ++ backslash ++ quote
                      ++ js " /f")) answer :: rest.
Proof.
  intros Hh Hws Hp Hs Hn.
  assert (Hname : AddConnection.sessionNameOf values = []).
  { unfold AddConnection.sessionNameOf. rewrite Hs.
    destruct (AddConnection.savedName values) as [n|].
    - rewrite (TrimFacts.trim_all n Hn). cbn [isEmpty].
      rewrite (TrimFacts.trim_all _ Hws). reflexivity.
    - rewrite (TrimFacts.trim_all _ Hws). reflexivity. }
  split; [exact Hname|].
  unfold AddConnection.handleSubmit.
  destruct (AddConnection.host values) as [|c host] eqn:Eh; [contradiction Hh; reflexivity|].
  cbn [isEmpty]. rewrite Hp, Hs, Hname. rewrite events_bind.
  unfold writeRegistryValues. cbn [encodeSessionKey URI.encodeURIComponent URI.Encode run].
  destruct (handle _ (Exec (createKeyCommand (sessionKeyPath []))) w) as [answer w1].
  cbn [events app]. eexists. eexists. reflexivity.
Qed.

Lemma blank_host_is_saved_unnamed_witness :
  AddConnection.sessionNameOf
    {| AddConnection.host := js "  "; AddConnection.port := js "22";
       AddConnection.protocol := js "ssh"; AddConnection.closeOnExit := js "never";
       AddConnection.save := true; AddConnection.savedName := None |}
  = [].
Proof.
  refine (proj1 (@blank_host_is_saved_unnamed plainEngine Win.World Win.handle (Win.start [])
    (js "C:\putty.exe")
    {| AddConnection.host := js "  "; AddConnection.port := js "22";
       AddConnection.protocol := js "ssh"; AddConnection.closeOnExit := js "never";
       AddConnection.save := true; AddConnection.savedName := None |} _ eq_refl eq_refl eq_refl I)).
  discriminate.
Defined.

(** X24: in the registry model, a submission of the create form with
    "Save session" ticked, a host that reaches [reg.exe] as written
    (printable ASCII, not empty, no white space at its ends, no double
    quote, no percent sign, no backslash at its end), a port field read as
    an integer from 1 to 65535, a protocol and a close-on-exit policy of
    the enumerations, and a trimmed name that is not empty and that the
    encoder accepts, stores the four values under the key of the trimmed
    name and shows the "Session saved" toast; PuTTY is then started once,
    with [-load] and that name, if its path is executable or readable, and
    the "path not found" toast is shown if it is not. *)
Theorem create_form_saves_and_launches
    (E : JS.Engine) (w : Win.World) (puttyPath key : jsstring)
    (values : AddConnection.FormValues) (p : Z) :
  literalHost (AddConnection.host values) ->
  JS.Number E (AddConnection.port values) = JS.ofZ p -> (1 <= p <= 65535)%Z ->
  In (AddConnection.protocol values) protocols ->
  In (AddConnection.closeOnExit values) closeOnExits ->
  AddConnection.save values = true ->
  AddConnection.sessionNameOf values <> [] ->
  wfString (AddConnection.sessionNameOf values) ->
  encodeSessionKey (AddConnection.sessionNameOf values) = Some key ->
  let sessionName := AddConnection.sessionNameOf values in
  let r := run Win.handle (AddConnection.handleSubmit E puttyPath values) w in
  let present := Win.executable w puttyPath || Win.readable w puttyPath in
  (exists new,
     Win.lookup key (Win.hive (final r)) = Some new
     /\ Win.lookup (js "HostName") new = Some (Win.REG_SZ (AddConnection.host values))
     /\ Win.lookup (js "PortNumber") new = Some (Win.REG_DWORD (Z.to_N p))
     /\ Win.lookup (js "Protocol") new = Some (Win.REG_SZ (AddConnection.protocol values))
     /\ Win.lookup (js "CloseOnExit") new
        = Some (Win.REG_SZ (AddConnection.closeOnExit values)))
  /\ Win.toasts (final r)
     = Win.toasts w
       ++ {| style := Success; title := js "Session saved"; message := Some sessionName |}
          :: (if present then []
              else [{| style := Failure; title := js "PuTTY path not found";
                       message := Some puttyPath |}])
  /\ Win.launched (final r)
     = Win.launched w
       ++ (if present then [(puttyPath, [js "-load"; sessionName])] else []).
Proof.
  intros Hlit Hnum Hp Hpr Hc Hs Hname Hwf Hkey sessionName r present.
  pose proof (proj1 Hlit) as Hh.
  pose proof (WinFacts.noQuote_host (literal_plain Hlit)) as Hq.
  destruct (@StoreFacts.run_write E w sessionName key (AddConnection.host values) p
              (AddConnection.protocol values) (AddConnection.closeOnExit values)
              Hkey Hname Hwf Hq ltac:(lia) Hpr Hc) as [Hv Hf].
  assert (Hr : final r =
    (let w1 := Win.setHive w
                 (Win.after (Win.writeCommands key (AddConnection.host values) p
                               (AddConnection.protocol values)
                               (AddConnection.closeOnExit values)) (Win.hive w)) in
     {| Win.hive := Win.hive w1; Win.executable := Win.executable w;
        Win.readable := Win.readable w;
        Win.toasts := Win.toasts w
          ++ {| style := Success; title := js "Session saved"; message := Some sessionName |}
             :: (if present then []
                 else [{| style := Failure; title := js "PuTTY path not found";
                          message := Some puttyPath |}]);
        Win.launched := Win.launched w
          ++ (if present then [(puttyPath, [js "-load"; sessionName])] else []);
        Win.sessions := Win.sessions w |})).
  { subst r. unfold AddConnection.handleSubmit.
    destruct (AddConnection.host values) as [|c0 host] eqn:Eh; [contradiction Hh; reflexivity|].
    cbn [isEmpty]. rewrite Hnum.
    rewrite invalidPort_ofZ.
    replace ((1 <=? p)%Z && (p <=? 65535)%Z) with true
      by (symmetry; apply andb_true_iff; split; apply Z.leb_le; lia).
    cbn [negb]. rewrite Hs. fold sessionName.
    rewrite run_bind. cbv zeta. cbn [final]. rewrite Hv, Hf.
    subst present. unfold pathNotFound, showToast, fileExists, dismiss, perform.
    cbn [bind run Win.handle final Win.setHive Win.hive Win.executable Win.readable
         Win.toasts Win.launched Win.sessions].
    destruct (Win.executable w puttyPath); cbn [orb negb bind run Win.handle final
      Win.setHive Win.hive Win.executable Win.readable Win.toasts Win.launched Win.sessions].
    - rewrite <- ?app_assoc. reflexivity.
    - destruct (Win.readable w puttyPath); cbn [orb negb bind run Win.handle final
        Win.setHive Win.hive Win.executable Win.readable Win.toasts Win.launched Win.sessions];
        rewrite <- ?app_assoc, ?app_nil_r; reflexivity. }
  rewrite Hr. cbv zeta. cbn [Win.hive Win.toasts Win.launched Win.setHive].
  assert (Hne4 : forall a b : string, jsstring_eqb (js a) (js b) = false -> js a <> js b).
  { intros a b H. apply jsstring_eqb_neq. exact H. }
  split; [|split; reflexivity].
  eexists. split; [apply WinFacts.lookup_after_write|].
  unfold Win.storedValues.
  repeat split;
    rewrite ?WinFacts.lookup_upsert_other by (apply Hne4; reflexivity);
    apply WinFacts.lookup_upsert.
Qed.

Lemma create_form_saves_and_launches_witness :
  Win.launched (final (run Win.handle
    (AddConnection.handleSubmit plainEngine (js "C:\putty.exe")
       {| AddConnection.host := js "example.com"; AddConnection.port := js "22";
          AddConnection.protocol := js "ssh"; AddConnection.closeOnExit := js "never";
          AddConnection.save := true; AddConnection.savedName := Some (js " box ") |})
    (Win.start [])))
  = [(js "C:\putty.exe", [js "-load"; js "box"])].
Proof.
  refine (proj2 (proj2 (@create_form_saves_and_launches plainEngine (Win.start [])
    (js "C:\putty.exe") (js "box")
    {| AddConnection.host := js "example.com"; AddConnection.port := js "22";
       AddConnection.protocol := js "ssh"; AddConnection.closeOnExit := js "never";
       AddConnection.save := true; AddConnection.savedName := Some (js " box ") |}
    22%Z _ eq_refl _ _ _ eq_refl _ _ eq_refl))).
  - split; [discriminate|]. split; [split; reflexivity|]. split; [|discriminate].
    cbn. repeat (apply Forall_cons; [split; [lia | split; discriminate]|]). apply Forall_nil.
  - lia.
  - cbn. tauto.
  - cbn. tauto.
  - discriminate.
  - repeat constructor.
Defined.

(** ** The temporary form and the delete, step by step *)

(** X25: a valid submission of the temporary form checks the executable
    and then either starts PuTTY with the flag of the protocol, [-P], the
    port in decimal and the host, and dismisses the form, or shows the
    "path not found" toast and leaves the form open. *)
Theorem temporary_form_steps
    (E : JS.Engine) (World : Type) (handle : forall X, call X -> World -> X * World)
    (w : World) (puttyPath : jsstring) (values : SearchConnections.FormValues) :
  SearchConnections.host values <> [] ->
  invalidPort (JS.Number E (SearchConnections.port values)) = false ->
  let r := run handle (SearchConnections.TempEditForm.handleSubmit E puttyPath values) w in
  let check := run handle (fileExists puttyPath) w in
  exists a b,
    events r = events check
      ++ (if value check
          then [started puttyPath
                  [SearchConnections.TempEditForm.protocolToFlag
                     (SearchConnections.protocol values);
                   js "-P";
                   JS.numberToString E (JS.Number E (SearchConnections.port values));
                   SearchConnections.host values];
                Event PopToRoot a; Event CloseMainWindow b]
          else [pathNotFoundShown puttyPath]).
Proof.
  intros Hh Hp r check. subst r. unfold SearchConnections.TempEditForm.handleSubmit.
  destruct (SearchConnections.host values) as [|c host] eqn:Eh; [contradiction Hh; reflexivity|].
  cbn [isEmpty]. rewrite Hp. rewrite events_bind. fold check.
  destruct (value check); cbn [negb].
  - rewrite events_bind, run_launch. cbn [events final].
    match goal with
    | |- context [run handle dismiss ?w1] =>
      destruct (@events_dismiss World handle w1) as [a [b Hd]]
    end.
    exists a, b. rewrite Hd. reflexivity.
  - exists false, false. unfold pathNotFound. rewrite run_showToast. reflexivity.
Qed.

Lemma temporary_form_steps_witness :
  exists a b : bool,
    events (run Win.handle
      (SearchConnections.TempEditForm.handleSubmit plainEngine (js "C:\putty.exe")
         {| SearchConnections.host := js "example.com"; SearchConnections.port := js "2222";
            SearchConnections.protocol := js "telnet";
            SearchConnections.closeOnExit := js "never" |}) (Win.start []))
    = [checked (js "C:\putty.exe") X_OK true]
      ++ [started (js "C:\putty.exe") [js "-telnet"; js "-P"; js "2222"; js "example.com"];
          Event PopToRoot a; Event CloseMainWindow b].
Proof.
  exact (@temporary_form_steps plainEngine Win.World Win.handle (Win.start [])
    (js "C:\putty.exe")
    {| SearchConnections.host := js "example.com"; SearchConnections.port := js "2222";
       SearchConnections.protocol := js "telnet"; SearchConnections.closeOnExit := js "never" |}
    ltac:(discriminate) eq_refl).
Defined.

(** X26: for a name the encoder accepts, [deleteSession] runs one command,
    the [reg delete] of the key of the name, and is fulfilled whatever the
    answer.  When the command fails the failure toast is all that follows;
    only when it succeeds the "Deleted" toast is shown and the entries of
    that name are then taken out of the snapshot. *)
Theorem delete_steps
    (World : Type) (handle : forall X, call X -> World -> X * World) (w : World)
    (sessionName key : jsstring) :
  encodeSessionKey sessionName = Some key ->
  let r := run handle (SearchConnections.deleteSession sessionName) w in
  exists answer,
    value r = Fulfilled tt
    /\ events r =
       Event (Exec (js "reg delete " ++ quote ++ sessionsRoot ++ backslash ++ key ++ quote
                    ++ js " /f")) answer
       :: match error answer with
          | Some _ =>
            [Event (ShowToast {| style := Failure; title := js "Failed to delete session";
                                 message := Some sessionName |}) tt]
          | None =>
            [Event (ShowToast {| style := Success; title := js "Deleted";
                                 message := Some sessionName |}) tt;
             Event (SetSessions
                      (filter (fun s => negb (jsstring_eqb (name s) sessionName)))) tt]
          end.
Proof.
  intros Hkey r. subst r. unfold SearchConnections.deleteSession. rewrite Hkey.
  cbn [run].
  destruct (handle _ (Exec (js "reg delete " ++ quote ++ sessionKeyPath key ++ quote
                            ++ js " /f")) w) as [answer w1].
  exists answer. cbn [value events].
  destruct (error answer); rewrite run_bind, run_showToast; cbv zeta; cbn [value events final].
  - split; reflexivity.
  - rewrite run_bind. cbv zeta. unfold perform. cbn [run].
    match goal with
    | |- context [handle _ (SetSessions ?f) ?w2] =>
      destruct (handle _ (SetSessions f) w2) as [[] w3]
    end.
    split; reflexivity.
Qed.

Lemma delete_steps_witness :
  exists answer,
    value (run Win.handle (SearchConnections.deleteSession (js "my box")) (Win.start []))
    = Fulfilled tt
    /\ events (run Win.handle (SearchConnections.deleteSession (js "my box")) (Win.start []))
       = Event (Exec (js "reg delete " ++ quote ++ sessionsRoot ++ backslash ++ js "my%20box"
                      ++ quote ++ js " /f")) answer
         :: match error answer with
            | Some _ =>
              [Event (ShowToast {| style := Failure; title := js "Failed to delete session";
                                   message := Some (js "my box") |}) tt]
            | None =>
              [Event (ShowToast {| style := Success; title := js "Deleted";
                                   message := Some (js "my box") |}) tt;
               Event (SetSessions
                        (filter (fun s => negb (jsstring_eqb (name s) (js "my box"))))) tt]
            end.
Proof.
  exact (@delete_steps Win.World Win.handle (Win.start []) (js "my box") (js "my%20box")
    eq_refl).
Defined.
